(** * MacroPadGames: a shallow embedding of the game sessions and the score store

    The games are CircuitPython classes deriving from [BaseGame]; each one is a
    state machine driven by the host loop of [code.py] through [update()].
    Every method is embedded as a function from the object's fields to a
    computation in the monad [M] below, which threads the hardware the methods
    talk to: the monotonic clock, the key-event queue, the debounced encoder
    switch, the random source, the speaker and the NeoPixels.

    Conventions.
    - Times are seconds.  Python floats are idealised as rationals ([Q]).
    - Calls to the display collaborator only write text to the OLED and never
      feed back into a game; they are left out.  LED and tone calls are
      recorded in the [trace] of the world, newest first.
    - [print] calls are left out. *)

From Stdlib Require Import ZArith QArith Qminmax Qround Lia Lqa Bool.
From stdpp Require Import gmap strings list.

Open Scope Z_scope.

(** ** Python arithmetic on idealised floats *)

Definition Qleb (x y : Q) : bool := Qle_bool x y.
Definition Qltb (x y : Q) : bool := negb (Qle_bool y x).

(** [max(a, b)]: the first argument unless the second is strictly greater. *)
Definition pymax (a b : Q) : Q := if Qltb a b then b else a.

(** [int(x)] on a float: truncation toward zero. *)
Definition pyint (x : Q) : Z := Z.quot (Qnum x) (Zpos (Qden x)).

(** ** The hardware seen by a game *)

Inductive Exn :=
  KeyError | IndexError | TypeError | ValueError | OSError | ZeroDivisionError.

Definition Color : Type := Z * Z * Z.

Record KeyEvent := { key_number : nat; pressed : bool }.

Inductive Effect :=
| PixelSet (key : nat) (c : Color)      (* pixels[key] = c *)
| PixelFill (c : Color)                (* pixels.fill(c) *)
| Rainbow                              (* one frame of rainbow_cycle *)
| Tone (freq : Q) (dur : Q).           (* macropad.play_tone(freq, dur) *)

(** [lags] are the delays between one reading of the clock and the next that
    are not explained by a [sleep] or a tone; [key_events], [switch_polls],
    [encoder_reads], [rng] and [rng_unit] are the answers the hardware gives
    to the successive calls of [keys.events.get()],
    [encoder_switch_debounced.update()], [macropad.encoder] and [random].
    An exhausted list answers "nothing" from then on. *)
Record World := {
  clock : Q;
  lags : list Q;
  key_events : list (option KeyEvent);
  switch_polls : list bool;
  switch_pressed : bool;
  encoder_reads : list Z;
  rng : list nat;
  rng_unit : list Q;
  volume : Z;
  trace : list Effect
}.

Definition set_clock (t : Q) (l : list Q) (w : World) : World :=
  {| clock := t; lags := l; key_events := key_events w;
     switch_polls := switch_polls w; switch_pressed := switch_pressed w;
     encoder_reads := encoder_reads w; rng := rng w; rng_unit := rng_unit w;
     volume := volume w; trace := trace w |}.

Definition set_key_events (q : list (option KeyEvent)) (w : World) : World :=
  {| clock := clock w; lags := lags w; key_events := q;
     switch_polls := switch_polls w; switch_pressed := switch_pressed w;
     encoder_reads := encoder_reads w; rng := rng w; rng_unit := rng_unit w;
     volume := volume w; trace := trace w |}.

Definition set_switch (p : bool) (l : list bool) (w : World) : World :=
  {| clock := clock w; lags := lags w; key_events := key_events w;
     switch_polls := l; switch_pressed := p;
     encoder_reads := encoder_reads w; rng := rng w; rng_unit := rng_unit w;
     volume := volume w; trace := trace w |}.

Definition set_encoder_reads (l : list Z) (w : World) : World :=
  {| clock := clock w; lags := lags w; key_events := key_events w;
     switch_polls := switch_polls w; switch_pressed := switch_pressed w;
     encoder_reads := l; rng := rng w; rng_unit := rng_unit w;
     volume := volume w; trace := trace w |}.

Definition set_rng (l : list nat) (w : World) : World :=
  {| clock := clock w; lags := lags w; key_events := key_events w;
     switch_polls := switch_polls w; switch_pressed := switch_pressed w;
     encoder_reads := encoder_reads w; rng := l; rng_unit := rng_unit w;
     volume := volume w; trace := trace w |}.

Definition set_rng_unit (l : list Q) (w : World) : World :=
  {| clock := clock w; lags := lags w; key_events := key_events w;
     switch_polls := switch_polls w; switch_pressed := switch_pressed w;
     encoder_reads := encoder_reads w; rng := rng w; rng_unit := l;
     volume := volume w; trace := trace w |}.

Definition set_trace (t : list Effect) (w : World) : World :=
  {| clock := clock w; lags := lags w; key_events := key_events w;
     switch_polls := switch_polls w; switch_pressed := switch_pressed w;
     encoder_reads := encoder_reads w; rng := rng w; rng_unit := rng_unit w;
     volume := volume w; trace := t |}.

(** The world of one tick in which key [k] has just been pressed. *)
Definition key_world (k : nat) : World :=
  {| clock := 0; lags := [];
     key_events := [Some {| key_number := k; pressed := true |}];
     switch_polls := []; switch_pressed := false; encoder_reads := [];
     rng := []; rng_unit := []; volume := 3; trace := [] |}.

(** A quiet world at time [t]: nothing queued, nothing pressed, volume 3
    (the [DEFAULT_VOLUME] of the sound manager). *)
Definition quiet_world (t : Q) : World :=
  {| clock := t; lags := []; key_events := []; switch_polls := [];
     switch_pressed := false; encoder_reads := []; rng := []; rng_unit := [];
     volume := 3; trace := [] |}.

(** ** The monad of game methods

    [Done a w]: the call returned [a], leaving the hardware in [w].
    [Raise e]: the call raised the Python exception [e].
    [Hang]: the call is blocked in a wait loop for a press that never comes. *)

Inductive Res (A : Type) :=
| Done (a : A) (w : World)
| Raise (e : Exn)
| Hang.
Arguments Done {A} a w.
Arguments Raise {A} e.
Arguments Hang {A}.

Definition M (A : Type) : Type := World → Res A.

Definition ret {A} (a : A) : M A := λ w, Done a w.

Definition bind {A B} (m : M A) (f : A → M B) : M B := λ w,
  match m w with
  | Done a w' => f a w'
  | Raise e => Raise e
  | Hang => Hang
  end.

Definition raise {A} (e : Exn) : M A := λ _, Raise e.
Definition hang {A} : M A := λ _, Hang.

Notation "x <- m ;; k" := (bind m (λ x, k))
  (at level 100, m at next level, k at level 200, right associativity).
Notation "m ;; k" := (bind m (λ _ : unit, k))
  (at level 100, k at level 200, right associativity).

(** [when c m]: a Python [if c: m] with no [else]. *)
Definition when (c : bool) (m : M unit) : M unit := if c then m else ret tt.

(** [for _ in range(n): body] *)
Fixpoint repeat_m (n : nat) (body : M unit) : M unit :=
  match n with
  | O => ret tt
  | S k => body;; repeat_m k body
  end.

(** [for x in l: body x] *)
Fixpoint for_each {A} (l : list A) (body : A → M unit) : M unit :=
  match l with
  | [] => ret tt
  | x :: r => body x;; for_each r body
  end.

(** *** Specifications of computations

    [wp m Q w]: started in [w], [m] returns and [Q] holds of its result and
    of the world it leaves.  [wlp m Q w]: if [m] returns, then [Q] holds. *)

Definition wp {A} (m : M A) (Q : A → World → Prop) (w : World) : Prop :=
  match m w with
  | Done a w' => Q a w'
  | _ => False
  end.

Definition wlp {A} (m : M A) (Q : A → World → Prop) (w : World) : Prop :=
  match m w with
  | Done a w' => Q a w'
  | _ => True
  end.

(** [total m]: [m] returns from every world. *)
Definition total {A} (m : M A) : Prop := ∀ w, wp m (λ _ _, True) w.

(** *** time *)

Definition next_lag (l : list Q) : Q :=
  match l with
  | [] => 0%Q
  | d :: _ => Qmax 0 d
  end.

(** [time.monotonic()] *)
Definition monotonic : M Q := λ w,
  let t := (clock w + next_lag (lags w))%Q in
  Done t (set_clock t (tail (lags w)) w).

(** [time.sleep(d)] *)
Definition sleep (d : Q) : M unit := λ w,
  Done tt (set_clock (clock w + d)%Q (lags w) w).

(** *** keys and encoder *)

(** [macropad.keys.events.get()] *)
Definition events_get : M (option KeyEvent) := λ w,
  match key_events w with
  | [] => Done None w
  | e :: q => Done e (set_key_events q w)
  end.

(** [key_event and key_event.pressed], with the key number when it holds *)
Definition pressed_key (e : option KeyEvent) : option nat :=
  match e with
  | Some ev => if pressed ev then Some (key_number ev) else None
  | None => None
  end.

(** [macropad.encoder_switch_debounced.update()] *)
Definition switch_update : M unit := λ w,
  match switch_polls w with
  | [] => Done tt (set_switch false [] w)
  | p :: l => Done tt (set_switch p l w)
  end.

(** [macropad.encoder_switch_debounced.pressed] *)
Definition switch_is_pressed : M bool := λ w, Done (switch_pressed w) w.

(** [macropad.encoder] *)
Definition encoder_position : M Z := λ w,
  match encoder_reads w with
  | [] => Done 0 w
  | p :: l => Done p (set_encoder_reads l w)
  end.

(** *** random *)

Definition rand_below (n : nat) : M nat := λ w,
  match rng w with
  | [] => Done O w
  | r :: l => Done (r `mod` n)%nat (set_rng l w)
  end.

(** [random.randint(a, b)], both ends included *)
Definition randint (a b : nat) : M nat :=
  r <- rand_below (b - a + 1);; ret (a + r)%nat.

(** [random.choice(l)]; raises IndexError on an empty list *)
Definition choice {A} (l : list A) : M A :=
  r <- rand_below (length l);;
  match l !! r with
  | Some x => ret x
  | None => raise IndexError
  end.

(** [random.uniform(a, b)] *)
Definition uniform (a b : Q) : M Q := λ w,
  match rng_unit w with
  | [] => Done a w
  | u :: l => Done (a + (b - a) * Qmin 1 (Qmax 0 u))%Q (set_rng_unit l w)
  end.

(** *** output *)

Definition emit (e : Effect) : M unit := λ w,
  Done tt (set_trace (e :: trace w) w).

(** ** utils/sound_manager.py *)

Module SoundManager.

(** [macropad.play_tone] of the Adafruit library: starts the tone, waits
    for its duration, stops it. *)
Definition macropad_play_tone (freq dur : Q) : M unit :=
  emit (Tone freq dur);; sleep dur.

Definition enabled : M bool := λ w, Done (0 <? volume w) w.

Definition play_tone (freq dur : Q) : M unit :=
  en <- enabled;; when en (macropad_play_tone freq dur).

Definition play_sequence (tones : list (Q * Q)) : M unit :=
  en <- enabled;;
  when en (for_each tones (λ t, macropad_play_tone (fst t) (snd t))).

Definition TONES_correct : list (Q * Q) := [(880, 0.1); (1100, 0.1)]%Q.
Definition TONES_wrong : list (Q * Q) := [(440, 0.2); (220, 0.3)]%Q.
Definition TONES_level_up : list (Q * Q) :=
  [(523, 0.1); (659, 0.1); (784, 0.1); (1047, 0.2)]%Q.
Definition TONES_menu_select : list (Q * Q) := [(660, 0.05); (880, 0.05)]%Q.
Definition TONES_countdown : list (Q * Q) := [(440, 0.1)]%Q.
Definition TONES_key_feedback : list Q :=
  [262; 294; 330; 349; 392; 440; 494; 523; 587; 659; 698; 784]%Q.

Definition play_correct : M unit := play_sequence TONES_correct.
Definition play_wrong : M unit := play_sequence TONES_wrong.
Definition play_level_up : M unit := play_sequence TONES_level_up.
Definition play_menu_select : M unit := play_sequence TONES_menu_select.
Definition play_countdown : M unit := play_sequence TONES_countdown.

Definition play_key_tone (key_index : nat) : M unit :=
  play_tone (default 440%Q (TONES_key_feedback !! key_index)) 0.15%Q.

End SoundManager.

(** ** utils/led_manager.py

    Colours given by name in the source are resolved through [COLORS] here. *)

Module LEDManager.

Definition red : Color := (255, 0, 0).
Definition green : Color := (0, 255, 0).
Definition blue : Color := (0, 0, 255).
Definition yellow : Color := (255, 255, 0).
Definition cyan : Color := (0, 255, 255).
Definition magenta : Color := (255, 0, 255).
Definition orange : Color := (255, 128, 0).
Definition white : Color := (255, 255, 255).
Definition off : Color := (0, 0, 0).

Definition GAME_COLORS : list Color := [red; green; blue; yellow; cyan; magenta].

(** [self.pixels[key_index] = color]; the strip has twelve pixels *)
Definition set_key (key_index : nat) (color : Color) : M unit :=
  if (key_index <? 12)%nat then emit (PixelSet key_index color)
  else raise IndexError.

Definition set_all (color : Color) : M unit := emit (PixelFill color).
Definition clear_all : M unit := emit (PixelFill off).

Definition get_random_color : M Color := choice GAME_COLORS.

Definition flash_key (key_index : nat) (color : Color) (times : nat)
    (on_time off_time : Q) : M unit :=
  repeat_m times
    (set_key key_index color;; sleep on_time;;
     set_key key_index off;; sleep off_time).

Definition flash_all (color : Color) (times : nat) (on_time off_time : Q)
    : M unit :=
  repeat_m times
    (set_all color;; sleep on_time;; clear_all;; sleep off_time).

Definition sweep_animation (color : Color) : M unit :=
  for_each (seq 0 12) (λ i, set_key i color;; sleep 0.05%Q);;
  for_each (seq 0 12) (λ i, set_key i off;; sleep 0.05%Q).

(** The loop of [rainbow_cycle] ends once [duration] has elapsed; every
    pass sleeps 0.02 s, so [fuel] passes are enough when
    [duration <= 0.02 * fuel]. *)
Fixpoint rainbow_loop (fuel : nat) (start duration : Q) : M unit :=
  match fuel with
  | O => hang
  | S k =>
      t <- monotonic;;
      if Qltb (t - start) duration then
        _ <- monotonic;;
        emit Rainbow;;
        sleep 0.02%Q;;
        rainbow_loop k start duration
      else ret tt
  end.

Definition rainbow_cycle (duration : Q) : M unit :=
  start <- monotonic;;
  rainbow_loop (S (Z.to_nat (Qceiling (duration / 0.02)))) start duration.

End LEDManager.

(** ** games/base_game.py *)

Module BaseGame.

(** The attributes every game inherits. *)
Record Base := {
  score : Z;
  high_score : Z;
  is_running : bool;
  game_over : bool
}.

Definition init : Base :=
  {| score := 0; high_score := 0; is_running := false; game_over := false |}.

Definition set_score (v : Z) (b : Base) : Base :=
  {| score := v; high_score := high_score b;
     is_running := is_running b; game_over := game_over b |}.

Definition set_flags (running over : bool) (b : Base) : Base :=
  {| score := score b; high_score := high_score b;
     is_running := running; game_over := over |}.

(** [reset()] of every game ends with
    [score = 0; is_running = False; game_over = False]. *)
Definition reset (b : Base) : Base :=
  {| score := 0; high_score := high_score b;
     is_running := false; game_over := false |}.

Definition update_high_score (b : Base) : Base :=
  if score b >? high_score b then
    {| score := score b; high_score := score b;
       is_running := is_running b; game_over := game_over b |}
  else b.

Definition cleanup (b : Base) : M Base :=
  LEDManager.clear_all;;
  ret (set_flags false false b).

(** The loop of [wait_for_continue] and of [handle_pause] polls the encoder
    switch; once the polls of the world are used up no press can come any
    more and the loop never ends. *)
Fixpoint wait_loop (fuel : nat) : M unit :=
  match fuel with
  | O => hang
  | S k =>
      switch_update;;
      p <- switch_is_pressed;;
      if p then ret tt else sleep 0.05%Q;; wait_loop k
  end.

Definition wait_for_continue : M unit := λ w,
  (switch_update;; wait_loop (length (tail (switch_polls w)))) w.

Definition show_game_over_screen (b : Base) : M Base :=
  let b := update_high_score b in
  wait_for_continue;;
  ret b.

Definition do_countdown (seconds : nat) : M unit :=
  repeat_m seconds
    (SoundManager.play_countdown;;
     LEDManager.flash_all LEDManager.white 1 0.3%Q 0.7%Q);;
  SoundManager.play_menu_select;;
  sleep 0.5%Q.

(** [True]: resume, [False]: quit to the menu *)
Fixpoint pause_loop (fuel : nat) : M bool :=
  match fuel with
  | O => hang
  | S k =>
      switch_update;;
      p <- switch_is_pressed;;
      if p then ret false
      else
        e <- events_get;;
        match pressed_key e with
        | Some _ => ret true
        | None => sleep 0.05%Q;; pause_loop k
        end
  end.

Definition handle_pause : M bool := λ w,
  (LEDManager.clear_all;;
   pause_loop (length (switch_polls w) + length (key_events w))) w.

End BaseGame.

Import BaseGame.

(** ** games/lights_out.py *)

Module LightsOut.

(** Key layout:
<<
    0  1  2
    3  4  5
    6  7  8
    9  10 11
>>
    [ADJACENCY] is a dict with the keys 0..11; entry [k] is row [k] here. *)
Definition ADJACENCY : list (list nat) :=
  [ [0; 1; 3];
    [0; 1; 2; 4];
    [1; 2; 5];
    [0; 3; 4; 6];
    [1; 3; 4; 5; 7];
    [2; 4; 5; 8];
    [3; 6; 7; 9];
    [4; 6; 7; 8; 10];
    [5; 7; 8; 11];
    [6; 9; 10];
    [7; 9; 10; 11];
    [8; 10; 11] ]%nat.

Definition INITIAL_RANDOM_MOVES : Z := 5.
Definition MAX_RANDOM_MOVES : Z := 15.

Definition LIGHT_ON : Color := (255, 200, 50).
Definition LIGHT_OFF : Color := (0, 0, 0).
Definition TOGGLE_FLASH : Color := (255, 255, 255).

Record State := {
  base : Base;
  lights : list bool;
  move_count : Z;
  level : Z;
  random_moves : Z;
  last_encoder : option Z
}.

Definition init : State :=
  {| base := BaseGame.init; lights := replicate 12 false; move_count := 0;
     level := 1; random_moves := INITIAL_RANDOM_MOVES; last_encoder := None |}.

Definition set_base (b : Base) (s : State) : State :=
  {| base := b; lights := lights s; move_count := move_count s;
     level := level s; random_moves := random_moves s;
     last_encoder := last_encoder s |}.

Definition set_lights (l : list bool) (s : State) : State :=
  {| base := base s; lights := l; move_count := move_count s;
     level := level s; random_moves := random_moves s;
     last_encoder := last_encoder s |}.

Definition set_move_count (n : Z) (s : State) : State :=
  {| base := base s; lights := lights s; move_count := n;
     level := level s; random_moves := random_moves s;
     last_encoder := last_encoder s |}.

Definition set_last_encoder (e : option Z) (s : State) : State :=
  {| base := base s; lights := lights s; move_count := move_count s;
     level := level s; random_moves := random_moves s;
     last_encoder := e |}.

Definition reset (s : State) : M State :=
  LEDManager.clear_all;;
  ret {| base := BaseGame.reset (base s); lights := replicate 12 false;
         move_count := 0; level := 1;
         random_moves := INITIAL_RANDOM_MOVES;
         last_encoder := last_encoder s |}.

(** [self.lights[key] = not self.lights[key]] *)
Definition flip (l : list bool) (key : nat) : option (list bool) :=
  match l !! key with
  | Some b => Some (<[key := negb b]> l)
  | None => None
  end.

(** [for key in affected_keys: self.lights[key] = not self.lights[key]] *)
Fixpoint flip_all (l : list bool) (affected_keys : list nat)
    : option (list bool) :=
  match affected_keys with
  | [] => Some l
  | key :: r =>
      match flip l key with
      | Some l' => flip_all l' r
      | None => None
      end
  end.

Definition _render_lights (s : State) : M unit :=
  for_each (seq 0 12) (λ i,
    match lights s !! i with
    | Some true => LEDManager.set_key i LIGHT_ON
    | Some false => LEDManager.set_key i LIGHT_OFF
    | None => raise IndexError
    end).

Definition _toggle_lights (key_index : nat) (animate : bool) (s : State)
    : M State :=
  match ADJACENCY !! key_index with
  | None => raise KeyError
  | Some affected_keys =>
      when animate
        (for_each affected_keys (λ key, LEDManager.set_key key TOGGLE_FLASH);;
         SoundManager.play_tone 440%Q 0.05%Q;;
         sleep 0.05%Q);;
      match flip_all (lights s) affected_keys with
      | None => raise IndexError
      | Some l =>
          let s := set_lights l s in
          when animate (_render_lights s);;
          ret s
      end
  end.

(** [sum(self.lights)] *)
Definition lit (l : list bool) : nat := length (filter (λ b, b = true) l).

(** The [while sum(self.lights) == 0] loop of [_generate_puzzle]. *)
Fixpoint scramble_until_lit (fuel : nat) (s : State) : M State :=
  if (lit (lights s) =? 0)%nat then
    match fuel with
    | O => hang
    | S k =>
        key <- randint 0 11;;
        s <- _toggle_lights key false s;;
        scramble_until_lit k s
    end
  else ret s.

(** [for _ in range(self.random_moves)] of [_generate_puzzle] *)
Fixpoint scramble (n : nat) (s : State) : M State :=
  match n with
  | O => ret s
  | S k =>
      key <- randint 0 11;;
      s <- _toggle_lights key false s;;
      scramble k s
  end.

Definition _generate_puzzle (s : State) : M State :=
  let s := set_lights (replicate 12 false) s in
  s <- scramble (Z.to_nat (random_moves s)) s;;
  s <- scramble_until_lit 1 s;;
  let s := set_move_count 0 s in
  _render_lights s;;
  ret s.

Definition start (s : State) : M State :=
  s <- reset s;;
  sleep 0.5%Q;;
  sleep 3.0%Q;;
  let s := set_base (set_flags true (game_over (base s)) (base s)) s in
  e <- encoder_position;;
  let s := set_last_encoder (Some e) s in
  _generate_puzzle s.

Definition _next_level (s : State) : M State :=
  let s :=
    {| base := base s; lights := lights s; move_count := move_count s;
       level := level s + 1;
       random_moves := Z.min MAX_RANDOM_MOVES (random_moves s + 1);
       last_encoder := last_encoder s |} in
  _generate_puzzle s.

(** The [while True] loop that ends [_handle_victory]. *)
Fixpoint victory_loop (fuel : nat) (s : State) : M State :=
  match fuel with
  | O => hang
  | S k =>
      e <- events_get;;
      match pressed_key e with
      | Some _ => _next_level s
      | None =>
          switch_update;;
          p <- switch_is_pressed;;
          if p then ret (set_base (set_flags false true (base s)) s)
          else victory_loop k s
      end
  end.

Definition _handle_victory (s : State) : M State :=
  let base_score := 100 in
  let move_penalty := move_count s * 2 in
  let level_bonus := level s * 20 in
  let s := set_base
    (set_score (Z.max 10 (base_score - move_penalty + level_bonus)) (base s))
    s in
  let s := set_base (update_high_score (base s)) s in
  SoundManager.play_level_up;;
  LEDManager.sweep_animation LEDManager.green;;
  sleep 2.0%Q;;
  λ w, victory_loop (length (key_events w) + length (switch_polls w)) s w.

Definition handle_key_press (key_index : nat) (s : State) : M State :=
  s <- _toggle_lights key_index true s;;
  let s := set_move_count (move_count s + 1) s in
  if negb (existsb id (lights s)) then _handle_victory s else ret s.

Fixpoint pause_menu_loop (fuel : nat) (s : State) : M bool :=
  match fuel with
  | O => hang
  | S k =>
      switch_update;;
      p <- switch_is_pressed;;
      if p then ret false
      else
        e <- events_get;;
        match pressed_key e with
        | Some _ => _render_lights s;; ret true
        | None => pause_menu_loop k s
        end
  end.

Definition _handle_pause_menu (s : State) : M bool :=
  LEDManager.clear_all;;
  λ w, pause_menu_loop (length (switch_polls w) + length (key_events w)) s w.

Definition update (s : State) : M (bool * State) :=
  if negb (is_running (base s)) then ret (false, s)
  else
    e <- events_get;;
    s <- match pressed_key e with
         | Some k => handle_key_press k s
         | None => ret s
         end;;
    switch_update;;
    p <- switch_is_pressed;;
    if p then
      r <- _handle_pause_menu s;; ret (r, s)
    else
      enc <- encoder_position;;
      match last_encoder s with
      | None => raise TypeError
      | Some last =>
          if negb (enc - last =? 0) then
            enc <- encoder_position;;
            let s := set_last_encoder (Some enc) s in
            ret (is_running (base s), s)
          else ret (is_running (base s), s)
      end.

End LightsOut.

(** ** games/tictactoe.py *)

Module TicTacToe.

(** The bottom nine keys (3..11) form the 3x3 grid. *)
Definition GRID_KEYS : list nat := [3; 4; 5; 6; 7; 8; 9; 10; 11]%nat.

(** Winning combinations (indices into [GRID_KEYS]) *)
Definition WIN_COMBOS : list (nat * nat * nat) :=
  [ (0, 1, 2); (3, 4, 5); (6, 7, 8);
    (0, 3, 6); (1, 4, 7); (2, 5, 8);
    (0, 4, 8); (2, 4, 6) ]%nat.

Definition PLAYER1_COLOR : Color := (255, 0, 0).
Definition PLAYER2_COLOR : Color := (0, 0, 255).
Definition EMPTY_COLOR : Color := (30, 30, 30).
Definition WIN_COLOR : Color := (0, 255, 0).
Definition INDICATOR_P1 : Color := (255, 50, 50).
Definition INDICATOR_P2 : Color := (50, 50, 255).

(** [board]: 0 = empty, 1 = player 1, 2 = player 2 *)
Record State := {
  base : Base;
  board : list Z;
  current_player : Z;
  game_active : bool;
  games_played : Z;
  p1_wins : Z;
  p2_wins : Z;
  draws : Z
}.

Definition init : State :=
  {| base := BaseGame.init; board := replicate 9 0; current_player := 1;
     game_active := false; games_played := 0; p1_wins := 0; p2_wins := 0;
     draws := 0 |}.

Definition set_base (b : Base) (s : State) : State :=
  {| base := b; board := board s; current_player := current_player s;
     game_active := game_active s; games_played := games_played s;
     p1_wins := p1_wins s; p2_wins := p2_wins s; draws := draws s |}.

Definition set_board (b : list Z) (s : State) : State :=
  {| base := base s; board := b; current_player := current_player s;
     game_active := game_active s; games_played := games_played s;
     p1_wins := p1_wins s; p2_wins := p2_wins s; draws := draws s |}.

Definition set_current_player (p : Z) (s : State) : State :=
  {| base := base s; board := board s; current_player := p;
     game_active := game_active s; games_played := games_played s;
     p1_wins := p1_wins s; p2_wins := p2_wins s; draws := draws s |}.

Definition set_game_active (a : bool) (s : State) : State :=
  {| base := base s; board := board s; current_player := current_player s;
     game_active := a; games_played := games_played s;
     p1_wins := p1_wins s; p2_wins := p2_wins s; draws := draws s |}.

Definition reset (s : State) : M State :=
  LEDManager.clear_all;;
  ret {| base := BaseGame.reset (base s); board := replicate 9 0;
         current_player := 1; game_active := false; games_played := 0;
         p1_wins := 0; p2_wins := 0; draws := 0 |}.

(** [self.board[i]] *)
Definition cell (s : State) (i : nat) : M Z :=
  match board s !! i with
  | Some v => ret v
  | None => raise IndexError
  end.

Definition _render_board (s : State) : M unit :=
  LEDManager.clear_all;;
  for_each (imap (λ i key, (i, key)) GRID_KEYS) (λ ik,
    v <- cell s (fst ik);;
    if v =? 1 then LEDManager.set_key (snd ik) PLAYER1_COLOR
    else if v =? 2 then LEDManager.set_key (snd ik) PLAYER2_COLOR
    else LEDManager.set_key (snd ik) EMPTY_COLOR);;
  when (game_active s)
    (if current_player s =? 1 then LEDManager.set_key 0 INDICATOR_P1
     else LEDManager.set_key 2 INDICATOR_P2).

Definition _start_new_game (s : State) : M State :=
  let s :=
    {| base := base s; board := replicate 9 0; current_player := 1;
       game_active := true; games_played := games_played s + 1;
       p1_wins := p1_wins s; p2_wins := p2_wins s; draws := draws s |} in
  _render_board s;;
  ret s.

Definition start (s : State) : M State :=
  s <- reset s;;
  sleep 0.5%Q;;
  sleep 2.5%Q;;
  let s := set_base (set_flags true (game_over (base s)) (base s)) s in
  _start_new_game s.

(** [for combo in WIN_COMBOS] of [_check_winner]; [None] is Python's None *)
Fixpoint check_combos (combos : list (nat * nat * nat)) (s : State)
    : M (option Z) :=
  match combos with
  | [] => ret None
  | (a, b, c) :: r =>
      va <- cell s a;;
      if negb (va =? 0) then
        vb <- cell s b;;
        if va =? vb then
          vc <- cell s c;;
          if vb =? vc then ret (Some va)
          else check_combos r s
        else check_combos r s
      else check_combos r s
  end.

Definition _check_winner (s : State) : M (option Z) :=
  check_combos WIN_COMBOS s.

(** [for combo in WIN_COMBOS] of [_get_winning_combo]; [[]] when none *)
Fixpoint winning_combo_in (combos : list (nat * nat * nat)) (winner : Z)
    (s : State) : M (list nat) :=
  match combos with
  | [] => ret []
  | (a, b, c) :: r =>
      va <- cell s a;;
      if va =? winner then
        vb <- cell s b;;
        if vb =? winner then
          vc <- cell s c;;
          if vc =? winner then ret [a; b; c]
          else winning_combo_in r winner s
        else winning_combo_in r winner s
      else winning_combo_in r winner s
  end.

Definition _get_winning_combo (winner : Z) (s : State) : M (list nat) :=
  winning_combo_in WIN_COMBOS winner s.

Definition _handle_win (winner : Z) (s : State) : M State :=
  let s := set_game_active false s in
  s <- (if winner =? 1 then
          SoundManager.play_correct;;
          ret {| base := base s; board := board s;
                 current_player := current_player s;
                 game_active := game_active s;
                 games_played := games_played s;
                 p1_wins := p1_wins s + 1; p2_wins := p2_wins s;
                 draws := draws s |}
        else
          SoundManager.play_correct;;
          ret {| base := base s; board := board s;
                 current_player := current_player s;
                 game_active := game_active s;
                 games_played := games_played s;
                 p1_wins := p1_wins s; p2_wins := p2_wins s + 1;
                 draws := draws s |});;
  combo <- _get_winning_combo winner s;;
  repeat_m 3
    (for_each combo (λ idx,
       match GRID_KEYS !! idx with
       | Some key => LEDManager.set_key key WIN_COLOR
       | None => raise IndexError
       end);;
     sleep 0.3%Q;;
     _render_board s;;
     sleep 0.2%Q);;
  sleep 0.5%Q;;
  ret s.

Definition _handle_draw (s : State) : M State :=
  let s :=
    {| base := base s; board := board s; current_player := current_player s;
       game_active := false; games_played := games_played s;
       p1_wins := p1_wins s; p2_wins := p2_wins s; draws := draws s + 1 |} in
  LEDManager.flash_all LEDManager.yellow 2 0.2%Q 0.2%Q;;
  ret s.

(** [GRID_KEYS.index(key_index)], [None] when [key_index not in GRID_KEYS] *)
Fixpoint index_of (key_index : nat) (l : list nat) : option nat :=
  match l with
  | [] => None
  | k :: r => if (k =? key_index)%nat then Some O
              else S <$> index_of key_index r
  end.

(** [if winner:] holds of an integer other than 0, not of [None] *)
Definition truthy (winner : option Z) : option Z :=
  match winner with
  | Some p => if p =? 0 then None else Some p
  | None => None
  end.

(** [0 not in self.board] *)
Definition board_full (b : list Z) : bool := forallb (λ v, negb (v =? 0)) b.

Definition handle_key_press (key_index : nat) (s : State) : M State :=
  if negb (game_active s) then _start_new_game s
  else
    match index_of key_index GRID_KEYS with
    | None =>
        LEDManager.flash_key key_index LEDManager.white 1 0.1%Q 0%Q;;
        ret s
    | Some grid_idx =>
        v <- cell s grid_idx;;
        if negb (v =? 0) then
          SoundManager.play_tone 200%Q 0.1%Q;;
          ret s
        else
          let s := set_board (<[grid_idx := current_player s]> (board s)) s in
          (if current_player s =? 1 then SoundManager.play_tone 440%Q 0.1%Q
           else SoundManager.play_tone 330%Q 0.1%Q);;
          winner <- _check_winner s;;
          match truthy winner with
          | Some p => _handle_win p s
          | None =>
              if board_full (board s) then _handle_draw s
              else
                let s := set_current_player
                           (if current_player s =? 1 then 2 else 1) s in
                _render_board s;;
                ret s
          end
    end.

Definition update (s : State) : M (bool * State) :=
  if negb (is_running (base s)) then ret (false, s)
  else
    s <- (if game_active s then
            e <- events_get;;
            match pressed_key e with
            | Some k => handle_key_press k s
            | None => ret s
            end
          else ret s);;
    switch_update;;
    p <- switch_is_pressed;;
    if p then
      ret (false, set_base (set_flags false (game_over (base s)) (base s)) s)
    else ret (is_running (base s), s).

(** The states a session goes through: [start()] on a fresh object, then
    whatever the host loop's calls of [update()] make of it. *)
Inductive reachable : State → Prop :=
| reach_start w s w' :
    start init w = Done s w' → reachable s
| reach_update s w r s' w' :
    reachable s → update s w = Done (r, s') w' → reachable s'.

(** [m] stands three times along the combination [combo] of [b]. *)
Definition line (b : list Z) (combo : nat * nat * nat) (m : Z) : Prop :=
  b !! combo.1.1 = Some m ∧ b !! combo.1.2 = Some m ∧ b !! combo.2 = Some m.

(** The board holds three equal non-empty marks [m] along some row, column or
    diagonal. *)
Definition has_line (b : list Z) (m : Z) : Prop :=
  m ≠ 0 ∧ ∃ combo, combo ∈ WIN_COMBOS ∧ line b combo m.

(** The object after the ticks in which the keys [keys] are pressed, one a
    tick. *)
Fixpoint play (keys : list nat) (s : State) : option State :=
  match keys with
  | [] => Some s
  | k :: r =>
      match update s (key_world k) with
      | Done (_, s') _ => play r s'
      | _ => None
      end
  end.

(** Eight moves into a game: player 1 is to move and only the last cell is
    free.
<<
      X O X
      O X O
      O X .
>> *)
Definition last_move : State :=
  {| base := {| score := 0; high_score := 0; is_running := true;
                game_over := false |};
     board := [1; 2; 1; 2; 1; 2; 2; 1; 0]; current_player := 1;
     game_active := true; games_played := 1; p1_wins := 0; p2_wins := 0;
     draws := 0 |}.

(** What holds of the object between two calls of the host. *)
Definition well_formed (s : State) : Prop :=
  length (board s) = 9%nat ∧
  (current_player s = 1 ∨ current_player s = 2) ∧
  (game_active s = true → ∀ m, ¬ has_line (board s) m).

(** The object once [_handle_win(m)] has run on [s]. *)
Definition won (m : Z) (s : State) : State :=
  {| base := base s; board := board s; current_player := current_player s;
     game_active := false; games_played := games_played s;
     p1_wins := if m =? 1 then p1_wins s + 1 else p1_wins s;
     p2_wins := if m =? 1 then p2_wins s else p2_wins s + 1;
     draws := draws s |}.

End TicTacToe.

(** ** games/simon_says.py *)

Module SimonSays.

Definition SEQUENCE_DISPLAY_TIME : Q := 0.5.
Definition SEQUENCE_GAP_TIME : Q := 0.2.
Definition INPUT_TIMEOUT : Q := 5.0.
Definition SPEED_INCREASE_INTERVAL : Z := 5.
Definition MIN_DISPLAY_TIME : Q := 0.2.

(** The four Simon keys, the top-left 2x2 block *)
Definition SIMON_KEYS : list nat := [0; 1; 3; 4]%nat.

(** [SIMON_COLORS[key]]: a dict with the keys 0, 1, 3 and 4 *)
Definition SIMON_COLORS (key : nat) : option Color :=
  match key with
  | 0%nat => Some (255, 0, 0)
  | 1%nat => Some (0, 0, 255)
  | 3%nat => Some (0, 255, 0)
  | 4%nat => Some (255, 255, 0)
  | _ => None
  end.

Definition dim (c : Color) : Color :=
  (c.1.1 `div` 4, c.1.2 `div` 4, c.2 `div` 4).

Record State := {
  base : Base;
  sequence : list nat;
  player_position : nat;
  current_display_time : Q;
  waiting_for_input : bool;
  input_start_time : option Q
}.

Definition init : State :=
  {| base := BaseGame.init; sequence := []; player_position := 0;
     current_display_time := SEQUENCE_DISPLAY_TIME;
     waiting_for_input := false; input_start_time := None |}.

Definition set_base (b : Base) (s : State) : State :=
  {| base := b; sequence := sequence s;
     player_position := player_position s;
     current_display_time := current_display_time s;
     waiting_for_input := waiting_for_input s;
     input_start_time := input_start_time s |}.

Definition reset (s : State) : M State :=
  LEDManager.clear_all;;
  ret {| base := BaseGame.reset (base s); sequence := [];
         player_position := 0;
         current_display_time := SEQUENCE_DISPLAY_TIME;
         waiting_for_input := false;
         input_start_time := input_start_time s |}.

Definition _add_to_sequence (s : State) : M State :=
  new_key <- choice SIMON_KEYS;;
  ret {| base := base s; sequence := sequence s ++ [new_key];
         player_position := player_position s;
         current_display_time := current_display_time s;
         waiting_for_input := waiting_for_input s;
         input_start_time := input_start_time s |}.

(** [color_name, color_rgb = self.SIMON_COLORS[key]] *)
Definition color_of (key : nat) : M Color :=
  match SIMON_COLORS key with
  | Some c => ret c
  | None => raise KeyError
  end.

Definition _play_sequence (s : State) : M State :=
  sleep 0.5%Q;;
  for_each (sequence s) (λ key,
    color_rgb <- color_of key;;
    LEDManager.set_key key color_rgb;;
    SoundManager.play_key_tone key;;
    sleep (current_display_time s);;
    LEDManager.set_key key LEDManager.off;;
    sleep SEQUENCE_GAP_TIME);;
  now <- monotonic;;
  for_each SIMON_KEYS (λ key,
    color_rgb <- color_of key;;
    LEDManager.set_key key (dim color_rgb));;
  ret {| base := base s; sequence := sequence s; player_position := 0;
         current_display_time := current_display_time s;
         waiting_for_input := true; input_start_time := Some now |}.

Definition start (s : State) : M State :=
  s <- reset s;;
  sleep 1.0%Q;;
  for_each SIMON_KEYS (λ key,
    color_rgb <- color_of key;;
    LEDManager.set_key key color_rgb);;
  sleep 1.5%Q;;
  LEDManager.clear_all;;
  let s := set_base (set_flags true (game_over (base s)) (base s)) s in
  s <- _add_to_sequence s;;
  _play_sequence s.

Definition _handle_game_over (s : State) : M State :=
  let s := set_base (set_flags false true (base s)) s in
  let s := set_base (update_high_score (base s)) s in
  LEDManager.flash_all LEDManager.red 3 0.2%Q 0.2%Q;;
  wait_for_continue;;
  ret s.

Definition _handle_level_complete (s : State) : M State :=
  let s := set_base (set_score (Z.of_nat (length (sequence s))) (base s)) s in
  LEDManager.clear_all;;
  SoundManager.play_level_up;;
  LEDManager.flash_all LEDManager.green 2 0.1%Q 0.1%Q;;
  let s :=
    if score (base s) `mod` SPEED_INCREASE_INTERVAL =? 0 then
      {| base := base s; sequence := sequence s;
         player_position := player_position s;
         current_display_time :=
           pymax MIN_DISPLAY_TIME (current_display_time s * 0.85)%Q;
         waiting_for_input := waiting_for_input s;
         input_start_time := input_start_time s |}
    else s in
  sleep 0.5%Q;;
  s <- _add_to_sequence s;;
  _play_sequence s.

Definition _handle_correct_input (key_index : nat) (s : State) : M State :=
  color_rgb <- color_of key_index;;
  LEDManager.set_key key_index color_rgb;;
  SoundManager.play_key_tone key_index;;
  sleep 0.2%Q;;
  LEDManager.set_key key_index (dim color_rgb);;
  now <- monotonic;;
  let s :=
    {| base := base s; sequence := sequence s;
       player_position := player_position s + 1;
       current_display_time := current_display_time s;
       waiting_for_input := waiting_for_input s;
       input_start_time := Some now |} in
  if (length (sequence s) <=? player_position s)%nat
  then _handle_level_complete s
  else ret s.

Definition _handle_wrong_input (pressed_key expected_key : nat) (s : State)
    : M State :=
  LEDManager.clear_all;;
  LEDManager.set_key pressed_key LEDManager.red;;
  LEDManager.set_key expected_key LEDManager.green;;
  SoundManager.play_wrong;;
  sleep 1.5%Q;;
  _handle_game_over s.

Definition is_simon_key (key_index : nat) : bool :=
  bool_decide (key_index ∈ SIMON_KEYS).

Definition handle_key_press (key_index : nat) (s : State) : M State :=
  if negb (waiting_for_input s) then ret s
  else if negb (is_simon_key key_index) then
    LEDManager.flash_key key_index LEDManager.white 1 0.1%Q 0%Q;;
    ret s
  else
    match sequence s !! player_position s with
    | None => raise IndexError
    | Some expected_key =>
        if (key_index =? expected_key)%nat
        then _handle_correct_input key_index s
        else _handle_wrong_input key_index expected_key s
    end.

Definition update (s : State) : M (bool * State) :=
  if negb (is_running (base s)) then ret (false, s)
  else
    r <- (if waiting_for_input s then
            now <- monotonic;;
            match input_start_time s with
            | None => raise TypeError
            | Some t0 =>
                if Qltb INPUT_TIMEOUT (now - t0) then
                  s <- _handle_game_over s;;
                  ret (Some false, s)
                else
                  e <- events_get;;
                  match pressed_key e with
                  | Some k => s <- handle_key_press k s;; ret (None, s)
                  | None => ret (None, s)
                  end
            end
          else ret (None, s));;
    match r with
    | (Some b, s) => ret (b, s)
    | (None, s) =>
        switch_update;;
        p <- switch_is_pressed;;
        if p then
          resume <- handle_pause;;
          if negb resume then ret (false, s)
          else
            s <- _play_sequence s;;
            ret (is_running (base s), s)
        else ret (is_running (base s), s)
    end.

(** [for key in keys: handle_key_press(key)] *)
Fixpoint press_keys (keys : list nat) (s : State) : M State :=
  match keys with
  | [] => ret s
  | k :: r => s <- handle_key_press k s;; press_keys r s
  end.

(** A level is being repeated: the game waits for input number
    [player_position] of a sequence of Simon keys. *)
Definition awaiting (s : State) : Prop :=
  waiting_for_input s = true ∧
  (player_position s < length (sequence s))%nat ∧
  Forall (λ k, k ∈ SIMON_KEYS) (sequence s).

(** Level 2 at its first input: red (key 0) then green (key 3) has been
    shown. *)
Definition level_two : State :=
  {| base := {| score := 1; high_score := 1; is_running := true;
                game_over := false |};
     sequence := [0; 3]%nat; player_position := 0;
     current_display_time := SEQUENCE_DISPLAY_TIME;
     waiting_for_input := true; input_start_time := Some 0%Q |}.

End SimonSays.

(** ** games/reaction_timer.py *)

Module ReactionTimer.

Definition MIN_WAIT_TIME : Q := 1.5.
Definition MAX_WAIT_TIME : Q := 5.0.
Definition DISPLAY_TIME : Q := 2.0.
Definition NUM_ROUNDS : Z := 5.

Definition READY_COLOR : Color := (255, 255, 0).
Definition GO_COLOR : Color := (0, 255, 0).
Definition FALSE_START_COLOR : Color := (255, 0, 0).

(** [reaction_times] are milliseconds; [green_time] and [wait_until] are
    [None] until a round sets them. *)
Record State := {
  base : Base;
  round : Z;
  reaction_times : list Q;
  waiting_for_green : bool;
  waiting_for_press : bool;
  green_time : option Q;
  wait_until : option Q;
  false_start : bool
}.

Definition init : State :=
  {| base := BaseGame.init; round := 0; reaction_times := [];
     waiting_for_green := false; waiting_for_press := false;
     green_time := None; wait_until := None; false_start := false |}.

Definition set_base (b : Base) (s : State) : State :=
  {| base := b; round := round s; reaction_times := reaction_times s;
     waiting_for_green := waiting_for_green s;
     waiting_for_press := waiting_for_press s;
     green_time := green_time s; wait_until := wait_until s;
     false_start := false_start s |}.

Definition reset (s : State) : M State :=
  let s :=
    {| base := BaseGame.reset (base s); round := 0; reaction_times := [];
       waiting_for_green := false; waiting_for_press := false;
       green_time := None; wait_until := None; false_start := false |} in
  LEDManager.clear_all;;
  ret s.

(** What [while self.macropad.keys.events.get(): pass] leaves of the queue:
    the events up to the first poll that answers "nothing" are thrown
    away, with that poll. *)
Fixpoint drain (q : list (option KeyEvent)) : list (option KeyEvent) :=
  match q with
  | Some _ :: r => drain r
  | None :: r => r
  | [] => []
  end.

Definition drain_events : M unit := λ w,
  Done tt (set_key_events (drain (key_events w)) w).

Definition _start_round (s : State) : M State :=
  LEDManager.set_all READY_COLOR;;
  wait_time <- uniform MIN_WAIT_TIME MAX_WAIT_TIME;;
  now <- monotonic;;
  drain_events;;
  ret {| base := base s; round := round s + 1;
         reaction_times := reaction_times s;
         waiting_for_green := true; waiting_for_press := false;
         green_time := green_time s;
         wait_until := Some (now + wait_time)%Q;
         false_start := false |}.

Definition start (s : State) : M State :=
  s <- reset s;;
  sleep 0.5%Q;;
  sleep 2.5%Q;;
  let s := set_base (set_flags true (game_over (base s)) (base s)) s in
  _start_round s.

Definition _go_green (s : State) : M State :=
  now <- monotonic;;
  LEDManager.set_all GO_COLOR;;
  SoundManager.play_tone 880%Q 0.1%Q;;
  ret {| base := base s; round := round s;
         reaction_times := reaction_times s;
         waiting_for_green := false; waiting_for_press := true;
         green_time := Some now; wait_until := wait_until s;
         false_start := false_start s |}.

(** [sum(valid_times)] *)
Definition sum_times (l : list Q) : Q := foldr Qplus 0%Q l.

(** [[t for t in self.reaction_times if t < 999]] *)
Definition valid_times (l : list Q) : list Q :=
  filter (λ t, Qltb t 999 = true) l.

Definition avg_time (l : list Q) : Q :=
  match valid_times l with
  | [] => 999%Q
  | v => (sum_times v / inject_Z (Z.of_nat (length v)))%Q
  end.

(** [max(0, int(500 - avg_time))] *)
Definition final_score (l : list Q) : Z := Z.max 0 (pyint (500 - avg_time l)).

Definition _handle_game_over (s : State) : M State :=
  let s := set_base (set_flags false true (base s)) s in
  let s := set_base (set_score (final_score (reaction_times s)) (base s)) s in
  let s := set_base (update_high_score (base s)) s in
  LEDManager.clear_all;;
  wait_for_continue;;
  ret s.

Definition _handle_false_start (s : State) : M State :=
  LEDManager.set_all FALSE_START_COLOR;;
  SoundManager.play_wrong;;
  sleep 2.0%Q;;
  let s :=
    {| base := base s; round := round s;
       reaction_times := reaction_times s ++ [1000%Q];
       waiting_for_green := false;
       waiting_for_press := waiting_for_press s;
       green_time := green_time s; wait_until := wait_until s;
       false_start := true |} in
  if NUM_ROUNDS <=? round s then _handle_game_over s else _start_round s.

Definition _handle_reaction (reaction_time : Q) (s : State) : M State :=
  let s :=
    {| base := base s; round := round s;
       reaction_times := reaction_times s ++ [reaction_time];
       waiting_for_green := waiting_for_green s;
       waiting_for_press := false;
       green_time := green_time s; wait_until := wait_until s;
       false_start := false_start s |} in
  (if Qltb reaction_time 200 then
     LEDManager.flash_all LEDManager.cyan 3 0.1%Q 0.1%Q
   else if Qltb reaction_time 300 then
     LEDManager.flash_all LEDManager.green 2 0.1%Q 0.1%Q
   else if Qltb reaction_time 400 then
     LEDManager.set_all LEDManager.yellow
   else LEDManager.set_all LEDManager.orange);;
  SoundManager.play_correct;;
  sleep DISPLAY_TIME;;
  if NUM_ROUNDS <=? round s then _handle_game_over s else _start_round s.

Definition handle_key_press (key_index : nat) (s : State) : M State := ret s.

(** The first part of [update()]: [Some b] when the tick returns [b] from
    there, [None] when it goes on to the pause check. *)
Definition round_tick (current_time : Q) (key_event : option KeyEvent)
    (s : State) : M (option bool * State) :=
  if waiting_for_green s then
    match pressed_key key_event with
    | Some _ => s <- _handle_false_start s;; ret (Some true, s)
    | None =>
        match wait_until s with
        | None => raise TypeError
        | Some t =>
            if Qleb t current_time then s <- _go_green s;; ret (None, s)
            else ret (None, s)
        end
    end
  else if waiting_for_press s then
    match pressed_key key_event with
    | Some _ =>
        match green_time s with
        | None => raise TypeError
        | Some g =>
            s <- _handle_reaction ((current_time - g) * 1000)%Q s;;
            ret (None, s)
        end
    | None => ret (None, s)
    end
  else ret (None, s).

Definition update (s : State) : M (bool * State) :=
  if negb (is_running (base s)) then ret (false, s)
  else
    current_time <- monotonic;;
    key_event <- events_get;;
    r <- round_tick current_time key_event s;;
    match r with
    | (Some b, s) => ret (b, s)
    | (None, s) =>
        switch_update;;
        p <- switch_is_pressed;;
        if p then
          resume <- handle_pause;;
          if negb resume then ret (false, s)
          else
            s <- _start_round s;;
            ret (is_running (base s), s)
        else ret (is_running (base s), s)
    end.

(** Round 1 under way: the lights are yellow and will turn green at 3 s. *)
Definition first_round : State :=
  {| base := {| score := 0; high_score := 0; is_running := true;
                game_over := false |};
     round := 1; reaction_times := []; waiting_for_green := true;
     waiting_for_press := false; green_time := None;
     wait_until := Some 3%Q; false_start := false |}.

End ReactionTimer.

(** ** games/color_match.py *)

Module ColorMatch.

Definition GAME_DURATION : Q := 30.0.
Definition INITIAL_ROUND_TIME : Q := 5.0.
Definition MIN_ROUND_TIME : Q := 1.5.
Definition ROUND_TIME_DECREASE : Q := 0.3.
Definition COUNTDOWN_TIME : nat := 3.

Definition POINTS_PER_CORRECT : Z := 10.
Definition POINTS_PER_WRONG : Z := -5.

(** The colours of the game; the names only go to the display. *)
Definition COLORS : list Color :=
  [ (255, 0, 0); (0, 255, 0); (0, 0, 255);
    (255, 255, 0); (0, 255, 255); (128, 0, 255) ].

Definition FOUND_COLOR : Color := (30, 30, 30).

Record State := {
  base : Base;
  target_color_index : nat;
  key_colors : list nat;
  matching_keys : gset nat;
  found_keys : gset nat;
  round_time : Q;
  round_start_time : option Q;
  game_start_time : option Q;
  level : Z;
  in_round : bool;
  correct_hits : Z;
  wrong_hits : Z
}.

Definition init : State :=
  {| base := BaseGame.init; target_color_index := 0; key_colors := [];
     matching_keys := ∅; found_keys := ∅;
     round_time := INITIAL_ROUND_TIME; round_start_time := None;
     game_start_time := None; level := 0; in_round := false;
     correct_hits := 0; wrong_hits := 0 |}.

Definition set_base (b : Base) (s : State) : State :=
  {| base := b; target_color_index := target_color_index s;
     key_colors := key_colors s; matching_keys := matching_keys s;
     found_keys := found_keys s; round_time := round_time s;
     round_start_time := round_start_time s;
     game_start_time := game_start_time s; level := level s;
     in_round := in_round s; correct_hits := correct_hits s;
     wrong_hits := wrong_hits s |}.

Definition set_keys (colors : list nat) (matching : gset nat) (s : State)
    : State :=
  {| base := base s; target_color_index := target_color_index s;
     key_colors := colors; matching_keys := matching;
     found_keys := found_keys s; round_time := round_time s;
     round_start_time := round_start_time s;
     game_start_time := game_start_time s; level := level s;
     in_round := in_round s; correct_hits := correct_hits s;
     wrong_hits := wrong_hits s |}.

Definition reset (s : State) : M State :=
  let s :=
    {| base := BaseGame.reset (base s); target_color_index := 0;
       key_colors := []; matching_keys := ∅; found_keys := ∅;
       round_time := INITIAL_ROUND_TIME; round_start_time := None;
       game_start_time := None; level := 0; in_round := false;
       correct_hits := 0; wrong_hits := 0 |} in
  LEDManager.clear_all;;
  ret s.

(** [while len(match_positions) < num_matches:
       match_positions.add(random.randint(0, 11))].
    The loop ends once the random source has named [num_matches] different
    keys; it goes on for ever when the source never does. *)
Fixpoint pick_positions (fuel : nat) (num_matches : nat)
    (match_positions : gset nat) : M (gset nat) :=
  if (size match_positions <? num_matches)%nat then
    match fuel with
    | O => hang
    | S k =>
        p <- randint 0 11;;
        pick_positions k num_matches ({[p]} ∪ match_positions)
    end
  else ret match_positions.

(** [[c for c in range(len(self.COLORS)) if c != self.target_color_index]] *)
Definition other_colors (target : nat) : list nat :=
  filter (λ c, c ≠ target) (seq 0 (length COLORS)).

(** [for i in range(12)] of [_generate_key_colors], from [i] on *)
Fixpoint fill_keys (keys : list nat) (target : nat)
    (match_positions : gset nat) (key_colors : list nat)
    (matching_keys : gset nat) : M (list nat * gset nat) :=
  match keys with
  | [] => ret (key_colors, matching_keys)
  | i :: r =>
      if bool_decide (i ∈ match_positions) then
        fill_keys r target match_positions (key_colors ++ [target])
          ({[i]} ∪ matching_keys)
      else
        c <- choice (other_colors target);;
        fill_keys r target match_positions (key_colors ++ [c]) matching_keys
  end.

Definition _generate_key_colors (s : State) : M State :=
  num_matches <- randint 2 4;;
  match_positions <- (λ w, pick_positions (length (rng w) + 2) num_matches ∅ w);;
  r <- fill_keys (seq 0 12) (target_color_index s) match_positions [] ∅;;
  ret (set_keys r.1 r.2 s).

Definition _render_keys (s : State) : M unit :=
  for_each (seq 0 12) (λ i,
    if bool_decide (i ∈ found_keys s) then LEDManager.set_key i FOUND_COLOR
    else
      match key_colors s !! i with
      | None => raise IndexError
      | Some color_idx =>
          match COLORS !! color_idx with
          | None => raise IndexError
          | Some rgb => LEDManager.set_key i rgb
          end
      end).

(** [x if self.round_start_time else 0]: [None] and [0.0] are false *)
Definition truthy_time (t : option Q) : bool :=
  match t with
  | Some t => negb (Qeq_bool t 0)
  | None => false
  end.

(** Only the clock readings of [_update_display] are kept. *)
Definition _update_display (s : State) : M unit :=
  match COLORS !! target_color_index s with
  | None => raise IndexError
  | Some _ =>
      _ <- monotonic;;
      match game_start_time s with
      | None => raise TypeError
      | Some _ =>
          if truthy_time (round_start_time s) then _ <- monotonic;; ret tt
          else ret tt
      end
  end.

Definition _start_new_round (s : State) : M State :=
  LEDManager.clear_all;;
  target <- randint 0 (length COLORS - 1);;
  match COLORS !! target with
  | None => raise IndexError
  | Some _ =>
      let s :=
        {| base := base s; target_color_index := target;
           key_colors := key_colors s; matching_keys := matching_keys s;
           found_keys := ∅; round_time := round_time s;
           round_start_time := round_start_time s;
           game_start_time := game_start_time s; level := level s + 1;
           in_round := false; correct_hits := correct_hits s;
           wrong_hits := wrong_hits s |} in
      sleep 1.5%Q;;
      repeat_m COUNTDOWN_TIME (SoundManager.play_countdown;; sleep 1.0%Q);;
      s <- _generate_key_colors s;;
      _render_keys s;;
      _update_display s;;
      now <- monotonic;;
      ret {| base := base s; target_color_index := target_color_index s;
             key_colors := key_colors s; matching_keys := matching_keys s;
             found_keys := found_keys s; round_time := round_time s;
             round_start_time := Some now;
             game_start_time := game_start_time s; level := level s;
             in_round := true; correct_hits := correct_hits s;
             wrong_hits := wrong_hits s |}
  end.

Definition start (s : State) : M State :=
  s <- reset s;;
  sleep 0.5%Q;;
  sleep 2.0%Q;;
  now <- monotonic;;
  let s :=
    {| base := set_flags true (game_over (base s)) (base s);
       target_color_index := target_color_index s;
       key_colors := key_colors s; matching_keys := matching_keys s;
       found_keys := found_keys s; round_time := round_time s;
       round_start_time := round_start_time s;
       game_start_time := Some now; level := level s;
       in_round := in_round s; correct_hits := correct_hits s;
       wrong_hits := wrong_hits s |} in
  _start_new_round s.

Definition _handle_round_complete (s : State) : M State :=
  let s := set_base (set_score (score (base s) + 20) (base s)) s in
  SoundManager.play_correct;;
  LEDManager.flash_all LEDManager.green 2 0.1%Q 0.1%Q;;
  let s :=
    {| base := base s; target_color_index := target_color_index s;
       key_colors := key_colors s; matching_keys := matching_keys s;
       found_keys := found_keys s;
       round_time := pymax MIN_ROUND_TIME (round_time s - ROUND_TIME_DECREASE)%Q;
       round_start_time := round_start_time s;
       game_start_time := game_start_time s; level := level s;
       in_round := in_round s; correct_hits := correct_hits s;
       wrong_hits := wrong_hits s |} in
  sleep 0.3%Q;;
  _start_new_round s.

Definition _handle_correct (key_index : nat) (s : State) : M State :=
  let s :=
    {| base := set_score (score (base s) + POINTS_PER_CORRECT) (base s);
       target_color_index := target_color_index s;
       key_colors := key_colors s; matching_keys := matching_keys s;
       found_keys := {[key_index]} ∪ found_keys s;
       round_time := round_time s;
       round_start_time := round_start_time s;
       game_start_time := game_start_time s; level := level s;
       in_round := in_round s; correct_hits := correct_hits s + 1;
       wrong_hits := wrong_hits s |} in
  LEDManager.set_key key_index FOUND_COLOR;;
  SoundManager.play_tone 660%Q 0.05%Q;;
  if bool_decide (found_keys s = matching_keys s)
  then _handle_round_complete s
  else ret s.

Definition _handle_wrong (key_index : nat) (s : State) : M State :=
  let s :=
    {| base := set_score (Z.max 0 (score (base s) + POINTS_PER_WRONG)) (base s);
       target_color_index := target_color_index s;
       key_colors := key_colors s; matching_keys := matching_keys s;
       found_keys := found_keys s; round_time := round_time s;
       round_start_time := round_start_time s;
       game_start_time := game_start_time s; level := level s;
       in_round := in_round s; correct_hits := correct_hits s;
       wrong_hits := wrong_hits s + 1 |} in
  LEDManager.flash_key key_index LEDManager.red 1 0.1%Q 0%Q;;
  SoundManager.play_tone 220%Q 0.1%Q;;
  _render_keys s;;
  ret s.

Definition handle_key_press (key_index : nat) (s : State) : M State :=
  if bool_decide (key_index ∈ found_keys s) then ret s
  else if bool_decide (key_index ∈ matching_keys s)
  then _handle_correct key_index s
  else _handle_wrong key_index s.

Definition _handle_game_over (s : State) : M State :=
  let s := set_base (set_flags false true (base s)) s in
  let s := set_base (update_high_score (base s)) s in
  LEDManager.clear_all;;
  SoundManager.play_level_up;;
  LEDManager.sweep_animation LEDManager.green;;
  wait_for_continue;;
  ret s.

(** The round-time check of [update()]: [Some b] when the tick returns [b]
    from there, [None] when it goes on to the keys. *)
Definition round_check (current_time : Q) (s : State)
    : M (option bool * State) :=
  if in_round s then
    match round_start_time s with
    | None => raise TypeError
    | Some t0 =>
        if Qleb (round_time s) (current_time - t0) then
          SoundManager.play_wrong;;
          LEDManager.flash_all LEDManager.red 2 0.1%Q 0.1%Q;;
          sleep 0.5%Q;;
          s <- _start_new_round s;;
          ret (Some true, s)
        else
          _update_display s;;
          ret (None, s)
    end
  else ret (None, s).

Definition update (s : State) : M (bool * State) :=
  if negb (is_running (base s)) then ret (false, s)
  else
    current_time <- monotonic;;
    match game_start_time s with
    | None => raise TypeError
    | Some g =>
        if Qleb GAME_DURATION (current_time - g) then
          s <- _handle_game_over s;;
          ret (false, s)
        else
          r <- round_check current_time s;;
          match r with
          | (Some b, s) => ret (b, s)
          | (None, s) =>
              key_event <- events_get;;
              s <- match pressed_key key_event with
                   | Some k => if in_round s then handle_key_press k s
                               else ret s
                   | None => ret s
                   end;;
              switch_update;;
              p <- switch_is_pressed;;
              if p then
                resume <- handle_pause;;
                if negb resume then ret (false, s)
                else
                  s <- _start_new_round s;;
                  ret (is_running (base s), s)
              else ret (is_running (base s), s)
          end
    end.

(** Round 2 under way since 10 s into the game: red is the target, shown
    by keys 0 and 3. *)
Definition second_round : State :=
  {| base := {| score := 30; high_score := 0; is_running := true;
                game_over := false |};
     target_color_index := 0;
     key_colors := [0; 1; 2; 0; 4; 5; 1; 2; 3; 4; 5; 1]%nat;
     matching_keys := {[0%nat; 3%nat]}; found_keys := ∅;
     round_time := 4.7; round_start_time := Some 10%Q;
     game_start_time := Some 0%Q; level := 2; in_round := true;
     correct_hits := 2; wrong_hits := 0 |}.

End ColorMatch.

(** ** games/speed_chase.py *)

Module SpeedChase.

Definition INITIAL_TIME_LIMIT : Q := 2.0.
Definition MINIMUM_TIME_LIMIT : Q := 0.3.
Definition TIME_DECREASE_FACTOR : Q := 0.92.
Definition FEEDBACK_DURATION : Q := 0.15.

Definition BASE_POINTS : Z := 10.
Definition SPEED_BONUS_MULTIPLIER : Z := 2.

Record State := {
  base : Base;
  current_target : option nat;
  target_color : option Color;
  time_limit : Q;
  target_start_time : option Q;
  round_number : Z
}.

Definition init : State :=
  {| base := BaseGame.init; current_target := None; target_color := None;
     time_limit := INITIAL_TIME_LIMIT; target_start_time := None;
     round_number := 0 |}.

Definition set_base (b : Base) (s : State) : State :=
  {| base := b; current_target := current_target s;
     target_color := target_color s; time_limit := time_limit s;
     target_start_time := target_start_time s;
     round_number := round_number s |}.

Definition reset (s : State) : M State :=
  let s :=
    {| base := BaseGame.reset (base s); current_target := None;
       target_color := None; time_limit := INITIAL_TIME_LIMIT;
       target_start_time := None; round_number := 0 |} in
  LEDManager.clear_all;;
  ret s.

(** [[k for k in range(12) if k != self.current_target]] *)
Definition available_keys (current_target : option nat) : list nat :=
  filter (λ k, Some k ≠ current_target) (seq 0 12).

(** [self.leds.set_key(self.current_target, color)]: indexing the pixels
    with [None] is a TypeError *)
Definition set_target_key (target : option nat) (color : Color) : M unit :=
  match target with
  | Some k => LEDManager.set_key k color
  | None => raise TypeError
  end.

(** [self.leds.flash_key(self.current_target, color, times, on, off)] *)
Definition flash_target_key (target : option nat) (color : Color)
    (times : nat) (on_time off_time : Q) : M unit :=
  repeat_m times
    (set_target_key target color;; sleep on_time;;
     set_target_key target LEDManager.off;; sleep off_time).

Definition _show_next_target (s : State) : M State :=
  target <- choice (available_keys (current_target s));;
  color <- LEDManager.get_random_color;;
  LEDManager.clear_all;;
  LEDManager.set_key target color;;
  now <- monotonic;;
  ret {| base := base s; current_target := Some target;
         target_color := Some color; time_limit := time_limit s;
         target_start_time := Some now;
         round_number := round_number s + 1 |}.

Definition start (s : State) : M State :=
  s <- reset s;;
  sleep 0.5%Q;;
  do_countdown 3;;
  let s := set_base (set_flags true (game_over (base s)) (base s)) s in
  _show_next_target s.

(** [time.monotonic() - self.target_start_time] *)
Definition elapsed_since_target (s : State) : M Q :=
  now <- monotonic;;
  match target_start_time s with
  | Some t0 => ret (now - t0)%Q
  | None => raise TypeError
  end.

(** [int((1 - elapsed / self.time_limit) * self.BASE_POINTS
          * self.SPEED_BONUS_MULTIPLIER)] *)
Definition time_bonus (elapsed limit : Q) : Z :=
  pyint ((1 - elapsed / limit) * inject_Z BASE_POINTS
         * inject_Z SPEED_BONUS_MULTIPLIER)%Q.

(** [max(self.MINIMUM_TIME_LIMIT,
         self.time_limit * self.TIME_DECREASE_FACTOR)] *)
Definition next_time_limit (limit : Q) : Q :=
  pymax MINIMUM_TIME_LIMIT (limit * TIME_DECREASE_FACTOR)%Q.

Definition _handle_correct_press (s : State) : M State :=
  elapsed <- elapsed_since_target s;;
  if Qeq_bool (time_limit s) 0 then raise ZeroDivisionError
  else
    let points := BASE_POINTS + Z.max 0 (time_bonus elapsed (time_limit s)) in
    let s := set_base (set_score (score (base s) + points) (base s)) s in
    SoundManager.play_correct;;
    flash_target_key (current_target s) LEDManager.green 2 0.05%Q 0.05%Q;;
    let s :=
      {| base := base s; current_target := current_target s;
         target_color := target_color s;
         time_limit := next_time_limit (time_limit s);
         target_start_time := target_start_time s;
         round_number := round_number s |} in
    _show_next_target s.

Definition _handle_wrong_press (pressed_key : nat) (s : State) : M State :=
  let s := set_base (set_flags false true (base s)) s in
  LEDManager.clear_all;;
  LEDManager.set_key pressed_key LEDManager.red;;
  set_target_key (current_target s) LEDManager.green;;
  SoundManager.play_wrong;;
  sleep 1.0%Q;;
  LEDManager.flash_all LEDManager.red 3 0.2%Q 0.2%Q;;
  b <- show_game_over_screen (base s);;
  ret (set_base b s).

Definition _handle_timeout (s : State) : M State :=
  let s := set_base (set_flags false true (base s)) s in
  flash_target_key (current_target s) LEDManager.red 5 0.1%Q 0.1%Q;;
  SoundManager.play_wrong;;
  b <- show_game_over_screen (base s);;
  ret (set_base b s).

Definition handle_key_press (key_index : nat) (s : State) : M State :=
  if bool_decide (Some key_index = current_target s)
  then _handle_correct_press s
  else _handle_wrong_press key_index s.

Definition update (s : State) : M (bool * State) :=
  if negb (is_running (base s)) then ret (false, s)
  else
    elapsed <- elapsed_since_target s;;
    if Qleb (time_limit s) elapsed then
      s <- _handle_timeout s;;
      ret (false, s)
    else
      key_event <- events_get;;
      s <- match pressed_key key_event with
           | Some k => handle_key_press k s
           | None => ret s
           end;;
      switch_update;;
      p <- switch_is_pressed;;
      if p then
        resume <- handle_pause;;
        if negb resume then ret (false, s)
        else
          s <- _show_next_target s;;
          ret (is_running (base s), s)
      else ret (is_running (base s), s).

(** [n] correct presses in a row *)
Fixpoint correct_presses (n : nat) (s : State) : M State :=
  match n with
  | O => ret s
  | S k => s <- _handle_correct_press s;; correct_presses k s
  end.

(** The time limit after [n] correct presses of a game. *)
Definition limit_after (n : nat) : Q :=
  Nat.iter n next_time_limit INITIAL_TIME_LIMIT.

(** A round under way: a key of the pad is lit and timed. *)
Definition in_round (s : State) : Prop :=
  (∃ k, current_target s = Some k ∧ (k < 12)%nat) ∧
  (∃ t0, target_start_time s = Some t0).

(** The first round of a game: key 7 is lit since time 4. *)
Definition first_round : State :=
  {| base := {| score := 0; high_score := 0; is_running := true;
                game_over := false |};
     current_target := Some 7%nat; target_color := Some LEDManager.blue;
     time_limit := INITIAL_TIME_LIMIT; target_start_time := Some 4%Q;
     round_number := 1 |}.

End SpeedChase.

(** ** games/hot_potato.py *)

Module HotPotato.

(** [ADJACENCY]: a dict with the keys 0..11; entry [k] is row [k] here. *)
Definition ADJACENCY : list (list nat) :=
  [ [1; 3];
    [0; 2; 4];
    [1; 5];
    [0; 4; 6];
    [1; 3; 5; 7];
    [2; 4; 8];
    [3; 7; 9];
    [4; 6; 8; 10];
    [5; 7; 11];
    [6; 10];
    [7; 9; 11];
    [8; 10] ]%nat.

Definition MIN_ROUND_TIME : Q := 2.0.
Definition MAX_ROUND_TIME : Q := 6.0.
Definition INITIAL_MOVE_INTERVAL : Q := 0.8.
Definition MIN_MOVE_INTERVAL : Q := 0.2.
Definition WARNING_TIME : Q := 1.0.
Definition NUM_ROUNDS : Z := 10.

Definition POTATO_COLOR : Color := (255, 100, 0).
Definition WARNING_COLOR : Color := (255, 0, 0).
Definition SAFE_COLOR : Color := (0, 255, 0).
Definition EXPLODE_COLOR : Color := (255, 255, 255).

Record State := {
  base : Base;
  potato_key : nat;
  round : Z;
  round_end_time : Q;
  last_move_time : Q;
  move_interval : Q;
  round_active : bool;
  survived : Z
}.

Definition init : State :=
  {| base := BaseGame.init; potato_key := 0; round := 0;
     round_end_time := 0; last_move_time := 0;
     move_interval := INITIAL_MOVE_INTERVAL; round_active := false;
     survived := 0 |}.

Definition set_base (b : Base) (s : State) : State :=
  {| base := b; potato_key := potato_key s; round := round s;
     round_end_time := round_end_time s;
     last_move_time := last_move_time s;
     move_interval := move_interval s; round_active := round_active s;
     survived := survived s |}.

Definition set_round_active (a : bool) (s : State) : State :=
  {| base := base s; potato_key := potato_key s; round := round s;
     round_end_time := round_end_time s;
     last_move_time := last_move_time s;
     move_interval := move_interval s; round_active := a;
     survived := survived s |}.

Definition reset (s : State) : M State :=
  let s :=
    {| base := BaseGame.reset (base s); potato_key := 0; round := 0;
       round_end_time := round_end_time s;
       last_move_time := last_move_time s;
       move_interval := INITIAL_MOVE_INTERVAL; round_active := false;
       survived := 0 |} in
  LEDManager.clear_all;;
  ret s.

Definition _start_round (s : State) : M State :=
  key <- randint 0 11;;
  round_duration <- uniform MIN_ROUND_TIME MAX_ROUND_TIME;;
  now <- monotonic;;
  moved <- monotonic;;
  let s :=
    {| base := base s; potato_key := key; round := round s + 1;
       round_end_time := (now + round_duration)%Q;
       last_move_time := moved;
       move_interval := move_interval s; round_active := true;
       survived := survived s |} in
  LEDManager.clear_all;;
  LEDManager.set_key (potato_key s) POTATO_COLOR;;
  ret s.

Definition start (s : State) : M State :=
  s <- reset s;;
  sleep 0.5%Q;;
  sleep 2.0%Q;;
  sleep 1.5%Q;;
  let s := set_base (set_flags true (game_over (base s)) (base s)) s in
  _start_round s.

Definition _pass_potato (s : State) : M State :=
  LEDManager.set_key (potato_key s) LEDManager.off;;
  match ADJACENCY !! potato_key s with
  | None => raise KeyError
  | Some neighbors =>
      key <- choice neighbors;;
      LEDManager.set_key key POTATO_COLOR;;
      SoundManager.play_tone 440%Q 0.03%Q;;
      now <- monotonic;;
      ret {| base := base s; potato_key := key; round := round s;
             round_end_time := round_end_time s; last_move_time := now;
             move_interval := move_interval s;
             round_active := round_active s; survived := survived s |}
  end.

Definition _auto_move_potato (s : State) : M State := _pass_potato s.

Definition _handle_game_over (s : State) : M State :=
  let s := set_base (set_flags false true (base s)) s in
  let s := set_base (update_high_score (base s)) s in
  wait_for_continue;;
  ret s.

Definition _handle_victory (s : State) : M State :=
  let s := set_base (set_flags false true (base s)) s in
  let s := set_base (set_score (score (base s) + survived s * 20) (base s)) s in
  let s := set_base (update_high_score (base s)) s in
  SoundManager.play_level_up;;
  LEDManager.rainbow_cycle 2.0%Q;;
  wait_for_continue;;
  ret s.

Definition _handle_safe (s : State) : M State :=
  let s :=
    {| base := set_score (score (base s) + 10) (base s);
       potato_key := potato_key s; round := round s;
       round_end_time := round_end_time s;
       last_move_time := last_move_time s;
       move_interval := move_interval s; round_active := round_active s;
       survived := survived s + 1 |} in
  LEDManager.set_all SAFE_COLOR;;
  SoundManager.play_correct;;
  sleep 1.5%Q;;
  let s :=
    {| base := base s; potato_key := potato_key s; round := round s;
       round_end_time := round_end_time s;
       last_move_time := last_move_time s;
       move_interval := pymax MIN_MOVE_INTERVAL (move_interval s - 0.05)%Q;
       round_active := round_active s; survived := survived s |} in
  if NUM_ROUNDS <=? round s then _handle_victory s else _start_round s.

Definition _handle_caught (s : State) : M State :=
  LEDManager.flash_all LEDManager.red 3 0.2%Q 0.2%Q;;
  SoundManager.play_wrong;;
  sleep 2.0%Q;;
  _handle_game_over s.

Definition _handle_explosion (s : State) : M State :=
  let s := set_round_active false s in
  LEDManager.set_all EXPLODE_COLOR;;
  SoundManager.play_tone 200%Q 0.3%Q;;
  sleep 0.3%Q;;
  LEDManager.set_all WARNING_COLOR;;
  SoundManager.play_tone 150%Q 0.3%Q;;
  sleep 0.3%Q;;
  now <- monotonic;;
  let time_since_pass := (now - last_move_time s)%Q in
  if Qltb time_since_pass 0.3 then _handle_caught s else _handle_safe s.

Definition handle_key_press (key_index : nat) (s : State) : M State :=
  if (key_index =? potato_key s)%nat then _pass_potato s
  else
    LEDManager.flash_key key_index LEDManager.white 1 0.05%Q 0%Q;;
    ret s.

(** The round part of [update()]: [Some b] when the tick returns [b] from
    there, [None] when it goes on to the keys. *)
Definition round_tick (current_time : Q) (s : State)
    : M (option bool * State) :=
  if round_active s then
    let time_remaining := (round_end_time s - current_time)%Q in
    if Qleb time_remaining 0 then
      s <- _handle_explosion s;;
      ret (Some (is_running (base s)), s)
    else if Qltb time_remaining WARNING_TIME then
      (if pyint (current_time / 0.1) `mod` 2 =? 0
       then LEDManager.set_key (potato_key s) WARNING_COLOR
       else LEDManager.set_key (potato_key s) POTATO_COLOR);;
      when (pyint (current_time * 10) `mod` 3 =? 0)
        (SoundManager.play_tone 880%Q 0.02%Q);;
      ret (None, s)
    else if Qleb (move_interval s) (current_time - last_move_time s) then
      s <- _auto_move_potato s;;
      ret (None, s)
    else ret (None, s)
  else ret (None, s).

Definition update (s : State) : M (bool * State) :=
  if negb (is_running (base s)) then ret (false, s)
  else
    current_time <- monotonic;;
    r <- round_tick current_time s;;
    match r with
    | (Some b, s) => ret (b, s)
    | (None, s) =>
        key_event <- events_get;;
        s <- match pressed_key key_event with
             | Some k => if round_active s then handle_key_press k s
                         else ret s
             | None => ret s
             end;;
        switch_update;;
        p <- switch_is_pressed;;
        if p then
          resume <- handle_pause;;
          if negb resume then ret (false, s)
          else
            s <- _start_round s;;
            ret (is_running (base s), s)
        else ret (is_running (base s), s)
    end.

(** Round 3 under way: the potato sits on key 4, was last moved at 11.95 s
    and goes off at 12.0 s. *)
Definition third_round : State :=
  {| base := {| score := 20; high_score := 0; is_running := true;
                game_over := false |};
     potato_key := 4; round := 3; round_end_time := 12.0;
     last_move_time := 11.95; move_interval := 0.7; round_active := true;
     survived := 2 |}.

End HotPotato.

(** ** code.py: the high-score store of [MenuSystem]

    [/scores.json] is seen through what [open] and [json.load] make of it.
    [json.dump] followed by [json.load] is taken to give the dumped object
    back. *)

Module MenuSystem.

(** A value as [json.load] returns it. *)
#[warnings="-register-all"] Inductive Json :=
| JNull
| JBool (b : bool)
| JInt (n : Z)
| JFloat (q : Q)
| JStr (s : string)
| JArr (l : list Json)
| JObj (o : gmap string Json).

(** [/scores.json]: absent ([open] raises OSError), not JSON ([json.load]
    raises ValueError), or the text of a value. *)
Inductive File :=
| Missing
| Unparseable
| Parsed (v : Json).

(** The flash drive: read-only for the program while USB is connected. *)
Record Disk := { scores_file : File; writable : bool }.

Inductive Result (A : Type) :=
| Returns (a : A)
| Raises (e : Exn).
Arguments Returns {A} a.
Arguments Raises {A} e.

(** The names of [GAMES], in order *)
Definition GAME_NAMES : list string :=
  [ "Speed Chase"; "Simon Says"; "Whack-a-Mole"; "Color Match";
    "Memory Grid"; "Lights Out"; "Reaction"; "Piano"; "Pattern Copy";
    "Hot Potato"; "Tic-Tac-Toe" ]%string.

(** [{name: 0 for name, _ in GAMES}] *)
Definition default_scores : gmap string Json :=
  list_to_map ((λ name, (name, JInt 0)) <$> GAME_NAMES).

(** [name in s] on strings: [name] occurs in [s] *)
Definition occurs_in (name s : string) : bool :=
  match String.index 0 name s with
  | Some _ => true
  | None => false
  end.

Definition is_str (name : string) (v : Json) : bool :=
  match v with
  | JStr s => bool_decide (s = name)
  | _ => false
  end.

(** [name in saved_scores] *)
Definition contains (saved_scores : Json) (name : string) : Result bool :=
  match saved_scores with
  | JObj o => Returns (bool_decide (is_Some (o !! name)))
  | JArr l => Returns (existsb (is_str name) l)
  | JStr s => Returns (occurs_in name s)
  | JNull | JBool _ | JInt _ | JFloat _ => Raises TypeError
  end.

(** [saved_scores[name]], [name] a string *)
Definition getitem (saved_scores : Json) (name : string) : Result Json :=
  match saved_scores with
  | JObj o =>
      match o !! name with
      | Some v => Returns v
      | None => Raises KeyError
      end
  | _ => Raises TypeError
  end.

(** [for name in default_scores:
       if name in saved_scores:
           default_scores[name] = saved_scores[name]] *)
Fixpoint merge (names : list string) (saved_scores : Json)
    (scores : gmap string Json) : Result (gmap string Json) :=
  match names with
  | [] => Returns scores
  | name :: rest =>
      match contains saved_scores name with
      | Raises e => Raises e
      | Returns false => merge rest saved_scores scores
      | Returns true =>
          match getitem saved_scores name with
          | Raises e => Raises e
          | Returns v => merge rest saved_scores (<[name := v]> scores)
          end
      end
  end.

(** The [except (OSError, ValueError)] clause returns the defaults; any
    other exception leaves [_load_scores]. *)
Definition _load_scores (d : Disk) : Result (gmap string Json) :=
  match scores_file d with
  | Missing => Returns default_scores
  | Unparseable => Returns default_scores
  | Parsed saved_scores => merge GAME_NAMES saved_scores default_scores
  end.

(** Opening a file of a read-only drive for writing raises OSError. *)
Definition _save_scores (high_scores : gmap string Json) (d : Disk)
    : bool * Disk :=
  if writable d then
    (true, {| scores_file := Parsed (JObj high_scores);
              writable := writable d |})
  else (false, d).

(** [a > b] for an integer [a] *)
Definition int_gt (a : Z) (b : Json) : Result bool :=
  match b with
  | JInt n => Returns (n <? a)
  | JFloat q => Returns (Qltb q (inject_Z a))
  | JBool b => Returns ((if b then 1 else 0) <? a)
  | _ => Raises TypeError
  end.

(** What [run()] does with the high score of a game that has ended:
    [if self.current_game.high_score > self.high_scores[game_name]:
         self.high_scores[game_name] = self.current_game.high_score
         self._save_scores()] *)
Definition record_high_score (game_name : string) (game_high_score : Z)
    (high_scores : gmap string Json) (d : Disk)
    : Result (gmap string Json * Disk) :=
  match high_scores !! game_name with
  | None => Raises KeyError
  | Some old =>
      match int_gt game_high_score old with
      | Raises e => Raises e
      | Returns true =>
          let high_scores := <[game_name := JInt game_high_score]> high_scores in
          Returns (high_scores, (_save_scores high_scores d).2)
      | Returns false => Returns (high_scores, d)
      end
  end.

End MenuSystem.

(** ** Vocabulary of the properties *)

(** Everything the hardware still has to tell the game. *)
Definition inputs (w : World) :=
  (lags w, key_events w, switch_polls w, switch_pressed w, encoder_reads w,
   rng w, rng_unit w, volume w).

(** [outputs_only m]: [m] returns, consumes no input and never moves the
    clock backwards (animations, tones, sleeps). *)
Definition outputs_only (m : M unit) : Prop :=
  ∀ w, ∃ w', m w = Done tt w' ∧ inputs w' = inputs w ∧ (clock w <= clock w')%Q.

(** The player will press the encoder switch: some poll after the next one
    reports a press ([wait_for_continue] throws the next poll away). *)
Definition press_pending (w : World) : Prop :=
  ∃ n, tail (switch_polls w) !! n = Some true.

(** *** Simon Says: what a key press can lead to *)

(** Still repeating the same sequence, now at position [p]. *)
Definition simon_repeating (s s' : SimonSays.State) (p : nat) : Prop :=
  SimonSays.sequence s' = SimonSays.sequence s ∧
  SimonSays.player_position s' = p ∧
  SimonSays.waiting_for_input s' = true ∧
  SimonSays.base s' = SimonSays.base s.

(** Advanced to the next level: the level just completed is the score, the
    sequence is one step longer and is to be repeated from the top. *)
Definition simon_advanced (s s' : SimonSays.State) : Prop :=
  ∃ new_key, new_key ∈ SimonSays.SIMON_KEYS ∧
    SimonSays.sequence s' = SimonSays.sequence s ++ [new_key] ∧
    SimonSays.player_position s' = 0%nat ∧
    SimonSays.waiting_for_input s' = true ∧
    score (SimonSays.base s') = Z.of_nat (length (SimonSays.sequence s)) ∧
    is_running (SimonSays.base s') = is_running (SimonSays.base s) ∧
    game_over (SimonSays.base s') = game_over (SimonSays.base s).

(** The game has ended. *)
Definition simon_over (s s' : SimonSays.State) : Prop :=
  is_running (SimonSays.base s') = false ∧
  game_over (SimonSays.base s') = true ∧
  SimonSays.sequence s' = SimonSays.sequence s ∧
  score (SimonSays.base s') = score (SimonSays.base s).

(** *** Reaction Timer: the ends of a round *)

(** The next round has begun: the counter is one higher, the lights are
    yellow again and nothing else of the game has changed. *)
Definition reaction_next_round (times : list Q) (s s' : ReactionTimer.State)
    : Prop :=
  ReactionTimer.reaction_times s' = times ∧
  ReactionTimer.round s' = ReactionTimer.round s + 1 ∧
  ReactionTimer.waiting_for_green s' = true ∧
  ReactionTimer.waiting_for_press s' = false ∧
  ReactionTimer.base s' = ReactionTimer.base s.

(** The game has ended with the times [times]. *)
Definition reaction_over (times : list Q) (s s' : ReactionTimer.State)
    : Prop :=
  ReactionTimer.reaction_times s' = times ∧
  ReactionTimer.round s' = ReactionTimer.round s ∧
  is_running (ReactionTimer.base s') = false ∧
  game_over (ReactionTimer.base s') = true ∧
  score (ReactionTimer.base s') = ReactionTimer.final_score times.

(** *** Color Match *)

(** The keys named by the draws [l] of [random.randint(0, 11)]. *)
Definition key_draws (l : list nat) : gset nat :=
  list_to_set ((λ r, r `mod` 12)%nat <$> l).

(** The colours [_generate_key_colors] has dealt: twelve of them, each one
    of [COLORS]; the keys showing the target colour are exactly
    [matching_keys], and there are two to four of them. *)
Definition colormatch_dealt (s : ColorMatch.State) : Prop :=
  length (ColorMatch.key_colors s) = 12%nat ∧
  (∀ i c, ColorMatch.key_colors s !! i = Some c →
     (c < length ColorMatch.COLORS)%nat ∧
     (c = ColorMatch.target_color_index s ↔ i ∈ ColorMatch.matching_keys s)) ∧
  (∀ i, i ∈ ColorMatch.matching_keys s → (i < 12)%nat) ∧
  (2 ≤ size (ColorMatch.matching_keys s) ≤ 4)%nat.

(** A new round has begun on [s]: one level up, colours dealt for a target
    of [COLORS], nothing found yet, the round clock started; score, flags,
    round time and game clock as they were. *)
Definition colormatch_new_round (s s' : ColorMatch.State) : Prop :=
  ColorMatch.level s' = ColorMatch.level s + 1 ∧
  ColorMatch.in_round s' = true ∧
  ColorMatch.found_keys s' = ∅ ∧
  (∃ now, ColorMatch.round_start_time s' = Some now) ∧
  ColorMatch.base s' = ColorMatch.base s ∧
  ColorMatch.round_time s' = ColorMatch.round_time s ∧
  ColorMatch.game_start_time s' = ColorMatch.game_start_time s ∧
  ColorMatch.correct_hits s' = ColorMatch.correct_hits s ∧
  ColorMatch.wrong_hits s' = ColorMatch.wrong_hits s ∧
  (ColorMatch.target_color_index s' < length ColorMatch.COLORS)%nat ∧
  colormatch_dealt s'.


(** *** Speed Chase *)

(** What a correct press makes of [s]: the time limit one step down, 10 to
    30 points more, the next round under way with another key lit and its
    clock started now. *)
Definition speed_chase_advanced (s s' : SpeedChase.State) (now : Q) : Prop :=
  SpeedChase.time_limit s'
    = SpeedChase.next_time_limit (SpeedChase.time_limit s) ∧
  score (SpeedChase.base s) + 10 ≤ score (SpeedChase.base s')
    ≤ score (SpeedChase.base s) + 30 ∧
  SpeedChase.round_number s' = SpeedChase.round_number s + 1 ∧
  is_running (SpeedChase.base s') = is_running (SpeedChase.base s) ∧
  game_over (SpeedChase.base s') = game_over (SpeedChase.base s) ∧
  SpeedChase.in_round s' ∧
  SpeedChase.current_target s' ≠ SpeedChase.current_target s ∧
  SpeedChase.target_start_time s' = Some now.

(** *** Waiting for the encoder switch *)

(** What a wait on the switch leaves alone. *)
Definition beside_switch (w : World) :=
  (lags w, key_events w, encoder_reads w, rng w, rng_unit w, volume w).


(** *** Hot Potato: the ends of a round *)

(** The round was survived and the next one has begun. *)
Definition hot_potato_next_round (s s' : HotPotato.State) : Prop :=
  HotPotato.survived s' = HotPotato.survived s + 1 ∧
  score (HotPotato.base s') = score (HotPotato.base s) + 10 ∧
  HotPotato.round s' = HotPotato.round s + 1 ∧
  HotPotato.round_active s' = true ∧
  (HotPotato.potato_key s' < 12)%nat ∧
  HotPotato.move_interval s'
    = pymax 0.2 (HotPotato.move_interval s - 0.05)%Q ∧
  is_running (HotPotato.base s') = is_running (HotPotato.base s) ∧
  game_over (HotPotato.base s') = game_over (HotPotato.base s).

(** The last round was survived and the game is won: 10 points for the
    round and 20 for every round survived. *)
Definition hot_potato_won (s s' : HotPotato.State) : Prop :=
  HotPotato.survived s' = HotPotato.survived s + 1 ∧
  score (HotPotato.base s')
    = score (HotPotato.base s) + 10 + (HotPotato.survived s + 1) * 20 ∧
  HotPotato.round s' = HotPotato.round s ∧
  is_running (HotPotato.base s') = false ∧
  game_over (HotPotato.base s') = true.

(** Keys [a] and [b] are neighbours on the pad (three keys to a row): side
    by side in a row, or one above the other. *)
Definition grid_adjacent (a b : nat) : Prop :=
  ((a `div` 3 = b `div` 3)%nat ∧ (a = b + 1 ∨ b = a + 1)%nat) ∨
  (a + 3 = b ∨ b + 3 = a)%nat.

(** * Properties *)

(** ** Comparisons on idealised floats *)

Lemma Qleb_le x y : Qleb x y = true <-> (x <= y)%Q.
Proof. apply Qle_bool_iff. Qed.

Lemma Qltb_lt x y : Qltb x y = true <-> (x < y)%Q.
Proof.
  unfold Qltb. rewrite negb_true_iff. split.
  - intros H. apply Qnot_le_lt. intros Hle.
    apply Qle_bool_iff in Hle. congruence.
  - intros H. destruct (Qle_bool y x) eqn:E; [|reflexivity].
    apply Qle_bool_iff in E. exfalso. eapply Qlt_not_le; eauto.
Qed.

Lemma Qltb_ge x y : Qltb x y = false <-> (y <= x)%Q.
Proof.
  unfold Qltb. rewrite negb_false_iff. apply Qle_bool_iff.
Qed.

Lemma Qleb_gt x y : Qleb x y = false <-> (y < x)%Q.
Proof.
  split.
  - intros H. apply Qnot_le_lt. intros Hle. apply Qleb_le in Hle. congruence.
  - intros H. destruct (Qleb x y) eqn:E; [|reflexivity].
    apply Qleb_le in E. exfalso. eapply Qlt_not_le; eauto.
Qed.


(** ** Rules for [wp] and [wlp] *)

Lemma wp_done {A} (m : M A) (Q : A → World → Prop) w :
  wp m Q w ↔ ∃ a w', m w = Done a w' ∧ Q a w'.
Proof.
  unfold wp. destruct (m w) as [a w'| |]; split; intros H.
  - eauto.
  - destruct H as (a0 & w0 & E & H). congruence.
  - destruct H.
  - destruct H as (a0 & w0 & E & H). discriminate.
  - destruct H.
  - destruct H as (a0 & w0 & E & H). discriminate.
Qed.

Lemma wp_ret {A} (a : A) (Q : A → World → Prop) w : Q a w → wp (ret a) Q w.
Proof. intros H. exact H. Qed.

Lemma wp_bind {A B} (m : M A) (f : A → M B) (Q : B → World → Prop) w :
  wp m (λ a w', wp (f a) Q w') w → wp (bind m f) Q w.
Proof. unfold wp, bind. destruct (m w); auto. Qed.

Lemma wp_mono {A} (m : M A) (P Q : A → World → Prop) w :
  wp m P w → (∀ a w', P a w' → Q a w') → wp m Q w.
Proof. unfold wp. destruct (m w); auto. Qed.

Lemma wp_wlp {A} (m : M A) (Q : A → World → Prop) w : wp m Q w → wlp m Q w.
Proof. unfold wp, wlp. destruct (m w); auto. Qed.

Lemma wlp_ret {A} (a : A) (Q : A → World → Prop) w : Q a w → wlp (ret a) Q w.
Proof. intros H. exact H. Qed.

Lemma wlp_bind {A B} (m : M A) (f : A → M B) (Q : B → World → Prop) w :
  wlp m (λ a w', wlp (f a) Q w') w → wlp (bind m f) Q w.
Proof. unfold wlp, bind. destruct (m w); auto. Qed.

Lemma wlp_mono {A} (m : M A) (P Q : A → World → Prop) w :
  wlp m P w → (∀ a w', P a w' → Q a w') → wlp m Q w.
Proof. unfold wlp. destruct (m w); auto. Qed.

Lemma wlp_hang {A} (Q : A → World → Prop) w : wlp hang Q w.
Proof. exact I. Qed.

(** Computations that only drive the outputs and the clock always return. *)

Lemma total_ret {A} (a : A) : total (ret a).
Proof. intros w. exact I. Qed.

Lemma total_bind {A B} (m : M A) (f : A → M B) :
  total m → (∀ a, total (f a)) → total (bind m f).
Proof.
  intros Hm Hf w. apply wp_bind. eapply wp_mono; [apply Hm|].
  intros a w' _. apply Hf.
Qed.

Lemma total_sleep d : total (sleep d).
Proof. intros w. exact I. Qed.

Lemma total_emit e : total (emit e).
Proof. intros w. exact I. Qed.

Lemma total_monotonic : total monotonic.
Proof. intros w. exact I. Qed.

Lemma total_when c m : total m → total (when c m).
Proof. intros H. destruct c; [exact H | apply total_ret]. Qed.

Lemma total_repeat_m n m : total m → total (repeat_m n m).
Proof.
  intros H. induction n as [|n IH]; simpl.
  - apply total_ret.
  - apply total_bind; auto.
Qed.

Lemma total_for_each {A} (l : list A) (body : A → M unit) :
  (∀ x, x ∈ l → total (body x)) → total (for_each l body).
Proof.
  induction l as [|x l IH]; intros H; simpl.
  - apply total_ret.
  - apply total_bind.
    + apply H. left.
    + intros _. apply IH. intros y Hy. apply H. right. exact Hy.
Qed.

Lemma total_play_tone f d : total (SoundManager.play_tone f d).
Proof.
  intros w. unfold SoundManager.play_tone, SoundManager.enabled, wp, bind.
  destruct (0 <? volume w); exact I.
Qed.

Lemma total_play_sequence l : total (SoundManager.play_sequence l).
Proof.
  unfold SoundManager.play_sequence. apply total_bind.
  - intros w. exact I.
  - intros en. apply total_when. apply total_for_each.
    intros x _. apply total_bind; [apply total_emit|].
    intros _. apply total_sleep.
Qed.

Lemma total_set_key k c : (k < 12)%nat → total (LEDManager.set_key k c).
Proof.
  intros H w. unfold LEDManager.set_key.
  apply Nat.ltb_lt in H. rewrite H. exact I.
Qed.

Lemma total_set_all c : total (LEDManager.set_all c).
Proof. apply total_emit. Qed.

Lemma total_clear_all : total LEDManager.clear_all.
Proof. apply total_emit. Qed.

Lemma total_flash_key k c n a b :
  (k < 12)%nat → total (LEDManager.flash_key k c n a b).
Proof.
  intros H. apply total_repeat_m.
  repeat (apply total_bind; [|intros _];
          auto using total_set_key, total_sleep).
Qed.

Lemma total_flash_all c n a b : total (LEDManager.flash_all c n a b).
Proof.
  apply total_repeat_m.
  repeat (apply total_bind; [|intros _];
          auto using total_set_all, total_clear_all, total_sleep).
Qed.

Lemma total_sweep_animation c : total (LEDManager.sweep_animation c).
Proof.
  unfold LEDManager.sweep_animation.
  apply total_bind; [|intros _]; apply total_for_each; intros i Hi;
    (apply total_bind; [apply total_set_key|intros _; apply total_sleep]);
    apply elem_of_seq in Hi; lia.
Qed.

Lemma total_play_correct : total SoundManager.play_correct.
Proof. apply total_play_sequence. Qed.

Lemma total_play_wrong : total SoundManager.play_wrong.
Proof. apply total_play_sequence. Qed.

Lemma total_play_level_up : total SoundManager.play_level_up.
Proof. apply total_play_sequence. Qed.

Lemma total_play_menu_select : total SoundManager.play_menu_select.
Proof. apply total_play_sequence. Qed.

Lemma total_play_countdown : total SoundManager.play_countdown.
Proof. apply total_play_sequence. Qed.

Lemma total_play_key_tone k : total (SoundManager.play_key_tone k).
Proof. apply total_play_tone. Qed.

Create HintDb total.

#[local] Hint Resolve total_ret total_sleep total_emit total_monotonic
  total_play_tone total_play_sequence total_set_all total_clear_all
  total_flash_all total_sweep_animation total_play_correct total_play_wrong
  total_play_level_up total_play_menu_select total_play_countdown
  total_play_key_tone : total.

(** ** Lights Out *)

Lemma lights_out_adjacent_on_grid key affected_keys :
  LightsOut.ADJACENCY !! key = Some affected_keys →
  ∀ k, k ∈ affected_keys → (k < 12)%nat.
Proof.
  intros H k Hk.
  do 12 (destruct key as [|key]; [simpl in H; injection H as <-;
    repeat (apply elem_of_cons in Hk as [->|Hk]; [lia|]);
    apply elem_of_nil in Hk; destruct Hk|]).
  discriminate H.
Qed.

Lemma lights_out_adjacency_defined key :
  (key < 12)%nat → ∃ affected_keys, LightsOut.ADJACENCY !! key = Some affected_keys.
Proof.
  intros H. apply lookup_lt_is_Some. simpl. exact H.
Qed.

Lemma lights_out_flip_length l key l' :
  LightsOut.flip l key = Some l' → length l' = length l.
Proof.
  unfold LightsOut.flip. destruct (l !! key); [|discriminate].
  intros [= <-]. apply length_insert.
Qed.

Lemma lights_out_flip_all_length affected_keys : ∀ l l',
  LightsOut.flip_all l affected_keys = Some l' → length l' = length l.
Proof.
  induction affected_keys as [|k r IH]; simpl; intros l l' H.
  - congruence.
  - destruct (LightsOut.flip l k) as [l1|] eqn:E; [|discriminate].
    rewrite (IH _ _ H). eapply lights_out_flip_length; eauto.
Qed.

(** On the twelve-key grid the flips of one press succeed, and doing them a
    second time undoes them. *)
Lemma lights_out_flip_all_twice l key affected_keys :
  length l = 12%nat →
  LightsOut.ADJACENCY !! key = Some affected_keys →
  ∃ l1, LightsOut.flip_all l affected_keys = Some l1 ∧
        LightsOut.flip_all l1 affected_keys = Some l.
Proof.
  intros Hlen H.
  do 12 (destruct l as [|? l]; [discriminate Hlen|]).
  destruct l; [clear Hlen|discriminate Hlen].
  do 12 (destruct key as [|key]; [simpl in H; injection H as <-;
    eexists; split; [reflexivity|]; simpl; unfold LightsOut.flip; simpl;
    rewrite ?negb_involutive; reflexivity|]).
  discriminate H.
Qed.

Lemma lights_out_render_total s :
  length (LightsOut.lights s) = 12%nat → total (LightsOut._render_lights s).
Proof.
  intros Hlen. apply total_for_each. intros i Hi.
  apply elem_of_seq in Hi.
  destruct (lookup_lt_is_Some_2 (LightsOut.lights s) i) as [b Hb]; [lia|].
  rewrite Hb. destruct b; apply total_set_key; lia.
Qed.

(** What one call of [_toggle_lights] does to the game. *)
Lemma lights_out_toggle_returns key animate s affected_keys l w :
  LightsOut.ADJACENCY !! key = Some affected_keys →
  LightsOut.flip_all (LightsOut.lights s) affected_keys = Some l →
  length (LightsOut.lights s) = 12%nat →
  ∃ w', LightsOut._toggle_lights key animate s w
        = Done (LightsOut.set_lights l s) w'.
Proof.
  intros Hadj Hflip Hlen. unfold LightsOut._toggle_lights. rewrite Hadj.
  assert (Hpre : total (when animate
     (for_each affected_keys (λ k, LEDManager.set_key k LightsOut.TOGGLE_FLASH);;
      SoundManager.play_tone 440%Q 0.05%Q;; sleep 0.05%Q))).
  { apply total_when. apply total_bind.
    - apply total_for_each. intros k Hk. apply total_set_key.
      eapply lights_out_adjacent_on_grid; eauto.
    - intros _. apply total_bind; auto with total. }
  unfold bind at 1. specialize (Hpre w). unfold wp in Hpre.
  destruct (when animate _ w) as [[] w1| |]; try contradiction.
  rewrite Hflip.
  assert (Hpost : total (when animate
     (LightsOut._render_lights (LightsOut.set_lights l s)))).
  { apply total_when. apply lights_out_render_total. simpl.
    rewrite (lights_out_flip_all_length _ _ _ Hflip). exact Hlen. }
  unfold bind. specialize (Hpost w1). unfold wp in Hpost.
  destruct (when animate _ w1) as [[] w2| |]; try contradiction.
  eexists. reflexivity.
Qed.

(** C4. In Lights Out, toggling is an involution: for every grid of twelve
    lights and every key index 0..11, [_toggle_lights] returns, and applying
    it a second time to the same key (animated or not) returns the game to
    the state it had before the first press. *)
Theorem lights_out_toggle_involution (s : LightsOut.State) (key : nat)
    (animate1 animate2 : bool) (w : World) :
  length (LightsOut.lights s) = 12%nat →
  (key < 12)%nat →
  ∃ s1 w1 w2,
    LightsOut._toggle_lights key animate1 s w = Done s1 w1 ∧
    LightsOut._toggle_lights key animate2 s1 w1 = Done s w2.
Proof.
  intros Hlen Hkey.
  destruct (lights_out_adjacency_defined key Hkey) as [aff Hadj].
  destruct (lights_out_flip_all_twice _ _ _ Hlen Hadj) as (l1 & H1 & H2).
  destruct (lights_out_toggle_returns key animate1 s aff l1 w Hadj H1 Hlen)
    as [w1 E1].
  assert (Hlen1 : length (LightsOut.lights (LightsOut.set_lights l1 s)) = 12%nat).
  { simpl. rewrite (lights_out_flip_all_length _ _ _ H1). exact Hlen. }
  destruct (lights_out_toggle_returns key animate2 (LightsOut.set_lights l1 s)
              aff (LightsOut.lights s) w1 Hadj H2 Hlen1) as [w2 E2].
  exists (LightsOut.set_lights l1 s), w1, w2. split; [exact E1|].
  rewrite E2. destruct s; reflexivity.
Qed.

Lemma lights_out_toggle_involution_witness :
  ∃ s1 w1 w2,
    LightsOut._toggle_lights 4 true LightsOut.init (quiet_world 0) = Done s1 w1 ∧
    LightsOut._toggle_lights 4 false s1 w1 = Done LightsOut.init w2.
Proof.
  apply (lights_out_toggle_involution LightsOut.init 4 true false (quiet_world 0)).
  - reflexivity.
  - lia.
Defined.

(** ** Tic-Tac-Toe *)

Lemma wp_seq_total {A} (m : M unit) (k : M A) (Q : A → World → Prop) w :
  total m → (∀ w', wp k Q w') → wp (m;; k) Q w.
Proof.
  intros Hm Hk. apply wp_bind. eapply wp_mono; [apply Hm|].
  intros [] w' _. apply Hk.
Qed.

Lemma tictactoe_cell s i v w :
  TicTacToe.board s !! i = Some v → TicTacToe.cell s i w = Done v w.
Proof. intros H. unfold TicTacToe.cell. rewrite H. reflexivity. Qed.

Lemma tictactoe_combos_on_board combo :
  combo ∈ TicTacToe.WIN_COMBOS →
  (combo.1.1 < 9 ∧ combo.1.2 < 9 ∧ combo.2 < 9)%nat.
Proof.
  intros H. unfold TicTacToe.WIN_COMBOS in H.
  repeat (apply elem_of_cons in H as [->|H]; [simpl; lia|]).
  apply elem_of_nil in H. destruct H.
Qed.

(** [_check_winner] only reads the board: it returns the mark of the first
    combination of [WIN_COMBOS] held by one player, and [None] when there is
    none. *)
Lemma tictactoe_check_combos_spec s w combos :
  length (TicTacToe.board s) = 9%nat →
  (∀ combo, combo ∈ combos → combo ∈ TicTacToe.WIN_COMBOS) →
  ∃ r, TicTacToe.check_combos combos s w = Done r w ∧
    match r with
    | Some m => m ≠ 0 ∧ ∃ combo, combo ∈ combos ∧
                                 TicTacToe.line (TicTacToe.board s) combo m
    | None => ∀ combo m, combo ∈ combos → m ≠ 0 →
                         ¬ TicTacToe.line (TicTacToe.board s) combo m
    end.
Proof.
  intros Hlen. induction combos as [|[[a b] c] r IH]; intros Hin.
  - exists None. split; [reflexivity|]. intros combo m H. inversion H.
  - destruct IH as (r0 & Er & Hr).
    { intros combo H. apply Hin. right. exact H. }
    destruct (tictactoe_combos_on_board (a, b, c)) as (Ha & Hb & Hc).
    { apply Hin. left. }
    simpl in Ha, Hb, Hc.
    destruct (lookup_lt_is_Some_2 (TicTacToe.board s) a) as [va Eva]; [lia|].
    destruct (lookup_lt_is_Some_2 (TicTacToe.board s) b) as [vb Evb]; [lia|].
    destruct (lookup_lt_is_Some_2 (TicTacToe.board s) c) as [vc Evc]; [lia|].
    assert (Hskip : (va = 0 ∨ va ≠ vb ∨ vb ≠ vc) →
      ∃ r1, Done r0 w = Done r1 w ∧
        match r1 with
        | Some m => m ≠ 0 ∧ ∃ combo, combo ∈ (a, b, c) :: r ∧
                      TicTacToe.line (TicTacToe.board s) combo m
        | None => ∀ combo m, combo ∈ (a, b, c) :: r → m ≠ 0 →
                      ¬ TicTacToe.line (TicTacToe.board s) combo m
        end).
    { intros Hne. exists r0. split; [reflexivity|]. destruct r0 as [m|].
      - destruct Hr as (Hm & combo & Hc' & Hl). split; [exact Hm|].
        exists combo. split; [right; exact Hc'|exact Hl].
      - intros combo m Hc' Hm Hl. apply elem_of_cons in Hc' as [->|Hc'].
        + destruct Hl as (H1 & H2 & H3). simpl in H1, H2, H3.
          rewrite Eva in H1. rewrite Evb in H2. rewrite Evc in H3.
          injection H1 as ->. injection H2 as ->. injection H3 as ->.
          destruct Hne as [?|[?|?]]; congruence.
        + exact (Hr combo m Hc' Hm Hl). }
    simpl. unfold bind.
    rewrite (tictactoe_cell _ _ _ _ Eva).
    destruct (Z.eqb_spec va 0) as [E0|N0]; simpl.
    { rewrite Er. apply Hskip. left. exact E0. }
    rewrite (tictactoe_cell _ _ _ _ Evb).
    destruct (Z.eqb_spec va vb) as [Eab|Nab].
    2:{ rewrite Er. apply Hskip. right. left. exact Nab. }
    rewrite (tictactoe_cell _ _ _ _ Evc).
    destruct (Z.eqb_spec vb vc) as [Ebc|Nbc].
    2:{ rewrite Er. apply Hskip. right. right. exact Nbc. }
    exists (Some va). split; [reflexivity|]. split; [exact N0|].
    exists (a, b, c). split; [left|]. subst vb vc.
    repeat split; assumption.
Qed.

Lemma tictactoe_check_winner_spec s w :
  length (TicTacToe.board s) = 9%nat →
  ∃ r, TicTacToe._check_winner s w = Done r w ∧
    match r with
    | Some m => TicTacToe.has_line (TicTacToe.board s) m
    | None => ∀ m, ¬ TicTacToe.has_line (TicTacToe.board s) m
    end.
Proof.
  intros Hlen.
  destruct (tictactoe_check_combos_spec s w TicTacToe.WIN_COMBOS Hlen)
    as (r & E & H); [auto|].
  exists r. split; [exact E|]. destruct r as [m|].
  - destruct H as (Hm & combo & Hc & Hl). split; [exact Hm|]. eauto.
  - intros m (Hm & combo & Hc & Hl). exact (H combo m Hc Hm Hl).
Qed.

Lemma wlp_seq {A} (m : M unit) (k : M A) (Q : A → World → Prop) w :
  (∀ w', wlp k Q w') → wlp (m;; k) Q w.
Proof.
  intros Hk. apply wlp_bind. unfold wlp at 1.
  destruct (m w) as [[] w'| |]; auto.
Qed.

Lemma tictactoe_total_cell s i :
  (i < length (TicTacToe.board s))%nat → total (TicTacToe.cell s i).
Proof.
  intros H w. destruct (lookup_lt_is_Some_2 _ _ H) as [v Ev].
  unfold wp. rewrite (tictactoe_cell _ _ _ _ Ev). exact I.
Qed.

Lemma tictactoe_total_render s :
  length (TicTacToe.board s) = 9%nat → total (TicTacToe._render_board s).
Proof.
  intros Hlen. unfold TicTacToe._render_board.
  apply total_bind; [apply total_clear_all|intros _].
  apply total_bind; [|intros _].
  - apply total_for_each. intros [i key] H.
    unfold TicTacToe.GRID_KEYS in H. cbn in H.
    assert (Hik : (i < 9 ∧ key < 12)%nat).
    { repeat (apply elem_of_cons in H as [[= -> ->]|H]; [lia|]).
      apply elem_of_nil in H. destruct H. }
    apply total_bind; [apply tictactoe_total_cell; simpl; lia|].
    intros v. simpl.
    destruct (v =? 1); [|destruct (v =? 2)]; apply total_set_key; lia.
  - apply total_when.
    destruct (TicTacToe.current_player s =? 1); apply total_set_key; lia.
Qed.

Lemma tictactoe_winning_combo_in_spec winner s w combos :
  length (TicTacToe.board s) = 9%nat →
  (∀ combo, combo ∈ combos → combo ∈ TicTacToe.WIN_COMBOS) →
  ∃ l, TicTacToe.winning_combo_in combos winner s w = Done l w ∧
       ∀ idx, idx ∈ l → (idx < 9)%nat.
Proof.
  intros Hlen. induction combos as [|[[a b] c] r IH]; intros Hin.
  - exists []. split; [reflexivity|]. intros idx H. inversion H.
  - destruct IH as (l0 & El & Hl).
    { intros combo H. apply Hin. right. exact H. }
    destruct (tictactoe_combos_on_board (a, b, c)) as (Ha & Hb & Hc).
    { apply Hin. left. }
    simpl in Ha, Hb, Hc.
    destruct (lookup_lt_is_Some_2 (TicTacToe.board s) a) as [va Eva]; [lia|].
    destruct (lookup_lt_is_Some_2 (TicTacToe.board s) b) as [vb Evb]; [lia|].
    destruct (lookup_lt_is_Some_2 (TicTacToe.board s) c) as [vc Evc]; [lia|].
    simpl. unfold bind.
    rewrite (tictactoe_cell _ _ _ _ Eva).
    destruct (va =? winner); [|eauto].
    rewrite (tictactoe_cell _ _ _ _ Evb).
    destruct (vb =? winner); [|eauto].
    rewrite (tictactoe_cell _ _ _ _ Evc).
    destruct (vc =? winner); [|eauto].
    exists [a; b; c]. split; [reflexivity|]. intros idx H.
    repeat (apply elem_of_cons in H as [->|H]; [lia|]).
    apply elem_of_nil in H. destruct H.
Qed.

(** [_handle_win(m)] returns, and leaves the object in [won m s]. *)
Lemma tictactoe_handle_win_spec m s w :
  length (TicTacToe.board s) = 9%nat →
  wp (TicTacToe._handle_win m s) (λ s' _, s' = TicTacToe.won m s) w.
Proof.
  intros Hlen. unfold TicTacToe._handle_win.
  apply wp_bind.
  apply wp_mono with (P := λ s' _, s' = TicTacToe.won m s).
  { destruct (m =? 1) eqn:E;
      (apply wp_seq_total; [auto with total|intros w']);
      apply wp_ret; unfold TicTacToe.won; rewrite E; reflexivity. }
  intros s1 w1 ->.
  destruct (tictactoe_winning_combo_in_spec m (TicTacToe.won m s) w1
              TicTacToe.WIN_COMBOS Hlen) as (combo & Ec & Hc); [auto|].
  apply wp_bind. unfold wp at 1. unfold TicTacToe._get_winning_combo.
  rewrite Ec.
  apply wp_seq_total.
  { apply total_repeat_m.
    apply total_bind; [|intros _].
    - apply total_for_each. intros idx Hidx. specialize (Hc idx Hidx).
      destruct (lookup_lt_is_Some_2 TicTacToe.GRID_KEYS idx) as [key Ek];
        [simpl; lia|].
      rewrite Ek. apply total_set_key.
      apply list_elem_of_lookup_2 in Ek. unfold TicTacToe.GRID_KEYS in Ek.
      repeat (apply elem_of_cons in Ek as [->|Ek]; [lia|]).
      apply elem_of_nil in Ek. destruct Ek.
    - apply total_bind; [apply total_sleep|intros _].
      apply total_bind; [apply tictactoe_total_render; exact Hlen|intros _].
      apply total_sleep. }
  intros w2. apply wp_seq_total; [apply total_sleep|].
  intros w3. apply wp_ret. reflexivity.
Qed.

Lemma tictactoe_index_of_lookup key l : ∀ idx,
  TicTacToe.index_of key l = Some idx → l !! idx = Some key.
Proof.
  induction l as [|k r IH]; simpl; intros idx H; [discriminate|].
  destruct (Nat.eqb_spec k key) as [->|_].
  - injection H as <-. reflexivity.
  - destruct (TicTacToe.index_of key r) as [i|]; [|discriminate].
    injection H as <-. simpl. apply IH. reflexivity.
Qed.

Lemma tictactoe_index_of_grid key idx :
  TicTacToe.index_of key TicTacToe.GRID_KEYS = Some idx →
  (idx < 9)%nat ∧ key = (idx + 3)%nat.
Proof.
  intros H. apply tictactoe_index_of_lookup in H.
  unfold TicTacToe.GRID_KEYS in H.
  do 9 (destruct idx as [|idx]; [injection H as <-; lia|]).
  discriminate H.
Qed.

(** A line that appears with a placement goes through the new mark: before
    the placement the board of a game in progress holds no line. *)
Lemma tictactoe_new_line_is_movers (b : list Z) idx p m :
  (idx < length b)%nat →
  (∀ m', ¬ TicTacToe.has_line b m') →
  TicTacToe.has_line (<[idx := p]> b) m → m = p.
Proof.
  intros Hidx Hnone (Hm & [[a b0] c] & Hin & Ha & Hb & Hc).
  simpl in Ha, Hb, Hc.
  assert (Hat : ∀ i, <[idx := p]> b !! i = Some m → i ≠ idx → b !! i = Some m).
  { intros i Hi Hne. rewrite list_lookup_insert_ne in Hi by auto. exact Hi. }
  assert (Hhit : ∀ i, <[idx := p]> b !! i = Some m → i = idx → m = p).
  { intros i Hi ->. rewrite list_lookup_insert_eq in Hi by exact Hidx.
    congruence. }
  destruct (decide (a = idx)) as [Ea|Na]; [eauto|].
  destruct (decide (b0 = idx)) as [Eb|Nb]; [eauto|].
  destruct (decide (c = idx)) as [Ec|Nc]; [eauto|].
  exfalso. apply (Hnone m). split; [exact Hm|].
  exists (a, b0, c). split; [exact Hin|]. repeat split; simpl; auto.
Qed.

Lemma tictactoe_no_line_on_empty_board m :
  ¬ TicTacToe.has_line (replicate 9 0) m.
Proof.
  intros (Hm & combo & _ & Ha & _).
  apply lookup_replicate in Ha as [Ha _]. congruence.
Qed.

(** The object stays well formed through a key press. *)
Lemma tictactoe_handle_key_press_well_formed key s w :
  TicTacToe.well_formed s →
  wlp (TicTacToe.handle_key_press key s)
      (λ s' _, TicTacToe.well_formed s') w.
Proof.
  intros (Hlen & Hcp & Hnone). unfold TicTacToe.handle_key_press.
  destruct (TicTacToe.game_active s) eqn:Hact; cbn [negb].
  2:{ unfold TicTacToe._start_new_game.
      apply wlp_seq. intros w1. apply wlp_ret.
      split; [reflexivity|]. split; [left; reflexivity|].
      intros _ m. apply tictactoe_no_line_on_empty_board. }
  destruct (TicTacToe.index_of key TicTacToe.GRID_KEYS) as [idx|] eqn:Hidx.
  2:{ apply wlp_seq. intros w1. apply wlp_ret.
      split; [exact Hlen|]. split; [exact Hcp|]. rewrite Hact. exact Hnone. }
  destruct (tictactoe_index_of_grid _ _ Hidx) as [Hlt _].
  destruct (lookup_lt_is_Some_2 (TicTacToe.board s) idx) as [v Ev]; [lia|].
  apply wlp_bind. unfold wlp at 1. rewrite (tictactoe_cell _ _ _ _ Ev).
  destruct (Z.eqb_spec v 0) as [->|Hv]; simpl.
  2:{ apply wlp_seq. intros w1. apply wlp_ret.
      split; [exact Hlen|]. split; [exact Hcp|]. rewrite Hact. exact Hnone. }
  apply wlp_seq. intros w1. apply wlp_bind.
  set (s1 := TicTacToe.set_board _ s).
  assert (Hlen1 : length (TicTacToe.board s1) = 9%nat).
  { subst s1. simpl. rewrite length_insert. exact Hlen. }
  destruct (tictactoe_check_winner_spec s1 w1 Hlen1) as (r & Er & Hr).
  unfold wlp at 1. rewrite Er.
  assert (Hwin : ∀ p w', wlp (TicTacToe._handle_win p s1)
                           (λ s' _, TicTacToe.well_formed s') w').
  { intros p w'. apply wp_wlp.
    eapply wp_mono; [apply tictactoe_handle_win_spec; exact Hlen1|].
    intros s' _ ->. split; [exact Hlen1|]. split; [exact Hcp|].
    simpl. discriminate. }
  assert (Hrest : (∀ m, ¬ TicTacToe.has_line (TicTacToe.board s1) m) →
    wlp (if TicTacToe.board_full (TicTacToe.board s1)
         then TicTacToe._handle_draw s1
         else
           let s2 := TicTacToe.set_current_player
                       (if TicTacToe.current_player s1 =? 1 then 2 else 1) s1 in
           TicTacToe._render_board s2;; ret s2)
        (λ s' _, TicTacToe.well_formed s') w1).
  { intros Hno. destruct (TicTacToe.board_full _).
    - apply wlp_seq. intros w2. apply wlp_ret.
      split; [exact Hlen1|]. split; [exact Hcp|]. simpl. discriminate.
    - apply wlp_seq. intros w2. apply wlp_ret.
      split; [exact Hlen1|]. split.
      + simpl. destruct (TicTacToe.current_player s =? 1); auto.
      + intros _. exact Hno. }
  destruct r as [p|]; simpl.
  - destruct (Z.eqb_spec p 0) as [->|Hp].
    + destruct Hr as [Hp _]. congruence.
    + apply Hwin.
  - apply Hrest. exact Hr.
Qed.

Lemma tictactoe_update_well_formed s w :
  TicTacToe.well_formed s →
  wlp (TicTacToe.update s) (λ r _, TicTacToe.well_formed r.2) w.
Proof.
  intros Hwf. unfold TicTacToe.update.
  destruct (is_running (TicTacToe.base s)); simpl.
  2:{ apply wlp_ret. exact Hwf. }
  apply wlp_bind.
  apply wlp_mono with (P := λ s' _, TicTacToe.well_formed s').
  { destruct (TicTacToe.game_active s).
    - apply wlp_bind. unfold wlp at 1.
      destruct (events_get w) as [e w1| |]; [|exact I|exact I].
      destruct (pressed_key e).
      + apply tictactoe_handle_key_press_well_formed. exact Hwf.
      + apply wlp_ret. exact Hwf.
    - apply wlp_ret. exact Hwf. }
  intros s1 w1 Hwf1. apply wlp_seq. intros w2. apply wlp_bind.
  unfold wlp at 1. simpl. destruct (switch_pressed w2); apply wlp_ret.
  - destruct Hwf1 as (H1 & H2 & H3). split; [exact H1|]. split; assumption.
  - exact Hwf1.
Qed.

Lemma tictactoe_start_well_formed s w :
  wlp (TicTacToe.start s) (λ s' _, TicTacToe.well_formed s') w.
Proof.
  unfold TicTacToe.start, TicTacToe.reset.
  apply wlp_bind. apply wlp_seq. intros w1. apply wlp_ret.
  apply wlp_seq. intros w2. apply wlp_seq. intros w3.
  unfold TicTacToe._start_new_game. apply wlp_seq. intros w4. apply wlp_ret.
  split; [reflexivity|]. split; [left; reflexivity|].
  intros _ m. apply tictactoe_no_line_on_empty_board.
Qed.

(** Every state of a session is well formed: in particular, while a game is
    in progress no player holds a line yet. *)
Lemma tictactoe_reachable_well_formed s :
  TicTacToe.reachable s → TicTacToe.well_formed s.
Proof.
  induction 1 as [w s w' E|s w r s' w' _ IH E].
  - pose proof (tictactoe_start_well_formed TicTacToe.init w) as H.
    unfold wlp in H. rewrite E in H. exact H.
  - pose proof (tictactoe_update_well_formed s w IH) as H.
    unfold wlp in H. rewrite E in H. exact H.
Qed.

Lemma tictactoe_play_reachable keys : ∀ s s',
  TicTacToe.reachable s → TicTacToe.play keys s = Some s' →
  TicTacToe.reachable s'.
Proof.
  induction keys as [|k r IH]; simpl; intros s s' Hs H.
  - injection H as <-. exact Hs.
  - destruct (TicTacToe.update s (key_world k)) as [[b s1] w1| |] eqn:E;
      try discriminate.
    apply (IH s1 s'); [|exact H].
    eapply TicTacToe.reach_update; eauto.
Qed.

Lemma tictactoe_last_move_reachable :
  TicTacToe.reachable TicTacToe.last_move.
Proof.
  destruct (TicTacToe.start TicTacToe.init (quiet_world 0))
    as [s0 w0| |] eqn:E; try (vm_compute in E; discriminate E).
  apply (tictactoe_play_reachable [3; 4; 5; 6; 7; 8; 10; 9]%nat s0).
  - eapply TicTacToe.reach_start. exact E.
  - vm_compute in E. injection E as <- _. vm_compute. reflexivity.
Qed.

(** C2. In Tic-Tac-Toe the winner check comes before the draw check.  For
    every state of a session with a game in progress and every placement on
    a free cell: if the board after the placement holds three equal
    non-empty marks [m] along a row, column or diagonal, then [m] is player
    1 or 2, [_check_winner] returns [m] on that board, and
    [handle_key_press] returns with the game handled as a win of [m]
    ([won]: game over, the win counter of [m] one higher, [draws]
    untouched), whether or not the placement filled the board. *)
Theorem tictactoe_win_before_draw (s : TicTacToe.State) (key idx : nat)
    (m : Z) (w : World) :
  TicTacToe.reachable s →
  TicTacToe.game_active s = true →
  TicTacToe.index_of key TicTacToe.GRID_KEYS = Some idx →
  TicTacToe.board s !! idx = Some 0 →
  let placed :=
    TicTacToe.set_board
      (<[idx := TicTacToe.current_player s]> (TicTacToe.board s)) s in
  TicTacToe.has_line (TicTacToe.board placed) m →
  (m = 1 ∨ m = 2) ∧
  TicTacToe._check_winner placed w = Done (Some m) w ∧
  ∃ s' w', TicTacToe.handle_key_press key s w = Done s' w' ∧
           s' = TicTacToe.won m placed ∧
           TicTacToe.game_active s' = false ∧
           TicTacToe.draws s' = TicTacToe.draws s.
Proof.
  intros Hreach Hact Hidx Hfree placed Hline.
  destruct (tictactoe_reachable_well_formed s Hreach) as (Hlen & Hcp & Hnone).
  destruct (tictactoe_index_of_grid _ _ Hidx) as [Hlt _].
  assert (Hlen1 : length (TicTacToe.board placed) = 9%nat).
  { subst placed. simpl. rewrite length_insert. exact Hlen. }
  assert (Hmover : ∀ m', TicTacToe.has_line (TicTacToe.board placed) m' →
                         m' = TicTacToe.current_player s).
  { intros m'. apply tictactoe_new_line_is_movers; [lia|auto]. }
  assert (Hcheck : ∀ w0, TicTacToe._check_winner placed w0 = Done (Some m) w0).
  { intros w0.
    destruct (tictactoe_check_winner_spec placed w0 Hlen1) as (r & Er & Hr).
    rewrite Er. destruct r as [m'|].
    - rewrite (Hmover m' Hr), (Hmover m Hline). reflexivity.
    - destruct (Hr m Hline). }
  split; [rewrite (Hmover m Hline); exact Hcp|].
  split; [apply Hcheck|].
  assert (Hwp : wp (TicTacToe.handle_key_press key s)
                   (λ s' _, s' = TicTacToe.won m placed) w).
  { unfold TicTacToe.handle_key_press. rewrite Hact, Hidx. cbn [negb].
    apply wp_bind. unfold wp at 1. rewrite (tictactoe_cell _ _ _ _ Hfree).
    cbn [Z.eqb negb]. fold placed.
    apply wp_seq_total.
    { destruct (TicTacToe.current_player placed =? 1); apply total_play_tone. }
    intros w1. apply wp_bind. unfold wp at 1. rewrite Hcheck.
    unfold TicTacToe.truthy. destruct Hline as [Hm _].
    destruct (Z.eqb_spec m 0) as [E|_]; [contradiction|].
    apply tictactoe_handle_win_spec. exact Hlen1. }
  apply wp_done in Hwp as (s' & w' & E & ->).
  exists (TicTacToe.won m placed), w'. auto.
Qed.

Lemma tictactoe_win_before_draw_witness :
  let placed := TicTacToe.set_board [1; 2; 1; 2; 1; 2; 2; 1; 1]
                  TicTacToe.last_move in
  (1 = 1 ∨ 1 = 2) ∧
  TicTacToe._check_winner placed (key_world 11) = Done (Some 1) (key_world 11) ∧
  ∃ s' w', TicTacToe.handle_key_press 11 TicTacToe.last_move (key_world 11)
             = Done s' w' ∧
           s' = TicTacToe.won 1 placed ∧
           TicTacToe.game_active s' = false ∧
           TicTacToe.draws s' = TicTacToe.draws TicTacToe.last_move.
Proof.
  apply (tictactoe_win_before_draw TicTacToe.last_move 11 8 1 (key_world 11)).
  - exact tictactoe_last_move_reachable.
  - reflexivity.
  - reflexivity.
  - reflexivity.
  - split; [discriminate|]. exists (0, 4, 8)%nat.
    split; [|repeat split].
    unfold TicTacToe.WIN_COMBOS. repeat constructor.
Defined.

(** A tone only moves the clock and the trace. *)
Lemma play_tone_done freq dur w :
  ∃ w', SoundManager.play_tone freq dur w = Done tt w' ∧
        key_events w' = key_events w ∧
        switch_polls w' = switch_polls w ∧
        trace w' = (if 0 <? volume w then [Tone freq dur] else []) ++ trace w.
Proof.
  unfold SoundManager.play_tone, SoundManager.enabled, bind.
  destruct (0 <? volume w).
  - unfold when, SoundManager.macropad_play_tone, bind, emit, sleep. simpl.
    eauto.
  - simpl. unfold ret. eauto.
Qed.

(** C10. In Tic-Tac-Toe, pressing a grid key whose cell is already occupied
    leaves the whole object unchanged (board, player to move, counters,
    score): with a game in progress [handle_key_press] does nothing but play
    the 200 Hz tone, and a tick of [update()] that receives such a press, the
    encoder switch not being pressed, returns with the object as it was,
    whether a game is in progress or not. *)
Theorem tictactoe_occupied_press_unchanged (s : TicTacToe.State)
    (key idx : nat) (v : Z) (w : World) :
  TicTacToe.index_of key TicTacToe.GRID_KEYS = Some idx →
  TicTacToe.board s !! idx = Some v →
  v ≠ 0 →
  (TicTacToe.game_active s = true →
   TicTacToe.handle_key_press key s w
     = (SoundManager.play_tone 200%Q 0.1%Q;; ret s) w ∧
   ∃ w', TicTacToe.handle_key_press key s w = Done s w') ∧
  (∀ q, key_events w = Some {| key_number := key; pressed := true |} :: q →
        head (switch_polls w) ≠ Some true →
        ∃ w', TicTacToe.update s w = Done (is_running (TicTacToe.base s), s) w').
Proof.
  intros Hidx Hcell Hv.
  assert (Hpress : TicTacToe.game_active s = true → ∀ w0,
            TicTacToe.handle_key_press key s w0
            = (SoundManager.play_tone 200%Q 0.1%Q;; ret s) w0).
  { intros Hact w0. unfold TicTacToe.handle_key_press.
    rewrite Hact, Hidx. cbn [negb]. unfold bind at 1.
    rewrite (tictactoe_cell _ _ _ _ Hcell).
    destruct (Z.eqb_spec v 0) as [E|_]; [contradiction|]. reflexivity. }
  assert (Htone : ∀ w0, ∃ w', (SoundManager.play_tone 200%Q 0.1%Q;; ret s) w0
                             = Done s w').
  { intros w0. destruct (play_tone_done 200%Q 0.1%Q w0) as (w' & E & _).
    unfold bind. rewrite E. eauto. }
  split.
  - intros Hact. split; [apply Hpress; exact Hact|].
    rewrite (Hpress Hact). apply Htone.
  - intros q Hq Hsw. unfold TicTacToe.update.
    destruct (is_running (TicTacToe.base s)) eqn:Hrun; cbn [negb].
    { assert (Hkey : ∃ w1,
        (if TicTacToe.game_active s
         then e <- events_get;;
              match pressed_key e with
              | Some k => TicTacToe.handle_key_press k s
              | None => ret s
              end
         else ret s) w = Done s w1 ∧ switch_polls w1 = switch_polls w).
      { destruct (TicTacToe.game_active s) eqn:Hact.
        - unfold bind at 1, events_get. rewrite Hq. simpl pressed_key.
          rewrite (Hpress eq_refl).
          destruct (play_tone_done 200%Q 0.1%Q (set_key_events q w))
            as (w' & E & _ & Hp & _).
          unfold bind. rewrite E. eauto.
        - exists w. split; reflexivity. }
      destruct Hkey as (w1 & E1 & Hpolls).
      unfold bind at 1. rewrite E1.
      unfold bind, switch_update, switch_is_pressed. rewrite Hpolls.
      destruct (switch_polls w) as [|p l]; simpl.
      - rewrite Hrun. eauto.
      - destruct p; [simpl in Hsw; congruence|]. rewrite Hrun. eauto. }
    exists w. reflexivity.
Qed.

Lemma tictactoe_occupied_press_unchanged_witness :
  (TicTacToe.game_active TicTacToe.last_move = true →
   TicTacToe.handle_key_press 3 TicTacToe.last_move (key_world 3)
     = (SoundManager.play_tone 200%Q 0.1%Q;; ret TicTacToe.last_move)
         (key_world 3) ∧
   ∃ w', TicTacToe.handle_key_press 3 TicTacToe.last_move (key_world 3)
         = Done TicTacToe.last_move w') ∧
  (∀ q, key_events (key_world 3)
          = Some {| key_number := 3; pressed := true |} :: q →
        head (switch_polls (key_world 3)) ≠ Some true →
        ∃ w', TicTacToe.update TicTacToe.last_move (key_world 3)
              = Done (is_running (TicTacToe.base TicTacToe.last_move),
                      TicTacToe.last_move) w').
Proof.
  apply (tictactoe_occupied_press_unchanged TicTacToe.last_move 3 0 1
           (key_world 3)).
  - reflexivity.
  - reflexivity.
  - discriminate.
Defined.

(** ** Computations that only drive the outputs *)

Lemma outputs_only_total m : outputs_only m → total m.
Proof.
  intros H w. destruct (H w) as (w' & E & _). unfold wp. rewrite E. exact I.
Qed.

Lemma outputs_only_ret : outputs_only (ret tt).
Proof. intros w. exists w. split; [reflexivity|]. split; [reflexivity|apply Qle_refl]. Qed.

Lemma outputs_only_seq m k :
  outputs_only m → outputs_only k → outputs_only (m;; k).
Proof.
  intros Hm Hk w. destruct (Hm w) as (w1 & E1 & I1 & C1).
  destruct (Hk w1) as (w2 & E2 & I2 & C2).
  exists w2. unfold bind. rewrite E1. split; [exact E2|].
  split; [congruence|]. eapply Qle_trans; eauto.
Qed.

Lemma outputs_only_sleep d : (0 <= d)%Q → outputs_only (sleep d).
Proof.
  intros Hd w. eexists. split; [reflexivity|]. split; [reflexivity|].
  simpl. rewrite <- (Qplus_0_r (clock w)) at 1.
  apply Qplus_le_r. exact Hd.
Qed.

Lemma outputs_only_emit e : outputs_only (emit e).
Proof.
  intros w. eexists. split; [reflexivity|]. split; [reflexivity|apply Qle_refl].
Qed.

Lemma outputs_only_when c m : outputs_only m → outputs_only (when c m).
Proof. intros H. destruct c; [exact H|apply outputs_only_ret]. Qed.

Lemma outputs_only_repeat_m n m : outputs_only m → outputs_only (repeat_m n m).
Proof.
  intros H. induction n as [|n IH]; simpl.
  - apply outputs_only_ret.
  - apply outputs_only_seq; assumption.
Qed.

Lemma outputs_only_for_each {A} (l : list A) (body : A → M unit) :
  (∀ x, x ∈ l → outputs_only (body x)) → outputs_only (for_each l body).
Proof.
  induction l as [|x l IH]; intros H; simpl.
  - apply outputs_only_ret.
  - apply outputs_only_seq.
    + apply H. left.
    + apply IH. intros y Hy. apply H. right. exact Hy.
Qed.

Lemma outputs_only_macropad_play_tone f d :
  (0 <= d)%Q → outputs_only (SoundManager.macropad_play_tone f d).
Proof.
  intros Hd. apply outputs_only_seq;
    [apply outputs_only_emit|apply outputs_only_sleep; exact Hd].
Qed.

Lemma outputs_only_play_tone f d :
  (0 <= d)%Q → outputs_only (SoundManager.play_tone f d).
Proof.
  intros Hd w. unfold SoundManager.play_tone, SoundManager.enabled, bind.
  destruct (0 <? volume w).
  - apply (outputs_only_macropad_play_tone f d Hd).
  - apply outputs_only_ret.
Qed.

Lemma outputs_only_play_sequence l :
  Forall (λ t, 0 <= snd t)%Q l → outputs_only (SoundManager.play_sequence l).
Proof.
  intros Hl w. unfold SoundManager.play_sequence, SoundManager.enabled, bind.
  destruct (0 <? volume w).
  - apply outputs_only_for_each. intros t Ht.
    apply outputs_only_macropad_play_tone.
    rewrite Forall_forall in Hl. apply Hl. exact Ht.
  - apply outputs_only_ret.
Qed.

Lemma outputs_only_play_correct : outputs_only SoundManager.play_correct.
Proof. apply outputs_only_play_sequence. repeat constructor; discriminate. Qed.

Lemma outputs_only_play_wrong : outputs_only SoundManager.play_wrong.
Proof. apply outputs_only_play_sequence. repeat constructor; discriminate. Qed.

Lemma outputs_only_play_level_up : outputs_only SoundManager.play_level_up.
Proof. apply outputs_only_play_sequence. repeat constructor; discriminate. Qed.

Lemma outputs_only_play_key_tone k :
  outputs_only (SoundManager.play_key_tone k).
Proof. apply outputs_only_play_tone. discriminate. Qed.

Lemma outputs_only_set_key k c :
  (k < 12)%nat → outputs_only (LEDManager.set_key k c).
Proof.
  intros H. unfold LEDManager.set_key. apply Nat.ltb_lt in H. rewrite H.
  apply outputs_only_emit.
Qed.

Lemma outputs_only_set_all c : outputs_only (LEDManager.set_all c).
Proof. apply outputs_only_emit. Qed.

Lemma outputs_only_clear_all : outputs_only LEDManager.clear_all.
Proof. apply outputs_only_emit. Qed.

Lemma outputs_only_flash_all c n a b :
  (0 <= a)%Q → (0 <= b)%Q → outputs_only (LEDManager.flash_all c n a b).
Proof.
  intros Ha Hb. apply outputs_only_repeat_m.
  repeat apply outputs_only_seq;
    auto using outputs_only_set_all, outputs_only_clear_all,
               outputs_only_sleep.
Qed.


Lemma outputs_only_sweep_animation c :
  outputs_only (LEDManager.sweep_animation c).
Proof.
  unfold LEDManager.sweep_animation.
  apply outputs_only_seq; apply outputs_only_for_each; intros i Hi;
    (apply outputs_only_seq;
      [apply outputs_only_set_key|apply outputs_only_sleep; discriminate]);
    apply elem_of_seq in Hi; lia.
Qed.

Create HintDb outputs.

#[local] Hint Resolve outputs_only_ret outputs_only_emit outputs_only_set_all
  outputs_only_clear_all outputs_only_play_correct outputs_only_play_wrong
  outputs_only_play_level_up outputs_only_play_key_tone
  outputs_only_sweep_animation : outputs.

(** *** Waiting for the encoder switch *)

Lemma wait_loop_returns l : ∀ w,
  switch_polls w = l → (∃ n, l !! n = Some true) →
  ∃ w', wait_loop (length l) w = Done tt w'.
Proof.
  induction l as [|p l IH]; intros w Hw [n Hn].
  - destruct n; discriminate Hn.
  - simpl. unfold bind, switch_update, switch_is_pressed. rewrite Hw. simpl.
    destruct p.
    + eauto.
    + unfold sleep. simpl. apply IH; [reflexivity|].
      destruct n as [|n]; [discriminate Hn|]. exists n. exact Hn.
Qed.

(** [wait_for_continue] returns once the player presses the switch. *)
Lemma wait_for_continue_returns w :
  press_pending w → ∃ w', wait_for_continue w = Done tt w'.
Proof.
  intros Hp. unfold wait_for_continue, bind, switch_update.
  destruct (switch_polls w) as [|p l] eqn:E.
  - destruct Hp as [n Hn]. rewrite E in Hn. destruct n; discriminate Hn.
  - simpl. apply wait_loop_returns; [reflexivity|].
    unfold press_pending in Hp. rewrite E in Hp. exact Hp.
Qed.

Lemma press_pending_inputs w w' :
  inputs w' = inputs w → press_pending w → press_pending w'.
Proof.
  unfold inputs, press_pending. intros [= _ _ H _ _ _ _ _]. rewrite H. auto.
Qed.

(** An output-only prelude does not delay a computation that returns as soon
    as the switch is pressed. *)
Lemma wp_seq_outputs {A} (m : M unit) (k : M A) (Q : A → World → Prop) w :
  outputs_only m →
  (∀ w', inputs w' = inputs w → (clock w <= clock w')%Q → wp k Q w') →
  wp (m;; k) Q w.
Proof.
  intros Hm Hk. destruct (Hm w) as (w1 & E & Hi & Hc).
  unfold wp, bind. rewrite E. apply Hk; assumption.
Qed.

(** ** Simon Says *)

Lemma choice_spec {A} (l : list A) w :
  l ≠ [] → wp (choice l) (λ x w', x ∈ l ∧ inputs w' = inputs (set_rng (tail (rng w)) w)
                                   ∧ clock w' = clock w) w.
Proof.
  intros Hl. unfold choice, wp, bind, rand_below.
  assert (Hlen : (0 < length l)%nat) by (destruct l; [congruence|simpl; lia]).
  destruct (rng w) as [|r q] eqn:E.
  - destruct (lookup_lt_is_Some_2 l 0 Hlen) as [x Hx]. rewrite Hx.
    split; [eapply list_elem_of_lookup_2; eauto|].
    split; [|reflexivity]. unfold inputs. simpl. rewrite E. reflexivity.
  - assert (Hr : (r `mod` length l < length l)%nat)
      by (apply Nat.mod_upper_bound; lia).
    destruct (lookup_lt_is_Some_2 l _ Hr) as [x Hx]. simpl. rewrite Hx.
    split; [eapply list_elem_of_lookup_2; eauto|].
    split; reflexivity.
Qed.

Lemma simon_key_color key :
  key ∈ SimonSays.SIMON_KEYS →
  (key < 12)%nat ∧ ∃ c, SimonSays.SIMON_COLORS key = Some c.
Proof.
  unfold SimonSays.SIMON_KEYS. intros H.
  repeat (apply elem_of_cons in H as [->|H]; [split; [lia|simpl; eauto]|]).
  apply elem_of_nil in H. destruct H.
Qed.

Lemma simon_show_key_outputs key (body : Color → M unit) :
  key ∈ SimonSays.SIMON_KEYS →
  (∀ c, outputs_only (body c)) →
  outputs_only (c <- SimonSays.color_of key;; body c).
Proof.
  intros Hk Hb w. destruct (simon_key_color key Hk) as (_ & c & Ec).
  unfold bind, SimonSays.color_of. rewrite Ec. apply Hb.
Qed.

Lemma simon_hints_outputs :
  outputs_only (for_each SimonSays.SIMON_KEYS (λ key,
    color_rgb <- SimonSays.color_of key;;
    LEDManager.set_key key (SimonSays.dim color_rgb))).
Proof.
  apply outputs_only_for_each. intros key Hk.
  apply simon_show_key_outputs; [exact Hk|]. intros c.
  apply outputs_only_set_key. apply simon_key_color. exact Hk.
Qed.

Lemma simon_show_key_total key (body : Color → M unit) :
  key ∈ SimonSays.SIMON_KEYS →
  (∀ c, total (body c)) →
  total (c <- SimonSays.color_of key;; body c).
Proof.
  intros Hk Hb w. destruct (simon_key_color key Hk) as (_ & c & Ec).
  unfold wp, bind, SimonSays.color_of. rewrite Ec. apply Hb.
Qed.

(** [_play_sequence] shows the sequence and opens the input phase at
    position 0. *)
Lemma simon_play_sequence_spec s w :
  Forall (λ k, k ∈ SimonSays.SIMON_KEYS) (SimonSays.sequence s) →
  wp (SimonSays._play_sequence s)
     (λ s' w', ∃ now,
        s' = {| SimonSays.base := SimonSays.base s;
                SimonSays.sequence := SimonSays.sequence s;
                SimonSays.player_position := 0;
                SimonSays.current_display_time :=
                  SimonSays.current_display_time s;
                SimonSays.waiting_for_input := true;
                SimonSays.input_start_time := Some now |})
     w.
Proof.
  intros Hseq. unfold SimonSays._play_sequence.
  apply wp_seq_total; [apply total_sleep|].
  intros w1. apply wp_seq_total.
  { apply total_for_each. intros key Hk.
    rewrite Forall_forall in Hseq. specialize (Hseq key Hk).
    apply simon_show_key_total; [exact Hseq|]. intros c.
    destruct (simon_key_color key Hseq) as [Hlt _].
    repeat (apply total_bind; [|intros _]);
      auto using total_set_key with total. }
  intros w2. apply wp_bind. unfold wp at 1. simpl.
  apply wp_seq_total.
  { apply outputs_only_total. apply simon_hints_outputs. }
  intros w3. apply wp_ret. eexists. reflexivity.
Qed.

Lemma simon_add_to_sequence_spec s w :
  wp (SimonSays._add_to_sequence s)
     (λ s' w', ∃ new_key, new_key ∈ SimonSays.SIMON_KEYS ∧
        s' = {| SimonSays.base := SimonSays.base s;
                SimonSays.sequence := SimonSays.sequence s ++ [new_key];
                SimonSays.player_position := SimonSays.player_position s;
                SimonSays.current_display_time :=
                  SimonSays.current_display_time s;
                SimonSays.waiting_for_input := SimonSays.waiting_for_input s;
                SimonSays.input_start_time := SimonSays.input_start_time s |})
     w.
Proof.
  unfold SimonSays._add_to_sequence. apply wp_bind.
  eapply wp_mono; [apply choice_spec; discriminate|].
  intros k w' (Hk & _). apply wp_ret. eauto.
Qed.

Lemma simon_level_complete_spec s w :
  Forall (λ k, k ∈ SimonSays.SIMON_KEYS) (SimonSays.sequence s) →
  wp (SimonSays._handle_level_complete s) (λ s' _, simon_advanced s s') w.
Proof.
  intros Hseq. unfold SimonSays._handle_level_complete.
  apply wp_seq_total; [auto with total|]. intros w1.
  apply wp_seq_total; [auto with total|]. intros w2.
  apply wp_seq_total; [auto with total|]. intros w3.
  apply wp_seq_total; [apply total_sleep|]. intros w4.
  apply wp_bind.
  destruct (_ =? 0);
    (eapply wp_mono; [apply simon_add_to_sequence_spec|];
     intros s2 w5 (k & Hk & ->);
     eapply wp_mono;
     [apply simon_play_sequence_spec; simpl; apply Forall_app;
      split; [exact Hseq|constructor; [exact Hk|constructor]]
     |intros s3 w6 (now & ->); exists k; simpl; repeat split; auto]).
Qed.

(** A correct key: one position further, or the next level when that was
    the last key of the sequence. *)
Lemma simon_correct_input_spec key s w :
  SimonSays.awaiting s →
  key ∈ SimonSays.SIMON_KEYS →
  wp (SimonSays._handle_correct_input key s)
     (λ s' _,
        if decide (SimonSays.player_position s + 1
                   < length (SimonSays.sequence s))%nat
        then simon_repeating s s' (SimonSays.player_position s + 1)
        else simon_advanced s s') w.
Proof.
  intros (Hwait & Hpos & Hseq) Hkey.
  destruct (simon_key_color key Hkey) as (Hlt & c & Ec).
  unfold SimonSays._handle_correct_input.
  apply wp_bind. unfold wp at 1, SimonSays.color_of. rewrite Ec.
  apply wp_seq_total; [apply total_set_key; exact Hlt|]. intros w1.
  apply wp_seq_total; [auto with total|]. intros w2.
  apply wp_seq_total; [auto with total|]. intros w3.
  apply wp_seq_total; [apply total_set_key; exact Hlt|]. intros w4.
  apply wp_bind. unfold wp at 1. simpl.
  destruct (Nat.leb_spec (length (SimonSays.sequence s))
                         (SimonSays.player_position s + 1)) as [Hdone|Hmore].
  - destruct (decide _) as [Hlt'|_]; [lia|].
    eapply wp_mono; [apply simon_level_complete_spec; exact Hseq|].
    intros s' w' H. exact H.
  - destruct (decide _) as [_|Hge]; [|lia].
    apply wp_ret. repeat split; auto.
Qed.

(** The game-over screen waits for the encoder switch. *)
Lemma simon_game_over_spec s w :
  wlp (SimonSays._handle_game_over s) (λ s' _, simon_over s s') w ∧
  (press_pending w →
   wp (SimonSays._handle_game_over s) (λ s' _, simon_over s s') w).
Proof.
  assert (Hover : simon_over s
    (SimonSays.set_base
       (update_high_score
          (SimonSays.base (SimonSays.set_base
             (set_flags false true (SimonSays.base s)) s)))
       (SimonSays.set_base (set_flags false true (SimonSays.base s)) s))).
  { unfold simon_over, update_high_score. simpl.
    destruct (_ >? _); simpl; auto. }
  unfold SimonSays._handle_game_over. split.
  - apply wlp_seq. intros w1. apply wlp_seq. intros w2. apply wlp_ret.
    exact Hover.
  - intros Hp. apply wp_seq_outputs.
    { apply outputs_only_flash_all; discriminate. }
    intros w1 I1 _.
    destruct (wait_for_continue_returns w1) as (w2 & E).
    { eapply press_pending_inputs; eauto. }
    unfold wp, bind. rewrite E. exact Hover.
Qed.

Lemma simon_wrong_input_spec key expected s w :
  (key < 12)%nat → (expected < 12)%nat →
  wlp (SimonSays._handle_wrong_input key expected s)
      (λ s' _, simon_over s s') w ∧
  (press_pending w →
   wp (SimonSays._handle_wrong_input key expected s)
      (λ s' _, simon_over s s') w).
Proof.
  intros Hk He. unfold SimonSays._handle_wrong_input. split.
  - do 5 (apply wlp_seq; intros ?). apply (proj1 (simon_game_over_spec _ _)).
  - intros Hp. apply wp_seq_outputs.
    { repeat apply outputs_only_seq;
        auto using outputs_only_set_key with outputs. }
    intros w1 I1 _. apply wp_seq_outputs.
    { repeat apply outputs_only_seq;
        auto using outputs_only_set_key with outputs. }
    intros w2 I2 _. apply wp_seq_outputs.
    { apply outputs_only_set_key. exact He. }
    intros w3 I3 _. apply wp_seq_outputs; [auto with outputs|].
    intros w4 I4 _. apply wp_seq_outputs.
    { apply outputs_only_sleep. discriminate. }
    intros w5 I5 _. apply (proj2 (simon_game_over_spec _ _)).
    eapply press_pending_inputs; [|exact Hp]. congruence.
Qed.

Lemma simon_press_simon_key key s :
  SimonSays.awaiting s →
  key ∈ SimonSays.SIMON_KEYS →
  ∃ expected,
    SimonSays.sequence s !! SimonSays.player_position s = Some expected ∧
    (expected < 12)%nat ∧
    SimonSays.handle_key_press key s
    = if (key =? expected)%nat
      then SimonSays._handle_correct_input key s
      else SimonSays._handle_wrong_input key expected s.
Proof.
  intros (Hwait & Hpos & Hseq) Hkey.
  destruct (lookup_lt_is_Some_2 _ _ Hpos) as [expected He].
  exists expected. split; [exact He|]. split.
  - rewrite Forall_forall in Hseq. apply simon_key_color.
    apply Hseq. eapply list_elem_of_lookup_2; eauto.
  - unfold SimonSays.handle_key_press. rewrite Hwait. cbn [negb].
    unfold SimonSays.is_simon_key. rewrite bool_decide_eq_true_2 by exact Hkey.
    cbn [negb]. rewrite He. reflexivity.
Qed.

Lemma simon_press_correct key s w :
  SimonSays.awaiting s →
  SimonSays.sequence s !! SimonSays.player_position s = Some key →
  wp (SimonSays.handle_key_press key s)
     (λ s' _,
        if decide (SimonSays.player_position s + 1
                   < length (SimonSays.sequence s))%nat
        then simon_repeating s s' (SimonSays.player_position s + 1)
        else simon_advanced s s') w.
Proof.
  intros Haw Hk.
  assert (Hkey : key ∈ SimonSays.SIMON_KEYS).
  { destruct Haw as (_ & _ & Hseq). rewrite Forall_forall in Hseq.
    apply Hseq. eapply list_elem_of_lookup_2; eauto. }
  destruct (simon_press_simon_key key s Haw Hkey) as (e & He & _ & ->).
  rewrite Hk in He. injection He as <-. rewrite Nat.eqb_refl.
  apply simon_correct_input_spec; assumption.
Qed.

(** Repeating the sequence from position [p]: the first [k] keys leave the
    game in the same level as long as keys remain, and the key that brings
    the position to the length of the sequence advances the level. *)
Lemma simon_press_keys_spec k : ∀ s w,
  SimonSays.awaiting s →
  (SimonSays.player_position s + k ≤ length (SimonSays.sequence s))%nat →
  wp (SimonSays.press_keys
        (take k (drop (SimonSays.player_position s) (SimonSays.sequence s))) s)
     (λ s' _,
        if decide (SimonSays.player_position s + k
                   < length (SimonSays.sequence s))%nat
        then simon_repeating s s' (SimonSays.player_position s + k)
        else simon_advanced s s') w.
Proof.
  induction k as [|k IH]; intros s w Haw Hle.
  - simpl. apply wp_ret. destruct Haw as (Hw & Hp & Hseq).
    destruct (decide _) as [_|Hn]; [|lia].
    repeat split; auto.
  - pose proof Haw as (Hw & Hp & Hseq).
    destruct (lookup_lt_is_Some_2 _ _ Hp) as [key Hkey].
    rewrite (drop_S _ _ _ Hkey). simpl.
    apply wp_bind.
    eapply wp_mono; [apply simon_press_correct; eassumption|].
    intros s1 w1 H1. simpl in H1.
    destruct (decide (SimonSays.player_position s + 1
                      < length (SimonSays.sequence s))%nat) as [Hlt|Hge].
    + destruct H1 as (Hs1 & Hp1 & Hw1 & Hb1).
      assert (Haw1 : SimonSays.awaiting s1).
      { split; [exact Hw1|]. rewrite Hs1, Hp1. split; [lia|exact Hseq]. }
      replace (S (SimonSays.player_position s))
        with (SimonSays.player_position s1) by lia.
      rewrite <- Hs1.
      eapply wp_mono; [apply IH; [exact Haw1|rewrite Hs1, Hp1; lia]|].
      intros s2 w2 H2. simpl in H2. rewrite Hs1, Hp1 in H2.
      replace (SimonSays.player_position s + 1 + k)%nat
        with (SimonSays.player_position s + S k)%nat in H2 by lia.
      rewrite ?Hs1.
      destruct (decide _).
      * destruct H2 as (A & B & C & D). repeat split; congruence.
      * destruct H2 as (nk & A & B & C & D & E & F & G). exists nk.
        rewrite Hs1, Hb1 in *. repeat split; auto.
    + assert (k = 0%nat) by lia. subst k. rewrite take_0. simpl.
      apply wp_ret. destruct (decide _); [lia|]. exact H1.
Qed.

(** X1. In Simon Says, while a sequence of length [n] is being repeated from
    position [p]: the key expected at [p] moves the player to [p + 1], and
    the level advances (score [n], one more step appended, replay from the
    top) precisely when that brings the position to [n]; any other Simon key
    ends the game at once (the call returns, with the game over, as soon as
    the game-over screen is acknowledged); so from position 0 the first
    [k < n] keys of the sequence do not advance the level and all [n] of them,
    in order, do. *)
Theorem simon_says_exact_sequence (s : SimonSays.State) (key : nat)
    (w : World) :
  SimonSays.awaiting s →
  key ∈ SimonSays.SIMON_KEYS →
  let n := length (SimonSays.sequence s) in
  let p := SimonSays.player_position s in
  (SimonSays.sequence s !! p = Some key →
   wp (SimonSays.handle_key_press key s)
      (λ s' _, if decide (p + 1 < n)%nat then simon_repeating s s' (p + 1)
               else simon_advanced s s') w) ∧
  (SimonSays.sequence s !! p ≠ Some key →
   wlp (SimonSays.handle_key_press key s) (λ s' _, simon_over s s') w ∧
   (press_pending w →
    wp (SimonSays.handle_key_press key s) (λ s' _, simon_over s s') w)) ∧
  (p = 0%nat → ∀ k, (k ≤ n)%nat →
   wp (SimonSays.press_keys (take k (SimonSays.sequence s)) s)
      (λ s' _, if decide (k < n)%nat then simon_repeating s s' k
               else simon_advanced s s') w).
Proof.
  intros Haw Hkey n p. split; [|split].
  - intros Hk. apply simon_press_correct; assumption.
  - intros Hne.
    destruct (simon_press_simon_key key s Haw Hkey) as (e & He & Hlt & ->).
    destruct (Nat.eqb_spec key e) as [->|_]; [contradiction|].
    apply simon_wrong_input_spec; [|exact Hlt].
    apply (proj1 (simon_key_color _ Hkey)).
  - intros Hp0 k Hk.
    pose proof (simon_press_keys_spec k s w Haw) as H.
    fold p in H. rewrite Hp0 in H. simpl in H. apply H. exact Hk.
Qed.

Lemma simon_says_exact_sequence_witness :
  let s := SimonSays.level_two in
  let w := quiet_world 0 in
  (SimonSays.sequence s !! 0%nat = Some 0%nat →
   wp (SimonSays.handle_key_press 0 s)
      (λ s' _, if decide (0 + 1 < 2)%nat then simon_repeating s s' (0 + 1)
               else simon_advanced s s') w) ∧
  (SimonSays.sequence s !! 0%nat ≠ Some 0%nat →
   wlp (SimonSays.handle_key_press 0 s) (λ s' _, simon_over s s') w ∧
   (press_pending w →
    wp (SimonSays.handle_key_press 0 s) (λ s' _, simon_over s s') w)) ∧
  (0%nat = 0%nat → ∀ k, (k ≤ 2)%nat →
   wp (SimonSays.press_keys (take k (SimonSays.sequence s)) s)
      (λ s' _, if decide (k < 2)%nat then simon_repeating s s' k
               else simon_advanced s s') w).
Proof.
  apply (simon_says_exact_sequence SimonSays.level_two 0 (quiet_world 0)).
  - split; [reflexivity|]. split; [simpl; lia|].
    unfold SimonSays.SIMON_KEYS. repeat constructor.
  - unfold SimonSays.SIMON_KEYS. constructor.
Defined.

(** ** Waiting for the encoder switch, exactly *)

Lemma wait_loop_spec n : ∀ fuel rest w,
  switch_polls w = replicate n false ++ true :: rest →
  (n < fuel)%nat →
  ∃ w', wait_loop fuel w = Done tt w' ∧
        switch_polls w' = rest ∧ switch_pressed w' = true ∧
        beside_switch w' = beside_switch w ∧
        (clock w' == clock w + inject_Z (Z.of_nat n) * 0.05)%Q.
Proof.
  induction n as [|n IH]; intros fuel rest w Hp Hfuel;
    (destruct fuel as [|fuel]; [lia|]).
  - simpl in Hp. simpl. unfold bind, switch_update. rewrite Hp. simpl.
    eexists. split; [reflexivity|]. simpl. repeat split. ring.
  - simpl in Hp. simpl wait_loop. unfold bind at 1, switch_update.
    rewrite Hp. unfold bind at 1, switch_is_pressed. simpl switch_pressed.
    cbv iota. unfold bind at 1, sleep.
    destruct (IH fuel rest
                (set_clock (clock (set_switch false
                                     (replicate n false ++ true :: rest) w)
                            + 0.05)
                   (lags (set_switch false
                            (replicate n false ++ true :: rest) w))
                   (set_switch false (replicate n false ++ true :: rest) w)))
      as (w' & E & H1 & H2 & H3 & H4); [reflexivity|lia|].
    exists w'. split; [exact E|]. split; [exact H1|]. split; [exact H2|].
    split; [rewrite H3; reflexivity|].
    rewrite H4. simpl clock. rewrite Nat2Z.inj_succ.
    unfold Z.succ. rewrite inject_Z_plus. ring.
Qed.

(** [wait_for_continue] throws the first poll away, sleeps 50 ms after each
    idle poll and returns at the first press. *)
Lemma wait_for_continue_spec p0 n rest w :
  switch_polls w = p0 :: replicate n false ++ true :: rest →
  ∃ w', wait_for_continue w = Done tt w' ∧
        switch_polls w' = rest ∧ switch_pressed w' = true ∧
        beside_switch w' = beside_switch w ∧
        (clock w' == clock w + inject_Z (Z.of_nat n) * 0.05)%Q.
Proof.
  intros Hp. unfold wait_for_continue, bind at 1, switch_update.
  rewrite Hp. simpl tail.
  destruct (wait_loop_spec n (length (replicate n false ++ true :: rest)) rest
              (set_switch p0 (replicate n false ++ true :: rest) w))
    as (w' & E & H); [reflexivity| |].
  - rewrite length_app, length_replicate. simpl. lia.
  - exists w'. split; [exact E|exact H].
Qed.

Lemma wait_loop_hangs l : ∀ w,
  switch_polls w = l → Forall (λ p, p = false) l →
  wait_loop (length l) w = Hang.
Proof.
  induction l as [|p l IH]; intros w Hp Hall; [reflexivity|].
  apply Forall_cons in Hall as [-> Hall].
  simpl. unfold bind at 1, switch_update. rewrite Hp.
  unfold bind at 1, switch_is_pressed. cbn [switch_pressed set_switch].
  unfold bind at 1, sleep. apply IH; [reflexivity|exact Hall].
Qed.

(** X9. [wait_for_continue] of the base class polls the debounced encoder
    switch every 50 ms.  A press reported by the first poll does not count:
    the call returns at the first press after it, having slept 50 ms per
    idle poll and touched nothing but the switch and the clock; when no
    later poll reports a press, it never returns. *)
Theorem wait_for_continue_exact (w : World) :
  (∀ p0 n rest, switch_polls w = p0 :: replicate n false ++ true :: rest →
     ∃ w', wait_for_continue w = Done tt w' ∧
           switch_polls w' = rest ∧ switch_pressed w' = true ∧
           beside_switch w' = beside_switch w ∧
           (clock w' == clock w + inject_Z (Z.of_nat n) * 0.05)%Q) ∧
  (¬ press_pending w → wait_for_continue w = Hang).
Proof.
  split.
  - intros p0 n rest Hp. exact (wait_for_continue_spec p0 n rest w Hp).
  - intros Hno. unfold wait_for_continue, bind at 1, switch_update.
    assert (Hall : Forall (λ p, p = false) (tail (switch_polls w))).
    { apply Forall_forall. intros p Hp. destruct p; [|reflexivity].
      exfalso. apply Hno. apply list_elem_of_lookup_1 in Hp as [n Hn].
      exists n. exact Hn. }
    destruct (switch_polls w) as [|p0 l] eqn:E; [reflexivity|].
    simpl tail in *. apply wait_loop_hangs; [reflexivity|exact Hall].
Qed.

(** ** Reaction Timer *)

Lemma wp_monotonic (Q : Q → World → Prop) w :
  Q (clock w + next_lag (lags w))%Q
    (set_clock (clock w + next_lag (lags w))%Q (tail (lags w)) w) →
  wp monotonic Q w.
Proof. intros H. exact H. Qed.

Lemma wp_events_get (Q : option KeyEvent → World → Prop) e q w :
  key_events w = e :: q → Q e (set_key_events q w) → wp events_get Q w.
Proof. intros E H. unfold wp, events_get. rewrite E. exact H. Qed.

Lemma wp_events_get_none (Q : option KeyEvent → World → Prop) w :
  key_events w = [] → Q None w → wp events_get Q w.
Proof. intros E H. unfold wp, events_get. rewrite E. exact H. Qed.

Lemma total_uniform a b : total (uniform a b).
Proof. intros w. unfold wp, uniform. destruct (rng_unit w); exact I. Qed.

Lemma reaction_start_round_spec s w :
  wp (ReactionTimer._start_round s)
     (λ s' _, reaction_next_round (ReactionTimer.reaction_times s) s s') w.
Proof.
  unfold ReactionTimer._start_round.
  apply wp_seq_total; [auto with total|]. intros w1.
  apply wp_bind. eapply wp_mono; [apply total_uniform|]. intros wt w2 _.
  apply wp_bind. apply wp_monotonic.
  apply wp_bind. unfold wp at 1, ReactionTimer.drain_events.
  apply wp_ret. repeat split.
Qed.

Lemma reaction_game_over_spec s w :
  wlp (ReactionTimer._handle_game_over s)
      (λ s' _, reaction_over (ReactionTimer.reaction_times s) s s') w ∧
  (press_pending w →
   wp (ReactionTimer._handle_game_over s)
      (λ s' _, reaction_over (ReactionTimer.reaction_times s) s s') w).
Proof.
  set (s1 := ReactionTimer.set_base
               (set_score
                  (ReactionTimer.final_score (ReactionTimer.reaction_times s))
                  (set_flags false true (ReactionTimer.base s))) s).
  assert (Hover : reaction_over (ReactionTimer.reaction_times s) s
            (ReactionTimer.set_base
               (update_high_score (ReactionTimer.base s1)) s1)).
  { unfold reaction_over, update_high_score. simpl.
    destruct (_ >? _); simpl; auto. }
  unfold ReactionTimer._handle_game_over. split.
  - apply wlp_seq. intros w1. apply wlp_seq. intros w2. apply wlp_ret.
    exact Hover.
  - intros Hp. apply wp_seq_outputs; [auto with outputs|].
    intros w1 I1 _.
    destruct (wait_for_continue_returns w1) as (w2 & E).
    { eapply press_pending_inputs; eauto. }
    unfold wp, bind. rewrite E. exact Hover.
Qed.

Lemma reaction_handle_false_start_spec s w :
  let times := ReactionTimer.reaction_times s ++ [1000%Q] in
  (ReactionTimer.round s < 5 →
   wp (ReactionTimer._handle_false_start s)
      (λ s' _, reaction_next_round times s s') w) ∧
  (5 ≤ ReactionTimer.round s →
   wlp (ReactionTimer._handle_false_start s)
       (λ s' _, reaction_over times s s') w ∧
   (press_pending w →
    wp (ReactionTimer._handle_false_start s)
       (λ s' _, reaction_over times s s') w)).
Proof.
  intros times. unfold ReactionTimer._handle_false_start.
  unfold ReactionTimer.NUM_ROUNDS. cbn [ReactionTimer.round].
  split; [intros Hlt|intros Hge; split; [|intros Hp]].
  - destruct (Z.leb_spec 5 (ReactionTimer.round s)) as [?|_]; [lia|].
    apply wp_seq_total; [auto with total|]. intros w1.
    apply wp_seq_total; [auto with total|]. intros w2.
    apply wp_seq_total; [auto with total|]. intros w3.
    eapply wp_mono; [apply reaction_start_round_spec|].
    intros s' w' H. exact H.
  - destruct (Z.leb_spec 5 (ReactionTimer.round s)) as [_|?]; [|lia].
    do 3 (apply wlp_seq; intros ?).
    eapply wlp_mono; [apply (proj1 (reaction_game_over_spec _ _))|].
    intros s' ? H. exact H.
  - destruct (Z.leb_spec 5 (ReactionTimer.round s)) as [_|?]; [|lia].
    apply wp_seq_outputs; [auto with outputs|]. intros w1 I1 _.
    apply wp_seq_outputs; [auto with outputs|]. intros w2 I2 _.
    apply wp_seq_outputs; [apply outputs_only_sleep; discriminate|].
    intros w3 I3 _.
    eapply wp_mono; [apply (proj2 (reaction_game_over_spec _ _))|].
    + eapply press_pending_inputs; [|exact Hp]. congruence.
    + intros s' w' H. exact H.
Qed.

(** X2. Reaction Timer, a key pressed while the lights are still yellow (a
    false start): the tick records 1000 ms for the round and returns [True].
    Before the fifth round the next round begins (round counter one higher,
    waiting for green again, score and flags untouched); in the fifth round
    or later the game ends instead, with the score computed from the
    recorded times, once the results screen is acknowledged - and the tick
    still returns [True]. *)
Theorem reaction_false_start (s : ReactionTimer.State) (e : KeyEvent)
    (q : list (option KeyEvent)) (w : World) :
  is_running (ReactionTimer.base s) = true →
  ReactionTimer.waiting_for_green s = true →
  key_events w = Some e :: q →
  pressed e = true →
  let times := ReactionTimer.reaction_times s ++ [1000%Q] in
  (ReactionTimer.round s < 5 →
   wp (ReactionTimer.update s)
      (λ r _, r.1 = true ∧ reaction_next_round times s r.2) w) ∧
  (5 ≤ ReactionTimer.round s →
   wlp (ReactionTimer.update s)
       (λ r _, r.1 = true ∧ reaction_over times s r.2) w ∧
   (press_pending w →
    wp (ReactionTimer.update s)
       (λ r _, r.1 = true ∧ reaction_over times s r.2) w)).
Proof.
  intros Hrun Hgreen Hq Hpr times.
  assert (Htick : ∀ t w0,
    ReactionTimer.round_tick t (Some e) s w0
    = (s' <- ReactionTimer._handle_false_start s;; ret (Some true, s')) w0).
  { intros t w0. unfold ReactionTimer.round_tick. rewrite Hgreen.
    unfold pressed_key. rewrite Hpr. reflexivity. }
  assert (Hupd : ∀ (P : bool * ReactionTimer.State → World → Prop) w1,
    w1 = set_key_events q
           (set_clock (clock w + next_lag (lags w))%Q (tail (lags w)) w) →
    ReactionTimer.update s w
    = (s' <- ReactionTimer._handle_false_start s;; ret (true, s')) w1).
  { intros _ w1 ->. unfold ReactionTimer.update. rewrite Hrun. cbn [negb].
    unfold bind at 1, monotonic. unfold bind at 1, events_get.
    cbn [key_events set_clock]. rewrite Hq.
    unfold bind at 1. rewrite Htick. unfold bind.
    destruct (ReactionTimer._handle_false_start s _); reflexivity. }
  pose proof (reaction_handle_false_start_spec s
    (set_key_events q
       (set_clock (clock w + next_lag (lags w))%Q (tail (lags w)) w)))
    as [Hnext Hover].
  split; [intros Hlt|intros Hge; split; [|intros Hp]].
  - unfold wp. rewrite (Hupd (λ _ _, True) _ eq_refl).
    specialize (Hnext Hlt). unfold wp in Hnext. unfold bind.
    destruct (ReactionTimer._handle_false_start s _); try contradiction.
    simpl. auto.
  - unfold wlp. rewrite (Hupd (λ _ _, True) _ eq_refl).
    destruct (Hover Hge) as [Hw _]. unfold wlp in Hw. unfold bind.
    destruct (ReactionTimer._handle_false_start s _); try exact I.
    simpl. auto.
  - unfold wp. rewrite (Hupd (λ _ _, True) _ eq_refl).
    destruct (Hover Hge) as [_ Hw]. specialize (Hw Hp).
    unfold wp in Hw. unfold bind.
    destruct (ReactionTimer._handle_false_start s _); try contradiction.
    simpl. auto.
Qed.

Lemma reaction_false_start_witness :
  let s := ReactionTimer.first_round in
  let w := key_world 5 in
  (ReactionTimer.round s < 5 →
   wp (ReactionTimer.update s)
      (λ r _, r.1 = true ∧ reaction_next_round [1000%Q] s r.2) w) ∧
  (5 ≤ ReactionTimer.round s →
   wlp (ReactionTimer.update s)
       (λ r _, r.1 = true ∧ reaction_over [1000%Q] s r.2) w ∧
   (press_pending w →
    wp (ReactionTimer.update s)
       (λ r _, r.1 = true ∧ reaction_over [1000%Q] s r.2) w)).
Proof.
  apply (reaction_false_start ReactionTimer.first_round
           {| key_number := 5; pressed := true |} [] (key_world 5));
    reflexivity.
Defined.

(** *** The final score *)

Lemma pyint_le (x : Q) (n : Z) : 0 ≤ n → (x <= inject_Z n)%Q → pyint x ≤ n.
Proof.
  destruct x as [a b]. unfold pyint, Qle. simpl. intros Hn H.
  destruct (Z_lt_le_dec a 0) as [Ha|Ha].
  - replace a with (- - a) by lia. rewrite Z.quot_opp_l by lia.
    pose proof (Z.quot_pos (- a) (Z.pos b)). lia.
  - rewrite Z.quot_div_nonneg by lia.
    apply Z.div_le_upper_bound; lia.
Qed.

Lemma reaction_sum_times_nonneg l :
  Forall (λ t, 0 <= t)%Q l → (0 <= ReactionTimer.sum_times l)%Q.
Proof.
  induction 1 as [|t l Ht _ IH]; simpl; [discriminate|].
  unfold ReactionTimer.sum_times in *. simpl. lra.
Qed.

Lemma reaction_valid_times_sub P l :
  Forall P l → Forall P (ReactionTimer.valid_times l).
Proof.
  unfold ReactionTimer.valid_times. rewrite !Forall_forall.
  intros H t Ht. apply list_elem_of_filter in Ht as [_ Ht]. auto.
Qed.

Lemma reaction_valid_times_none l :
  Forall (λ t, 999 <= t)%Q l → ReactionTimer.valid_times l = [].
Proof.
  unfold ReactionTimer.valid_times.
  induction 1 as [|t l Ht _ IH]; [reflexivity|].
  rewrite filter_cons_False; [exact IH|].
  intros E. apply Qltb_lt in E. lra.
Qed.

Lemma reaction_avg_time_nonneg l :
  Forall (λ t, 0 <= t)%Q l → (0 <= ReactionTimer.avg_time l)%Q.
Proof.
  intros H. unfold ReactionTimer.avg_time.
  pose proof (reaction_sum_times_nonneg _
                (reaction_valid_times_sub _ _ H)) as Hs.
  destruct (ReactionTimer.valid_times l) as [|t v] eqn:E; [discriminate|].
  apply Qle_shift_div_l.
  - change 0%Q with (inject_Z 0). rewrite <- Zlt_Qlt.
    simpl length. lia.
  - lra.
Qed.

(** X3. Reaction Timer, the score of a finished game,
    [max(0, int(500 - avg_time))] over the recorded times below 999 ms: it
    is never negative; the 1000 ms recorded for a false start does not
    enter it; with no negative time recorded it is at most 500; and a game
    of nothing but false starts (or reactions of 999 ms and more) scores 0. *)
Theorem reaction_final_score_range (times : list Q) :
  0 ≤ ReactionTimer.final_score times ∧
  ReactionTimer.final_score (times ++ [1000%Q])
    = ReactionTimer.final_score times ∧
  (Forall (λ t, 0 <= t)%Q times → ReactionTimer.final_score times ≤ 500) ∧
  (Forall (λ t, 999 <= t)%Q times → ReactionTimer.final_score times = 0).
Proof.
  unfold ReactionTimer.final_score. repeat split.
  - lia.
  - unfold ReactionTimer.avg_time, ReactionTimer.valid_times.
    rewrite filter_app. rewrite (filter_cons_False _ 1000%Q).
    + rewrite filter_nil, app_nil_r. reflexivity.
    + intros E. apply Qltb_lt in E. lra.
  - intros H. apply Z.max_lub; [lia|]. apply pyint_le; [lia|].
    pose proof (reaction_avg_time_nonneg _ H).
    change (inject_Z 500) with 500%Q. lra.
  - intros H. unfold ReactionTimer.avg_time.
    rewrite (reaction_valid_times_none _ H). reflexivity.
Qed.

Lemma reaction_final_score_range_witness :
  ReactionTimer.final_score [250%Q; 1000%Q; 320%Q] ≤ 500 ∧
  ReactionTimer.final_score [1000%Q; 1000%Q] = 0.
Proof.
  split.
  - apply (reaction_final_score_range [250%Q; 1000%Q; 320%Q]).
    repeat constructor; discriminate.
  - apply (reaction_final_score_range [1000%Q; 1000%Q]).
    repeat constructor; discriminate.
Defined.

(** ** Color Match *)

Lemma randint_spec a b w :
  ∃ r, randint a b w
       = Done (a + r)%nat (set_rng (tail (rng w)) w) ∧
       r = match rng w with
           | [] => 0%nat
           | x :: _ => (x `mod` (b - a + 1))%nat
           end.
Proof.
  unfold randint, bind, rand_below, ret.
  destruct (rng w) as [|x l] eqn:E.
  - exists 0%nat. split; [|reflexivity]. f_equal.
    destruct w; simpl in *; subst; reflexivity.
  - eexists. split; reflexivity.
Qed.

(** The loop that picks the matching positions ends once the random source
    has named enough different keys. *)
Lemma colormatch_pick_positions_spec n : ∀ l fuel P w,
  rng w = l →
  (length l ≤ fuel)%nat →
  (size P ≤ n)%nat →
  (n ≤ size (P ∪ key_draws l))%nat →
  (∀ i, i ∈ P → (i < 12)%nat) →
  ∃ P' l', ColorMatch.pick_positions fuel n P w = Done P' (set_rng l' w) ∧
           size P' = n ∧ (∀ i, i ∈ P' → (i < 12)%nat).
Proof.
  induction l as [|r l IH]; intros fuel P w Hl Hfuel Hsize Hdraws Hlt.
  - assert (size P = n).
    { unfold key_draws in Hdraws. simpl in Hdraws.
      rewrite (right_id_L ∅ (∪)) in Hdraws. lia. }
    exists P, []. replace (set_rng [] w) with w
      by (destruct w; simpl in *; subst; reflexivity).
    destruct fuel; simpl;
      (destruct (Nat.ltb_spec (size P) n); [lia|]); auto.
  - destruct (Nat.ltb_spec (size P) n) as [Hless|Hdone].
    + destruct fuel as [|fuel]; [simpl in Hfuel; lia|].
      simpl. destruct (Nat.ltb_spec (size P) n); [|lia].
      unfold bind at 1.
      destruct (randint_spec 0 11 w) as (p & -> & Hp). rewrite Hl in Hp.
      change (11 - 0 + 1)%nat with 12%nat in Hp.
      change (0 + p)%nat with p. rewrite Hl. cbn [tail].
      assert (Hp12 : (p < 12)%nat).
      { subst p. apply Nat.mod_upper_bound. lia. }
      destruct (IH fuel ({[p]} ∪ P) (set_rng l w))
        as (P' & l' & E & HP' & Hlt').
      * reflexivity.
      * simpl in Hfuel. lia.
      * rewrite size_union_alt, size_singleton.
        assert (size (P ∖ {[p]}) ≤ size P)%nat
          by (apply subseteq_size; set_solver).
        lia.
      * replace ({[p]} ∪ P ∪ key_draws l)
          with (P ∪ key_draws (r :: l)); [exact Hdraws|].
        unfold key_draws. rewrite fmap_cons, list_to_set_cons, <- Hp.
        set_solver.
      * intros i Hi. apply elem_of_union in Hi as [Hi|Hi]; [|auto].
        apply elem_of_singleton in Hi. subst i. exact Hp12.
      * exists P', l'. split; [|auto]. rewrite E. f_equal.
    + exists P, (r :: l).
      replace (set_rng (r :: l) w) with w
        by (destruct w; simpl in *; subst; reflexivity).
      split; [|split; [lia|exact Hlt]].
      destruct fuel; simpl;
        (destruct (Nat.ltb_spec (size P) n); [lia|]); reflexivity.
Qed.

Lemma set_rng_same l w : rng w = l → set_rng l w = w.
Proof. intros <-. destruct w; reflexivity. Qed.

Lemma choice_done {A} (l : list A) w :
  l ≠ [] →
  ∃ x, choice l w = Done x (set_rng (tail (rng w)) w) ∧ x ∈ l.
Proof.
  intros Hl. unfold choice, bind, rand_below.
  assert (Hlen : (0 < length l)%nat) by (destruct l; [congruence|simpl; lia]).
  destruct (rng w) as [|r q] eqn:E.
  - destruct (lookup_lt_is_Some_2 l 0 Hlen) as [x Hx]. rewrite Hx.
    exists x. split; [|eapply list_elem_of_lookup_2; eauto].
    unfold ret. f_equal. symmetry. apply set_rng_same. exact E.
  - assert (Hr : (r `mod` length l < length l)%nat)
      by (apply Nat.mod_upper_bound; lia).
    destruct (lookup_lt_is_Some_2 l _ Hr) as [x Hx]. rewrite Hx.
    exists x. split; [reflexivity|eapply list_elem_of_lookup_2; eauto].
Qed.

Lemma colormatch_other_colors target :
  (target < length ColorMatch.COLORS)%nat →
  ColorMatch.other_colors target ≠ [] ∧
  ∀ c, c ∈ ColorMatch.other_colors target →
       (c < length ColorMatch.COLORS)%nat ∧ c ≠ target.
Proof.
  intros Ht. unfold ColorMatch.other_colors. split.
  - intros E.
    assert (H : (if decide (target = 0%nat) then 1%nat else 0%nat)
                ∈ filter (λ c, c ≠ target) (seq 0 (length ColorMatch.COLORS))).
    { apply list_elem_of_filter. simpl length.
      destruct (decide (target = 0%nat)); (split; [lia|]);
        apply elem_of_seq; lia. }
    rewrite E in H. apply elem_of_nil in H. exact H.
  - intros c Hc. apply list_elem_of_filter in Hc as [Hne Hc].
    apply elem_of_seq in Hc. split; [lia|exact Hne].
Qed.

Lemma colormatch_fill_keys_spec target P :
  (target < length ColorMatch.COLORS)%nat →
  ∀ keys key_colors matching_keys w,
  ∃ cs l',
    ColorMatch.fill_keys keys target P key_colors matching_keys w
    = Done (key_colors ++ cs, matching_keys ∪ (P ∩ list_to_set keys))
           (set_rng l' w) ∧
    length cs = length keys ∧
    ∀ j c i, cs !! j = Some c → keys !! j = Some i →
      (c < length ColorMatch.COLORS)%nat ∧ (c = target ↔ i ∈ P).
Proof.
  intros Ht. induction keys as [|i keys IH]; intros kc mk w.
  - exists [], (rng w). simpl. rewrite app_nil_r.
    rewrite set_rng_same by reflexivity.
    split; [unfold ret; f_equal; f_equal; set_solver|].
    split; [reflexivity|]. intros j c i H. destruct j; discriminate H.
  - simpl. destruct (bool_decide_reflect (i ∈ P)) as [Hin|Hout].
    + destruct (IH (kc ++ [target]) ({[i]} ∪ mk) w) as (cs & l' & E & Hlen & Hcs).
      exists (target :: cs), l'. rewrite E. split.
      * f_equal. f_equal; [rewrite <- app_assoc; reflexivity|set_solver].
      * split; [simpl; lia|]. intros j c i' Hj Hk.
        destruct j as [|j]; simpl in Hj, Hk.
        -- injection Hj as <-. injection Hk as <-. split; [exact Ht|tauto].
        -- eauto.
    + destruct (colormatch_other_colors target Ht) as [Hne Hoth].
      destruct (choice_done (ColorMatch.other_colors target) w Hne)
        as (c0 & Ec & Hc0).
      unfold bind at 1. rewrite Ec.
      destruct (IH (kc ++ [c0]) mk (set_rng (tail (rng w)) w))
        as (cs & l' & E & Hlen & Hcs).
      exists (c0 :: cs), l'. rewrite E. split.
      * f_equal. f_equal; [rewrite <- app_assoc; reflexivity|set_solver].
      * split; [simpl; lia|]. intros j c i' Hj Hk.
        destruct j as [|j]; simpl in Hj, Hk.
        -- injection Hj as <-. injection Hk as <-.
           destruct (Hoth c0 Hc0) as [Hlt Hneq]. split; [exact Hlt|].
           split; [intros ->; contradiction|intros; contradiction].
        -- eauto.
Qed.

(** [_generate_key_colors] returns when the random source names four
    different keys after the draw of the number of matches. *)
Lemma colormatch_generate_spec s w :
  (ColorMatch.target_color_index s < length ColorMatch.COLORS)%nat →
  (4 ≤ size (key_draws (tail (rng w))))%nat →
  wp (ColorMatch._generate_key_colors s)
     (λ s' _, ∃ colors matching,
        s' = ColorMatch.set_keys colors matching s ∧ colormatch_dealt s') w.
Proof.
  intros Ht Hrng. unfold ColorMatch._generate_key_colors.
  apply wp_bind. unfold wp at 1.
  destruct (randint_spec 2 4 w) as (r & -> & Hr).
  assert (Hr3 : (r < 3)%nat).
  { subst r. destruct (rng w); [lia|]. apply Nat.mod_upper_bound. lia. }
  clear Hr. set (W := set_rng (tail (rng w)) w).
  assert (HW : rng W = tail (rng w)) by reflexivity.
  apply wp_bind. unfold wp at 1.
  destruct (colormatch_pick_positions_spec (2 + r) (rng W)
              (length (rng W) + 2) ∅ W) as (P & l1 & E1 & HP & HP12).
  { reflexivity. }
  { lia. }
  { rewrite size_empty. lia. }
  { rewrite (left_id_L ∅ (∪)), HW. lia. }
  { intros i Hi. apply elem_of_empty in Hi. destruct Hi. }
  rewrite E1. apply wp_bind. unfold wp at 1.
  destruct (colormatch_fill_keys_spec (ColorMatch.target_color_index s) P Ht
              (seq 0 12) [] ∅ (set_rng l1 W)) as (cs & l2 & E2 & Hlen & Hcs).
  rewrite E2. apply wp_ret.
  exists ([] ++ cs), (∅ ∪ P ∩ list_to_set (seq 0 12)).
  split; [reflexivity|].
  assert (HPeq : ∅ ∪ P ∩ list_to_set (seq 0 12) = P).
  { apply set_eq. intros i. rewrite elem_of_union, elem_of_intersection,
      elem_of_list_to_set, elem_of_seq.
    split; [intros [H|[H _]]; [apply elem_of_empty in H; destruct H|exact H]|].
    intros H. right. split; [exact H|]. specialize (HP12 i H). lia. }
  rewrite HPeq, app_nil_l. rewrite length_seq in Hlen.
  unfold colormatch_dealt, ColorMatch.set_keys.
  cbn [ColorMatch.key_colors ColorMatch.matching_keys
       ColorMatch.target_color_index fst snd].
  split; [exact Hlen|]. split; [|split; [exact HP12|lia]].
  intros i c Hc.
  assert (Hi : (i < 12)%nat).
  { rewrite <- Hlen. eapply lookup_lt_Some. exact Hc. }
  apply (Hcs i c i Hc). rewrite lookup_seq. split; [reflexivity|lia].
Qed.

Lemma inputs_rng w w' : inputs w' = inputs w → rng w' = rng w.
Proof. unfold inputs. intros [= _ _ _ _ _ H _ _]. exact H. Qed.

Lemma colormatch_render_keys_outputs s :
  colormatch_dealt s → outputs_only (ColorMatch._render_keys s).
Proof.
  intros (Hlen & Hcol & _ & _). unfold ColorMatch._render_keys.
  apply outputs_only_for_each. intros i Hi. apply elem_of_seq in Hi.
  destruct (bool_decide _); [apply outputs_only_set_key; lia|].
  destruct (lookup_lt_is_Some_2 (ColorMatch.key_colors s) i) as [c Hc];
    [lia|].
  rewrite Hc. destruct (Hcol i c Hc) as [Hlt _].
  destruct (lookup_lt_is_Some_2 ColorMatch.COLORS c Hlt) as [rgb Hrgb].
  rewrite Hrgb. apply outputs_only_set_key. lia.
Qed.

Lemma colormatch_update_display_total s g :
  (ColorMatch.target_color_index s < length ColorMatch.COLORS)%nat →
  ColorMatch.game_start_time s = Some g →
  total (ColorMatch._update_display s).
Proof.
  intros Ht Hg w. unfold ColorMatch._update_display.
  destruct (lookup_lt_is_Some_2 ColorMatch.COLORS _ Ht) as [rgb Hrgb].
  rewrite Hrgb, Hg. apply wp_bind. apply wp_monotonic.
  destruct (ColorMatch.truthy_time _); [|exact I].
  apply wp_bind. apply wp_monotonic. exact I.
Qed.

Lemma colormatch_start_new_round_spec s g w :
  ColorMatch.game_start_time s = Some g →
  (4 ≤ size (key_draws (drop 2 (rng w))))%nat →
  wp (ColorMatch._start_new_round s) (λ s' _, colormatch_new_round s s') w.
Proof.
  intros Hg Hrng. unfold ColorMatch._start_new_round.
  apply wp_seq_outputs; [auto with outputs|]. intros w1 I1 _.
  apply wp_bind.
  destruct (randint_spec 0 (length ColorMatch.COLORS - 1) w1)
    as (r & E & Hr).
  unfold wp at 1. rewrite E.
  assert (Hr6 : (0 + r < length ColorMatch.COLORS)%nat).
  { change (length ColorMatch.COLORS) with 6%nat in *.
    change (6 - 1 - 0 + 1)%nat with 6%nat in Hr. subst r.
    destruct (rng w1) as [|x ?]; [lia|].
    pose proof (Nat.mod_upper_bound x 6). lia. }
  destruct (lookup_lt_is_Some_2 ColorMatch.COLORS _ Hr6) as [rgb Hrgb].
  rewrite Hrgb.
  apply wp_seq_outputs; [apply outputs_only_sleep; discriminate|].
  intros w2 I2 _.
  apply wp_seq_outputs.
  { apply outputs_only_repeat_m. apply outputs_only_seq.
    - apply outputs_only_play_sequence. repeat constructor; discriminate.
    - apply outputs_only_sleep. discriminate. }
  intros w3 I3 _. apply wp_bind.
  eapply wp_mono; [apply colormatch_generate_spec|].
  { exact Hr6. }
  { rewrite (inputs_rng _ _ I3), (inputs_rng _ _ I2). cbn [rng set_rng].
    rewrite (inputs_rng _ _ I1). destruct (rng w) as [|? [|? ?]]; exact Hrng. }
  intros s2 w3' (colors & matching & -> & Hdealt).
  apply wp_seq_total.
  { apply outputs_only_total, colormatch_render_keys_outputs, Hdealt. }
  intros w4. apply wp_seq_total.
  { eapply colormatch_update_display_total; [exact Hr6|exact Hg]. }
  intros w5. apply wp_bind. apply wp_monotonic. apply wp_ret.
  unfold colormatch_new_round.
  refine (conj eq_refl (conj eq_refl (conj eq_refl
    (conj (ex_intro _ _ eq_refl) (conj eq_refl (conj eq_refl (conj eq_refl
    (conj eq_refl (conj eq_refl (conj Hr6 _)))))))))).
  exact Hdealt.
Qed.




(** X5. Color Match, [start()]: when the random source names four different
    keys after its first two draws, the game comes up running in round 1
    with score 0, five seconds on the round clock, nothing found yet and
    a winnable deal - twelve colours of [COLORS], two to four keys showing
    the target colour, these being exactly [matching_keys]. *)
Theorem colormatch_start_deals (s : ColorMatch.State) (w : World) :
  (4 ≤ size (key_draws (drop 2 (rng w))))%nat →
  wp (ColorMatch.start s)
     (λ s' _, ColorMatch.level s' = 1 ∧
              score (ColorMatch.base s') = 0 ∧
              is_running (ColorMatch.base s') = true ∧
              game_over (ColorMatch.base s') = false ∧
              ColorMatch.in_round s' = true ∧
              ColorMatch.found_keys s' = ∅ ∧
              ColorMatch.round_time s' = ColorMatch.INITIAL_ROUND_TIME ∧
              colormatch_dealt s') w.
Proof.
  intros Hrng. unfold ColorMatch.start, ColorMatch.reset.
  apply wp_bind. apply wp_seq_outputs; [auto with outputs|]. intros w1 I1 _.
  apply wp_ret.
  apply wp_seq_outputs; [apply outputs_only_sleep; discriminate|].
  intros w2 I2 _.
  apply wp_seq_outputs; [apply outputs_only_sleep; discriminate|].
  intros w3 I3 _. apply wp_bind. apply wp_monotonic.
  eapply wp_mono; [eapply colormatch_start_new_round_spec; [reflexivity|]|].
  - cbn [rng set_clock].
    rewrite (inputs_rng _ _ I3), (inputs_rng _ _ I2), (inputs_rng _ _ I1).
    exact Hrng.
  - intros s' w' (Hl & Hin & Hf & _ & Hb & Hrt & _ & _ & _ & _ & Hd).
    cbn in Hl, Hb, Hrt. rewrite Hb.
    exact (conj Hl (conj eq_refl (conj eq_refl (conj eq_refl
             (conj Hin (conj Hf (conj Hrt Hd))))))).
Qed.

Lemma colormatch_start_deals_witness :
  wp (ColorMatch.start ColorMatch.init)
     (λ s' _, ColorMatch.level s' = 1 ∧
              score (ColorMatch.base s') = 0 ∧
              is_running (ColorMatch.base s') = true ∧
              game_over (ColorMatch.base s') = false ∧
              ColorMatch.in_round s' = true ∧
              ColorMatch.found_keys s' = ∅ ∧
              ColorMatch.round_time s' = ColorMatch.INITIAL_ROUND_TIME ∧
              colormatch_dealt s')
     (set_rng [3; 1; 7; 2; 9; 4; 0; 5; 1; 3; 2; 4; 0; 1]%nat (quiet_world 0)).
Proof.
  apply (colormatch_start_deals ColorMatch.init
           (set_rng [3; 1; 7; 2; 9; 4; 0; 5; 1; 3; 2; 4; 0; 1]%nat
              (quiet_world 0))).
  vm_compute. repeat constructor.
Defined.

(** X6. Color Match, a key press during a round (a deal as
    [_generate_key_colors] leaves it, a key of the pad).  A key already found
    changes nothing.  A key that does not show the target costs 5 points,
    the score never going below 0, and counts as a wrong hit.  A matching key
    is worth 10 points and is added to the found keys; when it is the last
    one, 20 more points are added, the round time drops by 0.3 s but not
    below 1.5 s, and the next round is dealt. *)
Theorem colormatch_key_press_scoring (s : ColorMatch.State) (key : nat)
    (w : World) :
  colormatch_dealt s →
  (key < 12)%nat →
  let found := ColorMatch.found_keys s in
  let matching := ColorMatch.matching_keys s in
  (key ∈ found → ColorMatch.handle_key_press key s w = Done s w) ∧
  (key ∉ found → key ∉ matching →
   wp (ColorMatch.handle_key_press key s)
      (λ s' _,
         score (ColorMatch.base s')
           = Z.max 0 (score (ColorMatch.base s) - 5) ∧
         ColorMatch.wrong_hits s' = ColorMatch.wrong_hits s + 1 ∧
         ColorMatch.correct_hits s' = ColorMatch.correct_hits s ∧
         ColorMatch.found_keys s' = found ∧
         ColorMatch.level s' = ColorMatch.level s) w) ∧
  (key ∉ found → key ∈ matching → {[key]} ∪ found ≠ matching →
   wp (ColorMatch.handle_key_press key s)
      (λ s' _,
         score (ColorMatch.base s') = score (ColorMatch.base s) + 10 ∧
         ColorMatch.correct_hits s' = ColorMatch.correct_hits s + 1 ∧
         ColorMatch.wrong_hits s' = ColorMatch.wrong_hits s ∧
         ColorMatch.found_keys s' = {[key]} ∪ found ∧
         ColorMatch.level s' = ColorMatch.level s) w) ∧
  (key ∉ found → key ∈ matching → {[key]} ∪ found = matching →
   (∃ g, ColorMatch.game_start_time s = Some g) →
   (4 ≤ size (key_draws (drop 2 (rng w))))%nat →
   wp (ColorMatch.handle_key_press key s)
      (λ s' _,
         score (ColorMatch.base s') = score (ColorMatch.base s) + 30 ∧
         ColorMatch.correct_hits s' = ColorMatch.correct_hits s + 1 ∧
         ColorMatch.level s' = ColorMatch.level s + 1 ∧
         ColorMatch.round_time s'
           = pymax 1.5 (ColorMatch.round_time s - 0.3)%Q ∧
         ColorMatch.found_keys s' = ∅ ∧
         colormatch_dealt s') w).
Proof.
  intros Hd Hk found matching. unfold ColorMatch.handle_key_press.
  fold found matching. repeat split.
  - intros Hf. rewrite bool_decide_eq_true_2 by exact Hf. reflexivity.
  - intros Hnf Hnm. rewrite !bool_decide_eq_false_2 by assumption.
    unfold ColorMatch._handle_wrong.
    apply wp_seq_total; [apply total_flash_key; exact Hk|]. intros w1.
    apply wp_seq_total; [auto with total|]. intros w2.
    apply wp_seq_total.
    { apply outputs_only_total, colormatch_render_keys_outputs.
      exact Hd. }
    intros w3. apply wp_ret. cbn. repeat split.
  - intros Hnf Hm Hne. rewrite bool_decide_eq_false_2 by exact Hnf.
    rewrite bool_decide_eq_true_2 by exact Hm.
    unfold ColorMatch._handle_correct.
    apply wp_seq_total; [apply total_set_key; exact Hk|]. intros w1.
    apply wp_seq_total; [auto with total|]. intros w2.
    cbn [ColorMatch.found_keys ColorMatch.matching_keys].
    rewrite bool_decide_eq_false_2 by exact Hne.
    apply wp_ret. cbn. repeat split.
  - intros Hnf Hm Heq [g Hg] Hrng. rewrite bool_decide_eq_false_2 by exact Hnf.
    rewrite bool_decide_eq_true_2 by exact Hm.
    unfold ColorMatch._handle_correct.
    apply wp_seq_outputs; [apply outputs_only_set_key; exact Hk|].
    intros w1 I1 _.
    apply wp_seq_outputs; [apply outputs_only_play_tone; discriminate|].
    intros w2 I2 _.
    cbn [ColorMatch.found_keys ColorMatch.matching_keys].
    rewrite bool_decide_eq_true_2 by exact Heq.
    unfold ColorMatch._handle_round_complete.
    apply wp_seq_outputs; [auto with outputs|]. intros w3 I3 _.
    apply wp_seq_outputs; [apply outputs_only_flash_all; discriminate|].
    intros w4 I4 _.
    apply wp_seq_outputs; [apply outputs_only_sleep; discriminate|].
    intros w5 I5 _.
    eapply wp_mono; [eapply colormatch_start_new_round_spec; [exact Hg|]|].
    + rewrite (inputs_rng _ _ I5), (inputs_rng _ _ I4), (inputs_rng _ _ I3),
        (inputs_rng _ _ I2), (inputs_rng _ _ I1). exact Hrng.
    + intros s' w' (Hl & _ & Hf & _ & Hb & Hrt & _ & Hc & _ & _ & Hd').
      rewrite Hb.
      refine (conj _ (conj Hc (conj Hl (conj Hrt (conj Hf Hd'))))).
      cbn [ColorMatch.base ColorMatch.set_base score set_score].
      unfold ColorMatch.POINTS_PER_CORRECT. lia.
Qed.

Lemma colormatch_second_round_dealt : colormatch_dealt ColorMatch.second_round.
Proof.
  unfold colormatch_dealt, ColorMatch.second_round.
  cbn [ColorMatch.key_colors ColorMatch.matching_keys
       ColorMatch.target_color_index].
  split; [reflexivity|]. split; [|split].
  - intros i c H.
    do 12 (destruct i as [|i];
           [injection H as <-; split; [simpl; lia|];
            split; [intros E; try discriminate E; set_solver
                   |intros E; set_solver]|]).
    discriminate H.
  - intros i Hi. apply elem_of_union in Hi as [Hi|Hi];
      apply elem_of_singleton in Hi; subst i; lia.
  - rewrite size_union, !size_singleton by set_solver. lia.
Qed.

Lemma colormatch_key_press_scoring_witness :
  let s := ColorMatch.second_round in
  wp (ColorMatch.handle_key_press 5 s)
     (λ s' _,
        score (ColorMatch.base s')
          = Z.max 0 (score (ColorMatch.base s) - 5) ∧
        ColorMatch.wrong_hits s' = ColorMatch.wrong_hits s + 1 ∧
        ColorMatch.correct_hits s' = ColorMatch.correct_hits s ∧
        ColorMatch.found_keys s' = ColorMatch.found_keys s ∧
        ColorMatch.level s' = ColorMatch.level s) (quiet_world 11).
Proof.
  refine (proj1 (proj2 (colormatch_key_press_scoring ColorMatch.second_round
                          5 (quiet_world 11) colormatch_second_round_dealt _))
            _ _).
  - lia.
  - apply not_elem_of_empty.
  - unfold ColorMatch.second_round, ColorMatch.matching_keys.
    intros H. apply elem_of_union in H as [H|H];
      apply elem_of_singleton in H; discriminate H.
Defined.

(** ** Speed Chase *)

Lemma speed_chase_next_time_limit_bounds t :
  (0.3 <= SpeedChase.next_time_limit t)%Q ∧
  ((0.3 <= t)%Q → (SpeedChase.next_time_limit t <= t)%Q).
Proof.
  unfold SpeedChase.next_time_limit, pymax, SpeedChase.MINIMUM_TIME_LIMIT,
    SpeedChase.TIME_DECREASE_FACTOR.
  destruct (Qltb 0.3 (t * 0.92)) eqn:E.
  - apply Qltb_lt in E. split; [lra|intros; lra].
  - split; [lra|intros H; exact H].
Qed.

Lemma speed_chase_limit_after_S n :
  SpeedChase.limit_after (S n)
  = SpeedChase.next_time_limit (SpeedChase.limit_after n).
Proof. reflexivity. Qed.

Lemma speed_chase_limit_after_floor n :
  SpeedChase.limit_after (23 + n) = 0.3%Q.
Proof.
  induction n as [|n IH].
  - vm_compute. reflexivity.
  - replace (23 + S n)%nat with (S (23 + n)) by lia.
    rewrite speed_chase_limit_after_S, IH. vm_compute. reflexivity.
Qed.

Lemma speed_chase_limit_after_above n :
  (n < 23)%nat → (0.3 < SpeedChase.limit_after n)%Q.
Proof.
  intros H.
  do 23 (destruct n as [|n]; [vm_compute; reflexivity|]). lia.
Qed.

Lemma speed_chase_limit_after_ge n : (0.3 <= SpeedChase.limit_after n)%Q.
Proof.
  destruct n; [vm_compute; discriminate|].
  rewrite speed_chase_limit_after_S.
  apply speed_chase_next_time_limit_bounds.
Qed.

Lemma speed_chase_available_keys target :
  SpeedChase.available_keys target ≠ [] ∧
  ∀ k, k ∈ SpeedChase.available_keys target →
       (k < 12)%nat ∧ Some k ≠ target.
Proof.
  unfold SpeedChase.available_keys. split.
  - intros E.
    assert (H : (if decide (target = Some 0%nat) then 1%nat else 0%nat)
                ∈ filter (λ k, Some k ≠ target) (seq 0 12)).
    { apply list_elem_of_filter.
      destruct (decide (target = Some 0%nat)) as [->|Hn].
      - split; [discriminate|apply elem_of_seq; lia].
      - split; [congruence|apply elem_of_seq; lia]. }
    rewrite E in H. apply elem_of_nil in H. exact H.
  - intros k Hk. apply list_elem_of_filter in Hk as [Hne Hk].
    apply elem_of_seq in Hk. split; [lia|exact Hne].
Qed.

(** [_show_next_target] lights a key of the pad other than the last one and
    starts its clock at the time the world is left in. *)
Lemma speed_chase_show_next_target_spec s w :
  wp (SpeedChase._show_next_target s)
     (λ s' w', ∃ k color,
        s' = {| SpeedChase.base := SpeedChase.base s;
                SpeedChase.current_target := Some k;
                SpeedChase.target_color := Some color;
                SpeedChase.time_limit := SpeedChase.time_limit s;
                SpeedChase.target_start_time := Some (clock w');
                SpeedChase.round_number := SpeedChase.round_number s + 1 |} ∧
        (k < 12)%nat ∧ Some k ≠ SpeedChase.current_target s) w.
Proof.
  unfold SpeedChase._show_next_target.
  destruct (speed_chase_available_keys (SpeedChase.current_target s))
    as [Hne Hav].
  apply wp_bind. eapply wp_mono; [apply choice_spec; exact Hne|].
  intros k w1 (Hk & _). destruct (Hav k Hk) as [Hk12 Hdiff].
  apply wp_bind. unfold LEDManager.get_random_color.
  eapply wp_mono; [apply choice_spec; discriminate|].
  intros color w2 _.
  apply wp_seq_total; [auto with total|]. intros w3.
  apply wp_seq_total; [apply total_set_key; exact Hk12|]. intros w4.
  apply wp_bind. apply wp_monotonic. apply wp_ret.
  exists k, color. split; [reflexivity|]. split; [exact Hk12|exact Hdiff].
Qed.

Lemma speed_chase_time_bonus_le e l :
  (0 <= e)%Q → (0 < l)%Q → SpeedChase.time_bonus e l ≤ 20.
Proof.
  intros He Hl. unfold SpeedChase.time_bonus. apply pyint_le; [lia|].
  change (inject_Z SpeedChase.BASE_POINTS) with 10%Q.
  change (inject_Z SpeedChase.SPEED_BONUS_MULTIPLIER) with 2%Q.
  change (inject_Z 20) with 20%Q.
  assert (Hq : (0 <= e / l)%Q) by (apply Qle_shift_div_l; lra).
  set (q := (e / l)%Q) in *. clearbody q. lra.
Qed.

Lemma speed_chase_correct_press_spec s w :
  SpeedChase.in_round s →
  (0.3 <= SpeedChase.time_limit s)%Q →
  (∀ t0, SpeedChase.target_start_time s = Some t0 → (t0 <= clock w)%Q) →
  wp (SpeedChase._handle_correct_press s)
     (λ s' w', speed_chase_advanced s s' (clock w')) w.
Proof.
  intros [(k & Hk & Hk12) (t0 & Ht0)] Hlim Hclock.
  specialize (Hclock t0 Ht0).
  unfold SpeedChase._handle_correct_press, SpeedChase.elapsed_since_target.
  apply wp_bind. apply wp_bind. apply wp_monotonic. rewrite Ht0.
  apply wp_ret.
  destruct (Qeq_bool (SpeedChase.time_limit s) 0) eqn:E.
  { apply Qeq_bool_iff in E. lra. }
  clear E.
  apply wp_seq_total; [auto with total|]. intros w1.
  cbn [SpeedChase.current_target SpeedChase.set_base]. rewrite Hk.
  change (SpeedChase.flash_target_key (Some k) LEDManager.green 2 0.05 0.05)
    with (LEDManager.flash_key k LEDManager.green 2 0.05 0.05).
  apply wp_seq_total; [apply total_flash_key; exact Hk12|]. intros w2.
  eapply wp_mono; [apply speed_chase_show_next_target_spec|].
  intros s' w' (k' & color & -> & Hk' & Hdiff).
  cbn [SpeedChase.current_target] in Hdiff.
  assert (Hel : (0 <= clock w + next_lag (lags w) - t0)%Q).
  { assert (0 <= next_lag (lags w))%Q.
    { unfold next_lag. destruct (lags w); [lra|]. apply Q.le_max_l. }
    lra. }
  pose proof (speed_chase_time_bonus_le _ (SpeedChase.time_limit s) Hel
                ltac:(lra)) as Hb.
  unfold speed_chase_advanced, SpeedChase.in_round.
  cbn [SpeedChase.time_limit SpeedChase.base SpeedChase.set_base score
       set_score is_running game_over SpeedChase.round_number
       SpeedChase.current_target SpeedChase.target_start_time].
  unfold SpeedChase.BASE_POINTS.
  split; [reflexivity|]. split; [lia|]. split; [reflexivity|].
  split; [reflexivity|]. split; [reflexivity|].
  split; [split; eauto|]. split; [congruence|reflexivity].
Qed.

Lemma speed_chase_correct_presses_spec n : ∀ m s w,
  SpeedChase.in_round s →
  SpeedChase.time_limit s = SpeedChase.limit_after m →
  (∀ t0, SpeedChase.target_start_time s = Some t0 → (t0 <= clock w)%Q) →
  wp (SpeedChase.correct_presses n s)
     (λ s' _,
        SpeedChase.time_limit s' = SpeedChase.limit_after (m + n) ∧
        score (SpeedChase.base s) + 10 * Z.of_nat n
          ≤ score (SpeedChase.base s')
          ≤ score (SpeedChase.base s) + 30 * Z.of_nat n ∧
        SpeedChase.round_number s'
          = SpeedChase.round_number s + Z.of_nat n ∧
        is_running (SpeedChase.base s') = is_running (SpeedChase.base s)) w.
Proof.
  induction n as [|n IH]; intros m s w Hin Hlim Hclock.
  - simpl. apply wp_ret. rewrite Nat.add_0_r.
    split; [exact Hlim|]. split; [lia|]. split; [lia|reflexivity].
  - simpl SpeedChase.correct_presses. apply wp_bind.
    eapply wp_mono.
    { apply speed_chase_correct_press_spec; [exact Hin| |exact Hclock].
      rewrite Hlim. apply speed_chase_limit_after_ge. }
    intros s1 w1 (Hl1 & Hs1 & Hr1 & Hrun1 & _ & Hin1 & _ & Ht1).
    eapply wp_mono.
    { apply (IH (S m) s1 w1 Hin1).
      - rewrite Hl1, Hlim. reflexivity.
      - intros t0 E. rewrite Ht1 in E. injection E as <-. lra. }
    intros s2 w2 (Hl2 & Hs2 & Hr2 & Hrun2).
    replace (m + S n)%nat with (S m + n)%nat by lia.
    split; [exact Hl2|]. split; [lia|]. split; [lia|congruence].
Qed.

(** X7. Speed Chase, the time limit.  Every correct press replaces the limit
    [t] by [max(0.3, t * 0.92)] and adds 10 to 30 points.  From the initial
    2.0 s, [n] correct presses in a row return with the limit [limit_after
    n], which never goes below 0.3 s, never goes up, is still above 0.3 s
    after fewer than 23 presses and is exactly 0.3 s from the 23rd press
    on. *)
Theorem speed_chase_time_limit_schedule (s : SpeedChase.State) (w : World)
    (n : nat) :
  SpeedChase.in_round s →
  SpeedChase.time_limit s = SpeedChase.INITIAL_TIME_LIMIT →
  (∀ t0, SpeedChase.target_start_time s = Some t0 → (t0 <= clock w)%Q) →
  wp (SpeedChase.correct_presses n s)
     (λ s' _,
        SpeedChase.time_limit s' = SpeedChase.limit_after n ∧
        score (SpeedChase.base s) + 10 * Z.of_nat n
          ≤ score (SpeedChase.base s')
          ≤ score (SpeedChase.base s) + 30 * Z.of_nat n ∧
        SpeedChase.round_number s'
          = SpeedChase.round_number s + Z.of_nat n ∧
        is_running (SpeedChase.base s') = is_running (SpeedChase.base s)) w ∧
  (0.3 <= SpeedChase.limit_after n)%Q ∧
  (SpeedChase.limit_after (S n) <= SpeedChase.limit_after n)%Q ∧
  ((n < 23)%nat → (0.3 < SpeedChase.limit_after n)%Q) ∧
  ((23 ≤ n)%nat → SpeedChase.limit_after n = 0.3%Q).
Proof.
  intros Hin Hlim Hclock. split; [|split; [|split; [|split]]].
  - apply (speed_chase_correct_presses_spec n 0 s w Hin Hlim Hclock).
  - apply speed_chase_limit_after_ge.
  - rewrite speed_chase_limit_after_S.
    apply speed_chase_next_time_limit_bounds, speed_chase_limit_after_ge.
  - apply speed_chase_limit_after_above.
  - intros Hn. replace n with (23 + (n - 23))%nat by lia.
    apply speed_chase_limit_after_floor.
Qed.

Lemma speed_chase_time_limit_schedule_witness :
  let s := SpeedChase.first_round in
  wp (SpeedChase.correct_presses 25 s)
     (λ s' _,
        SpeedChase.time_limit s' = SpeedChase.limit_after 25 ∧
        score (SpeedChase.base s) + 10 * Z.of_nat 25
          ≤ score (SpeedChase.base s')
          ≤ score (SpeedChase.base s) + 30 * Z.of_nat 25 ∧
        SpeedChase.round_number s'
          = SpeedChase.round_number s + Z.of_nat 25 ∧
        is_running (SpeedChase.base s') = is_running (SpeedChase.base s))
     (quiet_world 5) ∧
  (0.3 <= SpeedChase.limit_after 25)%Q ∧
  (SpeedChase.limit_after 26 <= SpeedChase.limit_after 25)%Q ∧
  ((25 < 23)%nat → (0.3 < SpeedChase.limit_after 25)%Q) ∧
  ((23 ≤ 25)%nat → SpeedChase.limit_after 25 = 0.3%Q).
Proof.
  apply (speed_chase_time_limit_schedule SpeedChase.first_round
           (quiet_world 5) 25).
  - split; [exists 7%nat; split; [reflexivity|lia]|].
    exists 4%Q. reflexivity.
  - reflexivity.
  - intros t0 E. injection E as <-. discriminate.
Defined.

Lemma inputs_switch_polls w w' :
  inputs w' = inputs w → switch_polls w' = switch_polls w.
Proof. unfold inputs. intros [= _ _ H _ _ _ _ _]. exact H. Qed.







(** ** The rainbow animation ends *)

Lemma next_lag_nonneg l : (0 <= next_lag l)%Q.
Proof. unfold next_lag. destruct l; [lra|]. apply Q.le_max_l. Qed.

Lemma rainbow_loop_returns k : ∀ start duration w,
  (duration <= clock w - start + 0.02 * inject_Z (Z.of_nat k))%Q →
  ∃ w', LEDManager.rainbow_loop (S k) start duration w = Done tt w' ∧
        switch_polls w' = switch_polls w ∧
        key_events w' = key_events w ∧ rng w' = rng w ∧
        (clock w <= clock w')%Q.
Proof.
  induction k as [|k IH]; intros start duration w Hd.
  - simpl. unfold bind at 1, monotonic.
    pose proof (next_lag_nonneg (lags w)) as Hlag.
    destruct (Qltb _ duration) eqn:E.
    + apply Qltb_lt in E. change (inject_Z (Z.of_nat 0)) with 0%Q in Hd. lra.
    + unfold ret. eexists. split; [reflexivity|]. simpl.
      repeat split. lra.
  - remember (S k) as k1. simpl. unfold bind at 1, monotonic.
    pose proof (next_lag_nonneg (lags w)) as Hlag.
    destruct (Qltb _ duration) eqn:E.
    + apply Qltb_lt in E.
      unfold bind at 1, monotonic. unfold bind at 1, emit.
      unfold bind at 1, sleep.
      match goal with |- ∃ w', LEDManager.rainbow_loop _ _ _ ?W = _ ∧ _ =>
        destruct (IH start duration W) as (w' & E' & H1 & H2 & H3 & H4)
      end.
      { simpl clock.
        pose proof (next_lag_nonneg (tail (lags w))) as Hlag2.
        subst k1. rewrite Nat2Z.inj_succ in Hd. unfold Z.succ in Hd.
        rewrite inject_Z_plus in Hd. change (inject_Z 1) with 1%Q in Hd.
        set (c := inject_Z (Z.of_nat k)) in *. clearbody c. lra. }
      subst k1. exists w'. split; [exact E'|]. simpl in H1, H2, H3, H4.
      repeat split; auto.
      pose proof (next_lag_nonneg (tail (lags w))). lra.
    + unfold ret. eexists. split; [reflexivity|]. simpl.
      repeat split. lra.
Qed.

(** X10. [rainbow_cycle(duration)] of the LED manager always returns: every
    frame sleeps 20 ms, so the animation is over after at most
    [ceil(duration / 0.02)] frames, however the clock lags; it consumes
    clock readings only (no key event, switch poll or random draw) and
    never moves the clock backwards. *)
Theorem rainbow_cycle_returns (duration : Q) (w : World) :
  ∃ w', LEDManager.rainbow_cycle duration w = Done tt w' ∧
        switch_polls w' = switch_polls w ∧
        key_events w' = key_events w ∧ rng w' = rng w ∧
        (clock w <= clock w')%Q.
Proof.
  unfold LEDManager.rainbow_cycle, bind, monotonic.
  pose proof (next_lag_nonneg (lags w)) as Hlag.
  match goal with |- ∃ w', LEDManager.rainbow_loop _ ?s _ ?W = _ ∧ _ =>
    destruct (rainbow_loop_returns
                (Z.to_nat (Qceiling (duration / 0.02))) s duration W)
      as (w' & E & H1 & H2 & H3 & H4)
  end.
  - simpl clock.
    pose proof (Qle_ceiling (duration / 0.02)) as Hc.
    assert (Hn : (inject_Z (Qceiling (duration / 0.02))
                  <= inject_Z (Z.of_nat (Z.to_nat
                                 (Qceiling (duration / 0.02)))))%Q).
    { rewrite <- Zle_Qle. lia. }
    assert (Hd : (duration == duration / 0.02 * 0.02)%Q) by (field; lra).
    set (c := inject_Z (Z.of_nat (Z.to_nat (Qceiling (duration / 0.02)))))
      in *.
    set (q := (duration / 0.02)%Q) in *. clearbody c q. lra.
  - exists w'. split; [exact E|]. simpl in H1, H2, H3, H4.
    repeat split; auto. lra.
Qed.

(** The two-second rainbow of a victory. *)
Lemma rainbow_cycle_victory w :
  ∃ w', LEDManager.rainbow_cycle 2.0 w = Done tt w' ∧
        switch_polls w' = switch_polls w.
Proof.
  unfold LEDManager.rainbow_cycle, bind, monotonic.
  change (Z.to_nat (Qceiling (2.0 / 0.02))) with 100%nat.
  match goal with |- ∃ w', LEDManager.rainbow_loop _ ?s _ ?W = _ ∧ _ =>
    destruct (rainbow_loop_returns 100 s 2.0 W) as (w' & E & H1 & _)
  end.
  - simpl clock. change (inject_Z (Z.of_nat 100)) with 100%Q. lra.
  - exists w'. split; [exact E|exact H1].
Qed.

(** ** Hot Potato *)

Lemma wp_sleep {A} d (k : M A) (Q : A → World → Prop) w :
  wp k Q (set_clock (clock w + d)%Q (lags w) w) → wp (sleep d;; k) Q w.
Proof. intros H. exact H. Qed.

Lemma hot_potato_start_round_spec s w :
  wp (HotPotato._start_round s)
     (λ s' _, HotPotato.round s' = HotPotato.round s + 1 ∧
              HotPotato.round_active s' = true ∧
              (HotPotato.potato_key s' < 12)%nat ∧
              HotPotato.base s' = HotPotato.base s ∧
              HotPotato.survived s' = HotPotato.survived s ∧
              HotPotato.move_interval s' = HotPotato.move_interval s) w.
Proof.
  unfold HotPotato._start_round. apply wp_bind. unfold wp at 1.
  destruct (randint_spec 0 11 w) as (r & -> & Hr).
  assert (Hr12 : (0 + r < 12)%nat).
  { change (11 - 0 + 1)%nat with 12%nat in Hr. subst r.
    destruct (rng w) as [|x ?]; [lia|].
    pose proof (Nat.mod_upper_bound x 12). lia. }
  apply wp_bind. eapply wp_mono; [apply total_uniform|]. intros d w1 _.
  apply wp_bind. apply wp_monotonic. apply wp_bind. apply wp_monotonic.
  apply wp_seq_total; [auto with total|]. intros w2.
  apply wp_seq_total; [apply total_set_key; exact Hr12|]. intros w3.
  apply wp_ret. cbn. repeat split. exact Hr12.
Qed.

(** By the time [_handle_explosion] reads the clock, 0.6 s of animation
    have passed: the branch taken is always [_handle_safe]. *)
Lemma hot_potato_explosion_reduces s w :
  (HotPotato.last_move_time s <= clock w)%Q →
  ∃ w', HotPotato._handle_explosion s w
        = HotPotato._handle_safe (HotPotato.set_round_active false s) w' ∧
        switch_polls w' = switch_polls w ∧ rng w' = rng w ∧
        rng_unit w' = rng_unit w.
Proof.
  intros Hlast. unfold HotPotato._handle_explosion.
  destruct (outputs_only_set_all HotPotato.EXPLODE_COLOR w)
    as (w1 & E1 & I1 & C1).
  unfold bind at 1. rewrite E1.
  destruct (outputs_only_play_tone 200 0.3 ltac:(discriminate) w1)
    as (w2 & E2 & I2 & C2).
  unfold bind at 1. rewrite E2. unfold bind at 1, sleep.
  set (w3 := set_clock (clock w2 + 0.3) (lags w2) w2).
  destruct (outputs_only_set_all HotPotato.WARNING_COLOR w3)
    as (w4 & E4 & I4 & C4).
  unfold bind at 1. rewrite E4.
  destruct (outputs_only_play_tone 150 0.3 ltac:(discriminate) w4)
    as (w5 & E5 & I5 & C5).
  unfold bind at 1. rewrite E5. unfold bind at 1, sleep.
  unfold bind at 1, monotonic. cbn [clock lags set_clock].
  pose proof (next_lag_nonneg (lags w5)) as Hlag.
  simpl clock in C4.
  cbn [HotPotato.last_move_time HotPotato.set_round_active].
  destruct (Qltb _ 0.3) eqn:E.
  { apply Qltb_lt in E. lra. }
  eexists. split; [reflexivity|].
  cbn [switch_polls rng rng_unit set_clock].
  rewrite (inputs_switch_polls _ _ I5), (inputs_switch_polls _ _ I4),
    (inputs_rng _ _ I5), (inputs_rng _ _ I4).
  assert (Hu : ∀ a b, inputs a = inputs b → rng_unit a = rng_unit b).
  { unfold inputs. intros a b [= _ _ _ _ _ _ H _]. exact H. }
  rewrite (Hu _ _ I5), (Hu _ _ I4).
  cbn [switch_polls rng rng_unit set_clock w3].
  rewrite (inputs_switch_polls _ _ I2), (inputs_switch_polls _ _ I1),
    (inputs_rng _ _ I2), (inputs_rng _ _ I1), (Hu _ _ I2), (Hu _ _ I1).
  repeat split.
Qed.

Lemma hot_potato_victory_spec s w :
  let P := λ (s' : HotPotato.State) (_ : World),
    score (HotPotato.base s')
      = score (HotPotato.base s) + HotPotato.survived s * 20 ∧
    HotPotato.survived s' = HotPotato.survived s ∧
    HotPotato.round s' = HotPotato.round s ∧
    is_running (HotPotato.base s') = false ∧
    game_over (HotPotato.base s') = true in
  wlp (HotPotato._handle_victory s) P w ∧
  (press_pending w → wp (HotPotato._handle_victory s) P w).
Proof.
  intros P. unfold HotPotato._handle_victory.
  match goal with |- wlp (_;; _;; _;; ret ?s2) _ _ ∧ _ =>
    assert (HP : ∀ w0, P s2 w0)
  end.
  { intros w0. unfold P, update_high_score. simpl.
    destruct (_ >? _); simpl; repeat split. }
  split.
  - do 3 (apply wlp_seq; intros ?). apply wlp_ret. apply HP.
  - intros Hp.
    apply wp_seq_outputs; [auto with outputs|]. intros w1 I1 _.
    destruct (rainbow_cycle_victory w1) as (w2 & E2 & H2).
    unfold wp, bind at 1. rewrite E2.
    destruct (wait_for_continue_returns w2) as (w3 & E3).
    { unfold press_pending in *. rewrite H2, (inputs_switch_polls _ _ I1).
      exact Hp. }
    unfold bind. rewrite E3. apply HP.
Qed.

Lemma hot_potato_safe_spec s w :
  (HotPotato.round s < 10 →
   wp (HotPotato._handle_safe s) (λ s' _, hot_potato_next_round s s') w) ∧
  (10 ≤ HotPotato.round s →
   wlp (HotPotato._handle_safe s) (λ s' _, hot_potato_won s s') w ∧
   (press_pending w →
    wp (HotPotato._handle_safe s) (λ s' _, hot_potato_won s s') w)).
Proof.
  unfold HotPotato._handle_safe, HotPotato.NUM_ROUNDS.
  cbn [HotPotato.round].
  split; [intros Hlt|intros Hge; split; [|intros Hp]].
  - destruct (Z.leb_spec 10 (HotPotato.round s)) as [?|_]; [lia|].
    apply wp_seq_total; [auto with total|]. intros w1.
    apply wp_seq_total; [auto with total|]. intros w2.
    apply wp_seq_total; [auto with total|]. intros w3.
    eapply wp_mono; [apply hot_potato_start_round_spec|].
    intros s' ? (Hr & Ha & Hk & Hb & Hs & Hm).
    unfold hot_potato_next_round. rewrite Hb, Hs, Hm, Hr.
    cbn. repeat split; auto.
  - destruct (Z.leb_spec 10 (HotPotato.round s)) as [_|?]; [|lia].
    do 3 (apply wlp_seq; intros ?).
    eapply wlp_mono; [apply (proj1 (hot_potato_victory_spec _ _))|].
    intros s' ? (H1 & H2 & H3 & H4 & H5). unfold hot_potato_won.
    rewrite H1, H2, H3. cbn. repeat split; auto; lia.
  - destruct (Z.leb_spec 10 (HotPotato.round s)) as [_|?]; [|lia].
    apply wp_seq_outputs; [auto with outputs|]. intros w1 I1 _.
    apply wp_seq_outputs; [auto with outputs|]. intros w2 I2 _.
    apply wp_seq_outputs; [apply outputs_only_sleep; discriminate|].
    intros w3 I3 _.
    eapply wp_mono; [apply (proj2 (hot_potato_victory_spec _ _))|].
    + eapply press_pending_inputs; [|exact Hp]. congruence.
    + intros s' ? (H1 & H2 & H3 & H4 & H5). unfold hot_potato_won.
      rewrite H1, H2, H3. cbn. repeat split; auto; lia.
Qed.

(** X11. Hot Potato, the explosion.  [_handle_explosion] plays 0.6 s of
    animation before it compares the clock with [last_move_time], so the
    test [time_since_pass < 0.3] cannot hold and the round always counts as
    survived, however recently the potato was passed.  In a running round
    whose time is up, with [last_move_time] not in the future: before the
    tenth round the tick returns [True] with the round survived (10 points,
    move interval down by 0.05 s but not below 0.2 s) and the next round
    begun; from the tenth round on it returns [False] with the game won
    (10 points, and 20 for every round survived), once the final screen is
    acknowledged. *)
Theorem hot_potato_explosion_always_safe (s : HotPotato.State) (w : World) :
  is_running (HotPotato.base s) = true →
  HotPotato.round_active s = true →
  (HotPotato.last_move_time s <= clock w)%Q →
  (HotPotato.round_end_time s <= clock w + next_lag (lags w))%Q →
  (HotPotato.round s < 10 →
   wp (HotPotato.update s)
      (λ r _, r.1 = true ∧ hot_potato_next_round s r.2) w) ∧
  (10 ≤ HotPotato.round s →
   wlp (HotPotato.update s)
       (λ r _, r.1 = false ∧ hot_potato_won s r.2) w ∧
   (press_pending w →
    wp (HotPotato.update s)
       (λ r _, r.1 = false ∧ hot_potato_won s r.2) w)).
Proof.
  intros Hrun Hact Hlast Hend.
  set (t := (clock w + next_lag (lags w))%Q) in *.
  set (w1 := set_clock t (tail (lags w)) w).
  set (s1 := HotPotato.set_round_active false s).
  destruct (hot_potato_explosion_reduces s w1) as (w2 & E & Hsw & _).
  { simpl clock. pose proof (next_lag_nonneg (lags w)). unfold t. lra. }
  fold s1 in E.
  assert (Hupd : HotPotato.update s w
    = (s' <- HotPotato._handle_safe s1;;
       ret (is_running (HotPotato.base s'), s')) w2).
  { unfold HotPotato.update. rewrite Hrun. cbn [negb].
    unfold bind at 1, monotonic. fold t. fold w1.
    unfold bind at 1, HotPotato.round_tick. rewrite Hact.
    destruct (Qleb (HotPotato.round_end_time s - t) 0) eqn:E0;
      [|apply Qleb_gt in E0; lra].
    unfold bind at 1. rewrite E. unfold bind.
    destruct (HotPotato._handle_safe s1 w2); reflexivity. }
  destruct (hot_potato_safe_spec s1 w2) as [Hnext Hwon].
  split; [intros Hlt|intros Hge; split; [|intros Hp]].
  - specialize (Hnext Hlt). unfold wp in *. rewrite Hupd. unfold bind.
    destruct (HotPotato._handle_safe s1 w2) as [s' w'| |];
      try contradiction.
    cbn [fst snd]. split; [|exact Hnext].
    destruct Hnext as (_ & _ & _ & _ & _ & _ & H7 & _).
    rewrite H7. exact Hrun.
  - destruct (Hwon Hge) as [Hw _]. unfold wlp in *. rewrite Hupd.
    unfold bind.
    destruct (HotPotato._handle_safe s1 w2) as [s' w'| |]; try exact I.
    cbn [fst snd]. split; [apply Hw|exact Hw].
  - destruct (Hwon Hge) as [_ Hw]. unfold wp in *. rewrite Hupd.
    unfold bind.
    assert (Hp2 : press_pending w2).
    { unfold press_pending in *. rewrite Hsw. exact Hp. }
    specialize (Hw Hp2).
    destruct (HotPotato._handle_safe s1 w2) as [s' w'| |];
      try contradiction.
    cbn [fst snd]. split; [apply Hw|exact Hw].
Qed.

Lemma hot_potato_explosion_always_safe_witness :
  let s := HotPotato.third_round in
  let w := quiet_world 12 in
  (HotPotato.round s < 10 →
   wp (HotPotato.update s)
      (λ r _, r.1 = true ∧ hot_potato_next_round s r.2) w) ∧
  (10 ≤ HotPotato.round s →
   wlp (HotPotato.update s)
       (λ r _, r.1 = false ∧ hot_potato_won s r.2) w ∧
   (press_pending w →
    wp (HotPotato.update s)
       (λ r _, r.1 = false ∧ hot_potato_won s r.2) w)).
Proof.
  apply (hot_potato_explosion_always_safe HotPotato.third_round
           (quiet_world 12)).
  - reflexivity.
  - reflexivity.
  - discriminate.
  - discriminate.
Defined.

Lemma hot_potato_neighbors key :
  (key < 12)%nat →
  ∃ neighbors, HotPotato.ADJACENCY !! key = Some neighbors ∧
    neighbors ≠ [] ∧
    ∀ n, n ∈ neighbors → (n < 12)%nat ∧ grid_adjacent key n.
Proof.
  intros Hk. unfold grid_adjacent.
  do 12 (destruct key as [|key];
    [eexists; split; [reflexivity|]; split; [discriminate|];
     intros n Hn;
     repeat (apply elem_of_cons in Hn as [->|Hn];
             [split; [lia|]; cbn; lia|]);
     apply elem_of_nil in Hn; destruct Hn|]).
  lia.
Qed.

(** X12. Hot Potato, key presses in a round.  Pressing the key the potato
    sits on passes it to a neighbouring key of the pad (side by side or one
    above the other, never off the pad, never staying put) and restarts the
    auto-move timer at the time the call returns; score, round, round end
    and survived count are untouched.  Pressing any other key changes
    nothing. *)
Theorem hot_potato_pass_to_neighbour (s : HotPotato.State) (key : nat)
    (w : World) :
  (HotPotato.potato_key s < 12)%nat →
  (key < 12)%nat →
  (key = HotPotato.potato_key s →
   wp (HotPotato.handle_key_press key s)
      (λ s' w',
         grid_adjacent (HotPotato.potato_key s) (HotPotato.potato_key s') ∧
         (HotPotato.potato_key s' < 12)%nat ∧
         HotPotato.potato_key s' ≠ HotPotato.potato_key s ∧
         HotPotato.last_move_time s' = clock w' ∧
         HotPotato.base s' = HotPotato.base s ∧
         HotPotato.round s' = HotPotato.round s ∧
         HotPotato.round_end_time s' = HotPotato.round_end_time s ∧
         HotPotato.survived s' = HotPotato.survived s) w) ∧
  (key ≠ HotPotato.potato_key s →
   wp (HotPotato.handle_key_press key s) (λ s' _, s' = s) w).
Proof.
  intros Hp Hk. unfold HotPotato.handle_key_press. split.
  - intros ->. rewrite Nat.eqb_refl. unfold HotPotato._pass_potato.
    apply wp_seq_total; [apply total_set_key; exact Hp|]. intros w1.
    destruct (hot_potato_neighbors _ Hp) as (neighbors & -> & Hne & Hn).
    apply wp_bind. eapply wp_mono; [apply choice_spec; exact Hne|].
    intros n w2 (Hin & _). destruct (Hn n Hin) as [Hn12 Hadj].
    apply wp_seq_total; [apply total_set_key; exact Hn12|]. intros w3.
    apply wp_seq_total; [auto with total|]. intros w4.
    apply wp_bind. apply wp_monotonic. apply wp_ret.
    cbn [HotPotato.potato_key HotPotato.last_move_time HotPotato.base
         HotPotato.round HotPotato.round_end_time HotPotato.survived
         clock set_clock].
    split; [exact Hadj|]. split; [exact Hn12|].
    split; [|repeat split].
    unfold grid_adjacent in Hadj. lia.
  - intros Hne. apply Nat.eqb_neq in Hne. rewrite Hne.
    apply wp_seq_total; [apply total_flash_key; exact Hk|]. intros w1.
    apply wp_ret. reflexivity.
Qed.

Lemma hot_potato_pass_to_neighbour_witness :
  let s := HotPotato.third_round in
  (4%nat = HotPotato.potato_key s →
   wp (HotPotato.handle_key_press 4 s)
      (λ s' w',
         grid_adjacent (HotPotato.potato_key s) (HotPotato.potato_key s') ∧
         (HotPotato.potato_key s' < 12)%nat ∧
         HotPotato.potato_key s' ≠ HotPotato.potato_key s ∧
         HotPotato.last_move_time s' = clock w' ∧
         HotPotato.base s' = HotPotato.base s ∧
         HotPotato.round s' = HotPotato.round s ∧
         HotPotato.round_end_time s' = HotPotato.round_end_time s ∧
         HotPotato.survived s' = HotPotato.survived s) (key_world 4)) ∧
  (4%nat ≠ HotPotato.potato_key s →
   wp (HotPotato.handle_key_press 4 s) (λ s' _, s' = s) (key_world 4)).
Proof.
  apply (hot_potato_pass_to_neighbour HotPotato.third_round 4 (key_world 4));
    simpl; lia.
Defined.

(** ** The high-score store *)

Lemma menu_merge_object o names : ∀ scores,
  ∃ r, MenuSystem.merge names (MenuSystem.JObj o) scores
       = MenuSystem.Returns r ∧
       ∀ name, r !! name
               = if decide (name ∈ names)
                 then match o !! name with
                      | Some v => Some v
                      | None => scores !! name
                      end
                 else scores !! name.
Proof.
  induction names as [|n names IH]; intros scores.
  - exists scores. split; [reflexivity|]. intros name.
    destruct (decide _) as [H|_]; [apply elem_of_nil in H; destruct H|].
    reflexivity.
  - simpl. destruct (o !! n) as [v|] eqn:En.
    + rewrite bool_decide_eq_true_2 by eauto.
      destruct (IH (<[n := v]> scores)) as (r & -> & Hr).
      exists r. split; [reflexivity|]. intros name. rewrite Hr.
      destruct (decide (name = n)) as [->|Hne].
      * rewrite En, lookup_insert_eq.
        destruct (decide (n ∈ n :: names)) as [_|Hout'];
          [destruct (decide (n ∈ names)); reflexivity|].
        exfalso. apply Hout'. left.
      * rewrite lookup_insert_ne by congruence.
        destruct (decide (name ∈ names)) as [Hin|Hout],
                 (decide (name ∈ n :: names)) as [Hin'|Hout'];
          try reflexivity.
        -- exfalso. apply Hout'. right. exact Hin.
        -- exfalso. apply elem_of_cons in Hin' as [?|?]; contradiction.
    + rewrite bool_decide_eq_false_2 by (intros [? ?]; congruence).
      destruct (IH scores) as (r & -> & Hr).
      exists r. split; [reflexivity|]. intros name. rewrite Hr.
      destruct (decide (name = n)) as [->|Hne].
      * rewrite En.
        destruct (decide (n ∈ n :: names)) as [_|Hout'];
          [destruct (decide (n ∈ names)); reflexivity|].
        exfalso. apply Hout'. left.
      * destruct (decide (name ∈ names)) as [Hin|Hout],
                 (decide (name ∈ n :: names)) as [Hin'|Hout'];
          try reflexivity.
        -- exfalso. apply Hout'. right. exact Hin.
        -- exfalso. apply elem_of_cons in Hin' as [?|?]; contradiction.
Qed.

Lemma menu_default_scores name :
  MenuSystem.default_scores !! name
  = if decide (name ∈ MenuSystem.GAME_NAMES)
    then Some (MenuSystem.JInt 0) else None.
Proof.
  unfold MenuSystem.default_scores.
  destruct (decide _) as [Hin|Hout].
  - apply elem_of_list_to_map_1.
    + rewrite <- list_fmap_compose. simpl.
      repeat (apply NoDup_cons_2;
        [intros H;
         repeat (apply elem_of_cons in H as [H|H]; [discriminate H|]);
         apply elem_of_nil in H; exact H|]).
      apply NoDup_nil_2.
    + apply list_elem_of_fmap. exists name. split; [reflexivity|exact Hin].
  - apply not_elem_of_list_to_map_1. rewrite <- list_fmap_compose. simpl.
    exact Hout.
Qed.

(** Loading the file of an object: every game gets the saved value, or 0
    when the object has none; names that are no games are dropped. *)
Lemma menu_load_object o b :
  ∃ r, MenuSystem._load_scores
         {| MenuSystem.scores_file := MenuSystem.Parsed (MenuSystem.JObj o);
            MenuSystem.writable := b |}
       = MenuSystem.Returns r ∧
       ∀ name, r !! name
               = if decide (name ∈ MenuSystem.GAME_NAMES)
                 then Some (default (MenuSystem.JInt 0) (o !! name))
                 else None.
Proof.
  unfold MenuSystem._load_scores. cbn [MenuSystem.scores_file].
  destruct (menu_merge_object o MenuSystem.GAME_NAMES
              MenuSystem.default_scores) as (r & E & Hr).
  exists r. split; [exact E|]. intros name. rewrite Hr.
  rewrite menu_default_scores.
  destruct (decide _); [|reflexivity]. destruct (o !! name); reflexivity.
Qed.
